(** * PaiConv: the pseudo-grid index convolution of [model.py]

    A shallow embedding of the geometric core of [model.py]: the neighbour
    indexer [knn], the kernel-point generator [fibonacci_sphere], the soft
    assignment builder [PaiIndexMatrix] (with its [topkmax] pipeline), the
    aggregation layer [PaiConv] and the assembler [PaiNet].

    Tensors are nested lists over the real numbers: every floating-point
    operation of the source is read as the exact operation on [R].  The
    torch routines the source calls are given by their documented
    semantics; [topk], whose order on ties torch leaves open, is a
    parameter with a contract, and the draws of the random generator are
    explicit arguments. *)

From Stdlib Require Import Reals Lra Lia List Arith Bool Permutation Sorted.
Import ListNotations.

Open Scope R_scope.

(** ** The option monad *)

Definition obind {A B : Type} (o : option A) (f : A -> option B) : option B :=
  match o with
  | Some a => f a
  | None => None
  end.

Notation "x <- o ;; k" := (obind o (fun x => k))
  (at level 61, o at next level, right associativity).
Notation "' p <- o ;; k" := (obind o (fun p => k))
  (at level 61, p pattern, o at next level, right associativity).

Fixpoint mapM {A B : Type} (f : A -> option B) (l : list A) : option (list B) :=
  match l with
  | [] => Some []
  | a :: l' => b <- f a ;; bs <- mapM f l' ;; Some (b :: bs)
  end.

(** ** Tensors as nested lists *)

(** A matrix is the list of its rows, a batch the list of its matrices.
    torch raises on operands whose shapes do not fit; the operations here
    are total, and the properties below are stated for well-shaped
    inputs.  What is kept as an error is what the source can run into on
    well-shaped inputs: [topk] with [k] beyond the number of points, an
    index out of range, a division by a zero count or a square root of a
    negative number in Python arithmetic, and batch normalisation of a
    single value in training mode. *)

Module Tensor.

Abbreviation vec := (list R) (only parsing).
Abbreviation matrix := (list (list R)) (only parsing).
Abbreviation tensor3 := (list (list (list R))) (only parsing).

Definition nrows {A : Type} (M : list (list A)) : nat := length M.

Definition ncols {A : Type} (M : list (list A)) : nat :=
  match M with
  | [] => 0%nat
  | r :: _ => length r
  end.

Definition get (M : matrix) (i j : nat) : R := nth j (nth i M []) 0.

Definition tabulate {A : Type} (r c : nat) (f : nat -> nat -> A) : list (list A) :=
  map (fun i => map (fun j => f i j) (seq 0 c)) (seq 0 r).

(** Sum of [f 0 .. f (n-1)]. *)
Fixpoint rsum (n : nat) (f : nat -> R) : R :=
  match n with
  | O => 0
  | S n' => rsum n' f + f n'
  end.

Definition map_entries (f : R -> R) (M : matrix) : matrix := map (map f) M.

(** [M.transpose(0, 1)] of a matrix. *)
Definition transpose (M : matrix) : matrix :=
  tabulate (ncols M) (nrows M) (fun i j => get M j i).

(** [torch.matmul] of two matrices; torch raises unless the inner
    dimensions agree, the sum here runs over the columns of [A]. *)
Definition matmul (A B : matrix) : matrix :=
  tabulate (nrows A) (ncols B)
    (fun i j => rsum (ncols A) (fun l => get A i l * get B l j)).

(** Broadcasting: a dimension of size 1 is repeated along the other
    operand's dimension. *)
Definition bidx (n i : nat) : nat := if Nat.eqb n 1 then 0%nat else i.

Definition bget (M : matrix) (i j : nat) : R :=
  get M (bidx (nrows M) i) (bidx (ncols M) j).

Definition bdim (a b : nat) : nat := if Nat.eqb a 1 then b else a.

Definition broadcast (f : R -> R -> R) (A B : matrix) : matrix :=
  tabulate (bdim (nrows A) (nrows B)) (bdim (ncols A) (ncols B))
    (fun i j => f (bget A i j) (bget B i j)).

(** [torch.sum(M, dim=0, keepdim=True)]: a 1 x c matrix of column sums. *)
Definition colsum (M : matrix) (j : nat) : R :=
  rsum (nrows M) (fun i => get M i j).

Definition sum_rows_keepdim (M : matrix) : matrix :=
  [map (colsum M) (seq 0 (ncols M))].

(** Sum of one row. *)
Definition rowsum (M : matrix) (i : nat) : R :=
  rsum (ncols M) (fun j => get M i j).

(** [torch.where(M > c, M, torch.full_like(M, 0.))]. *)
Definition where_gt (c : R) (M : matrix) : matrix :=
  map_entries (fun a => if Rgt_dec a c then a else 0) M.

Fixpoint zip_with {A B C : Type} (f : A -> B -> C) (l1 : list A) (l2 : list B)
  : list C :=
  match l1, l2 with
  | a :: l1', b :: l2' => f a b :: zip_with f l1' l2'
  | _, _ => []
  end.

(** Operations on a batch act on every element of the batch. *)
Definition transpose21 (x : tensor3) : tensor3 := map transpose x.
Definition bmm (A B : tensor3) : tensor3 := zip_with matmul A B.
Definition scale3 (c : R) (x : tensor3) : tensor3 := map (map_entries (Rmult c)) x.
Definition neg3 (x : tensor3) : tensor3 := map (map_entries Ropp) x.
Definition pow3 (x : tensor3) (n : nat) : tensor3 :=
  map (map_entries (fun a => a ^ n)) x.
Definition sum_dim1_keepdim (x : tensor3) : tensor3 := map sum_rows_keepdim x.
Definition sub3 (A B : tensor3) : tensor3 := zip_with (broadcast Rminus) A B.

(** [x.size()] of a batch x rows x columns tensor. *)
Definition size0 (x : tensor3) : nat := length x.
Definition size1 (x : tensor3) : nat := nrows (hd [] x).
Definition size2 (x : tensor3) : nat := ncols (hd [] x).

(** [t.view(n, k, -1)] of a flat buffer of rows: [n] blocks of [k] rows. *)
Definition view_blocks {A : Type} (n k : nat) (rows : list A) : list (list A) :=
  map (fun p => firstn k (skipn (p * k) rows)) (seq 0 n).

(** [zeros(r, c)] *)
Definition zeros (r c : nat) : matrix := tabulate r c (fun _ _ => 0).

(** [M[0, 0] = a]; an [IndexError] when [M] has no entry (0,0). *)
Definition set00 (M : matrix) (a : R) : option matrix :=
  match M with
  | (_ :: row) :: M' => Some ((a :: row) :: M')
  | _ => None
  end.

(** A well-shaped r x c matrix. *)
Definition shape (M : matrix) (r c : nat) : Prop :=
  length M = r /\ Forall (fun row => length row = c) M.

End Tensor.
Import Tensor.

(** ** [PaiIndexMatrix.topkmax] *)

Definition eps : R := 1 / 1000000.

(** [permatrix / (torch.sum(permatrix, dim=1, keepdim=True) + 1e-6)] on one
    point's k x kernel_size matrix: dimension 1 of the batched tensor is
    the neighbour dimension, the rows here. *)
Definition normalize (P : matrix) : matrix :=
  broadcast Rdiv P (map_entries (fun s => s + eps) (sum_rows_keepdim P)).

Definition square (P : matrix) : matrix := broadcast Rmult P P.

Definition topkmax1 (permatrix : matrix) : matrix :=
  let permatrix := normalize permatrix in
  let permatrix := square permatrix in
  let permatrix := normalize permatrix in
  let permatrix := where_gt (1 / 10) permatrix in
  permatrix.

Definition topkmax (permatrix : tensor3) : tensor3 := map topkmax1 permatrix.

(** ** [fibonacci_sphere] *)

(** A [for] loop over a list of indices, threading the loop state; an
    exception raised by the body ends the run. *)
Fixpoint for_each {A S : Type} (body : A -> S -> option S) (l : list A) (s : S)
  : option S :=
  match l with
  | [] => Some s
  | a :: l' => s' <- body a s ;; for_each body l' s'
  end.

(** [math.sqrt] raises [ValueError] on a negative argument. *)
Definition math_sqrt (a : R) : option R :=
  if Rle_dec 0 a then Some (sqrt a) else None.

(** Python's [a % n] on floats, for [n <> 0]: [a - n * floor (a / n)]. *)
Definition float_mod (a n : R) : R := a - n * IZR (Int_part (a / n)).

Definition fibonacci_body (rnd offset increment : R) (samples i : nat)
    (points : list (list R)) : option (list (list R)) :=
  let y := ((INR i * offset) - 1) + (offset / 2) in
  r <- math_sqrt (1 - y ^ 2) ;;
  let phi := float_mod (INR i + rnd) (INR samples) * increment in
  let x := cos phi * r in
  let z := sin phi * r in
  Some (points ++ [[x; y; z]]).

(** [random] is the value [random.random()] returns, read only when
    [randomize] is set.  [2./samples] raises [ZeroDivisionError] for
    [samples = 0]. *)
Definition fibonacci_sphere (random : R) (samples : nat) (randomize : bool)
  : option (list (list R)) :=
  let rnd := if randomize then random * INR samples else 1 in
  let points := [[0; 0; 0]] in
  if Nat.eqb samples 0 then None else
  let offset := 2 / INR samples in
  let increment := PI * (3 - sqrt 5) in
  for_each (fibonacci_body rnd offset increment samples)
           (seq 0 (samples - 1)) points.

(** ** The layers of [torch.nn] that the networks are built from *)

Module nn.

Definition dot (u v : vec) : R :=
  rsum (length u) (fun l => nth l u 0 * nth l v 0).

(** [nn.Linear]: [y = x W^T + b], the weight is out_features x
    in_features; [bias=False] leaves [lin_bias] empty. *)
Record Linear := {
  lin_weight : matrix;
  lin_bias : option vec
}.

Definition Linear_forward (self : Linear) (X : matrix) : matrix :=
  tabulate (nrows X) (nrows (lin_weight self))
    (fun i o =>
       let y := dot (nth o (lin_weight self) []) (nth i X []) in
       match lin_bias self with
       | Some b => y + nth o b 0
       | None => y
       end).

(** [nn.Conv1d] with [kernel_size=1] on a batch x channels x points
    tensor: the weight, out_channels x in_channels, is applied at every
    point. *)
Record Conv1d := {
  conv_weight : matrix;
  conv_bias : option vec
}.

Definition Conv1d_forward (self : Conv1d) (x : tensor3) : tensor3 :=
  map (fun xb =>
         tabulate (nrows (conv_weight self)) (ncols xb)
           (fun o n =>
              let y := rsum (ncols (conv_weight self))
                            (fun c => get (conv_weight self) o c * get xb c n) in
              match conv_bias self with
              | Some b => y + nth o b 0
              | None => y
              end)) x.

(** [nn.BatchNorm1d] with the default [eps=1e-5], [momentum=0.1],
    [affine=True], [track_running_stats=True]. *)
Record BatchNorm1d := {
  bn_weight : vec;
  bn_bias : vec;
  bn_running_mean : vec;
  bn_running_var : vec;
  bn_num_batches_tracked : nat
}.

Definition bn_eps : R := 1 / 100000.
Definition bn_momentum : R := 1 / 10.

Definition bn_affine (self : BatchNorm1d) (c : nat) (mean var a : R) : R :=
  (a - mean) / sqrt (var + bn_eps) * nth c (bn_weight self) 0
  + nth c (bn_bias self) 0.

(** The running statistics after one training step. *)
Definition bn_track (self : BatchNorm1d) (mean var_unbiased : nat -> R)
  : BatchNorm1d :=
  {| bn_weight := bn_weight self;
     bn_bias := bn_bias self;
     bn_running_mean :=
       map (fun c => (1 - bn_momentum) * nth c (bn_running_mean self) 0
                     + bn_momentum * mean c)
           (seq 0 (length (bn_running_mean self)));
     bn_running_var :=
       map (fun c => (1 - bn_momentum) * nth c (bn_running_var self) 0
                     + bn_momentum * var_unbiased c)
           (seq 0 (length (bn_running_var self)));
     bn_num_batches_tracked := S (bn_num_batches_tracked self) |}.

(** Sum over the batch and the points of [f] applied to channel [c]. *)
Definition channel_sum (x : tensor3) (c : nat) (f : R -> R) : R :=
  rsum (size0 x) (fun b => rsum (size2 x) (fun n => f (get (nth b x []) c n))).

(** On a batch x channels x points input.  In training mode the batch
    statistics are used and the running statistics updated, and torch
    raises when a channel holds a single value; in evaluation mode the
    running statistics are used and nothing is updated. *)
Definition BatchNorm1d_forward3 (training : bool) (self : BatchNorm1d)
    (x : tensor3) : option (tensor3 * BatchNorm1d) :=
  let count := (size0 x * size2 x)%nat in
  if training then
    if Nat.leb count 1 then None
    else
      let mean c := channel_sum x c (fun a => a) / INR count in
      let sqdev c := channel_sum x c (fun a => (a - mean c) ^ 2) in
      let var c := sqdev c / INR count in
      let var_unbiased c := sqdev c / INR (count - 1) in
      Some (map (fun xb =>
                   tabulate (size1 x) (size2 x)
                     (fun c n => bn_affine self c (mean c) (var c) (get xb c n))) x,
            bn_track self mean var_unbiased)
  else
    Some (map (fun xb =>
                 tabulate (size1 x) (size2 x)
                   (fun c n =>
                      bn_affine self c (nth c (bn_running_mean self) 0)
                                (nth c (bn_running_var self) 0) (get xb c n))) x,
          self).

(** On a batch x features input. *)
Definition BatchNorm1d_forward2 (training : bool) (self : BatchNorm1d)
    (X : matrix) : option (matrix * BatchNorm1d) :=
  let count := nrows X in
  if training then
    if Nat.leb count 1 then None
    else
      let mean c := colsum X c / INR count in
      let sqdev c := rsum count (fun b => (get X b c - mean c) ^ 2) in
      let var c := sqdev c / INR count in
      let var_unbiased c := sqdev c / INR (count - 1) in
      Some (tabulate (nrows X) (ncols X)
              (fun b c => bn_affine self c (mean c) (var c) (get X b c)),
            bn_track self mean var_unbiased)
  else
    Some (tabulate (nrows X) (ncols X)
            (fun b c =>
               bn_affine self c (nth c (bn_running_mean self) 0)
                         (nth c (bn_running_var self) 0) (get X b c)),
          self).

(** [F.gelu]: [x * Phi(x)], with [Phi] the standard normal distribution
    function, [Phi(x) = (1 + erf (x / sqrt 2)) / 2]. *)
Definition gauss (t : R) : R := exp (- (t * t)).

(** The Gaussian is Riemann integrable on every interval. *)
Definition gauss_integrable (a b : R) : Riemann_integrable gauss a b.
Proof.
  assert (Hc : continuity gauss) by (unfold gauss; reg).
  destruct (Rle_dec a b) as [H|H].
  - apply continuity_implies_RiemannInt; [exact H|]. intros t _. apply Hc.
  - apply RiemannInt_P1, continuity_implies_RiemannInt; [lra|].
    intros t _. apply Hc.
Qed.

Definition erf (z : R) : R := 2 / sqrt PI * RiemannInt (gauss_integrable 0 z).

Definition gelu (a : R) : R := a * (1 / 2) * (1 + erf (a / sqrt 2)).

Definition leaky_relu (negative_slope a : R) : R :=
  if Rle_dec 0 a then a else negative_slope * a.


(** [nn.Dropout(p)].  In training mode each entry is kept, and scaled by
    [1 / (1 - p)], or zeroed; [keep] is the mask the random generator
    draws.  In evaluation mode the layer is the identity. *)
Definition Dropout_forward (p : R) (training : bool) (keep : nat -> nat -> bool)
    (X : matrix) : matrix :=
  if training then
    tabulate (nrows X) (ncols X)
      (fun i j => if keep i j then get X i j / (1 - p) else 0)
  else X.

Definition list_max (v : vec) : R :=
  match v with
  | [] => 0
  | a :: v' => fold_left Rmax v' a
  end.

Definition list_mean (v : vec) : R :=
  rsum (length v) (fun i => nth i v 0) / INR (length v).

(** [F.adaptive_max_pool1d(x, 1).view(batch_size, -1)] and its average
    counterpart. *)
Definition adaptive_max_pool1d (x : tensor3) : matrix := map (map list_max) x.
Definition adaptive_avg_pool1d (x : tensor3) : matrix := map (map list_mean) x.

(** [torch.cat(..., dim=1)] *)
Definition cat1 {A : Type} (x y : list (list A)) : list (list A) :=
  zip_with (@app A) x y.

Definition clone {A : Type} (x : A) : A := x.

End nn.
Import nn.

(** ** [knn] *)

Definition index_tensor := list (list (list nat)).

Section Indexing.

(** [torch.topk(k, dim=-1)[1]] on one row: the indices of the [k] largest
    values; torch raises when [k] exceeds the row length. *)
Variable topk : nat -> list R -> option (list nat).

Definition knn (x : tensor3) (k : nat) : option index_tensor :=
  let inner := scale3 (-2) (bmm (transpose21 x) x) in
  let xx := sum_dim1_keepdim (pow3 x 2) in
  let pairwise_distance := sub3 (sub3 (neg3 xx) inner) (transpose21 xx) in
  let idx := mapM (mapM (topk k)) pairwise_distance in
  idx.

(** ** [PaiIndexMatrix] *)

(** [TemperatureNet]: a 1x1 convolution, a batch normalisation, a leaky
    ReLU and a linear layer. *)
Record TemperatureNet := {
  tn_temp_factor : R;
  tn_nn_conv : Conv1d;
  tn_nn_bn : BatchNorm1d;
  tn_linear : Linear
}.


Record PaiIndexMatrix := {
  pim_k : nat;
  pim_temp_factor : R;
  pim_kernel_size : nat;
  pim_kernels : matrix;
  pim_one_padding : matrix;
  pim_temp_net : TemperatureNet
}.

(** [PaiIndexMatrix.__init__]; [temp_net] is the freshly initialised
    [TemperatureNet(args)]. *)
Definition PaiIndexMatrix_init (k : nat) (temp_factor : R) (kernel_size : nat)
    (temp_net : TemperatureNet) : option PaiIndexMatrix :=
  points <- fibonacci_sphere 0 kernel_size false ;;
  let kernels := transpose points in
  one_padding <- set00 (zeros k kernel_size) 1 ;;
  Some {| pim_k := k; pim_temp_factor := temp_factor;
          pim_kernel_size := kernel_size; pim_kernels := kernels;
          pim_one_padding := one_padding; pim_temp_net := temp_net |}.

(** [spirals_index + idx_base], with
    [idx_base = arange(0, bsize).view(-1, 1, 1) * num_pts]. *)
Definition add_idx_base (num_pts : nat) (spirals_index : index_tensor)
  : index_tensor :=
  zip_with (fun base rows => map (map (fun i => (i + base)%nat)) rows)
           (map (fun b => (b * num_pts)%nat) (seq 0 (length spirals_index)))
           spirals_index.

(** [t.view(-1)] *)
Definition flatten3 {A : Type} (t : list (list (list A))) : list A :=
  concat (map (@concat A) t).

(** [spirals[spirals_index, :]]; an out-of-range index raises. *)
Definition index_rows (spirals : matrix) (spirals_index : list nat)
  : option (list vec) :=
  mapM (nth_error spirals) spirals_index.

Definition PaiIndexMatrix_forward (self : PaiIndexMatrix) (x : tensor3)
  : option (list nat * tensor3) :=
  let bsize := size0 x in
  let feats := size1 x in
  let num_pts := size2 x in
  spirals_index <- knn x (pim_k self) ;;
  let spirals_index := flatten3 (add_idx_base num_pts spirals_index) in
  let spirals := concat (transpose21 x) in
  spirals <- index_rows spirals spirals_index ;;
  let spirals := view_blocks (bsize * num_pts) (pim_k self) spirals in
  let x_relative := map (fun S => broadcast Rminus S (firstn 1 S)) spirals in
  let permatrix := map (fun xr => matmul xr (pim_kernels self)) x_relative in
  let permatrix := map (fun P => broadcast Rplus P (pim_one_padding self)) permatrix in
  let permatrix := map (where_gt 0) permatrix in
  let permatrix := topkmax permatrix in
  Some (spirals_index, permatrix).

End Indexing.

(** ** The contract of [torch.topk] and one routine that meets it *)

Definition is_topk (k : nat) (v : list R) (idx : list nat) : Prop :=
  length idx = k /\
  NoDup idx /\
  Forall (fun i => (i < length v)%nat) idx /\
  (forall a b, (a < b < k)%nat ->
     nth (nth b idx 0%nat) v 0 <= nth (nth a idx 0%nat) v 0) /\
  (forall j m, (j < length v)%nat -> ~ In j idx -> In m idx ->
     nth j v 0 <= nth m v 0).

Record topk_contract (topk : nat -> list R -> option (list nat)) : Prop := {
  topk_returns : forall k v, (k <= length v)%nat ->
    exists idx, topk k v = Some idx /\ is_topk k v idx;
  topk_raises : forall k v, (length v < k)%nat -> topk k v = None
}.

(** Selection by a stable descending insertion sort of the indices. *)
Fixpoint insert_desc (v : list R) (i : nat) (l : list nat) : list nat :=
  match l with
  | [] => [i]
  | j :: l' =>
      if Rlt_dec (nth i v 0) (nth j v 0) then j :: insert_desc v i l'
      else i :: l
  end.

Definition sort_desc (v : list R) : list nat :=
  fold_right (insert_desc v) [] (seq 0 (length v)).

Definition topk_sorted (k : nat) (v : list R) : option (list nat) :=
  if Nat.leb k (length v) then Some (firstn k (sort_desc v)) else None.

(** Squared Euclidean distance between points [i] and [j] of one cloud
    (coordinates in rows, points in columns). *)
Definition sqdist (xb : matrix) (i j : nat) : R :=
  rsum (nrows xb) (fun d => (get xb d i - get xb d j) ^ 2).

(** [nb] lists the [k] nearest neighbours of point [i] among the
    [num_pts] points of [xb], nearest first. *)
Definition k_nearest (xb : matrix) (num_pts i k : nat) (nb : list nat) : Prop :=
  length nb = k /\
  NoDup nb /\
  Forall (fun j => (j < num_pts)%nat) nb /\
  (forall a b, (a < b < k)%nat ->
     sqdist xb i (nth a nb 0%nat) <= sqdist xb i (nth b nb 0%nat)) /\
  (forall j m, (j < num_pts)%nat -> ~ In j nb -> In m nb ->
     sqdist xb i m <= sqdist xb i j).

(** A batch of [bsize] clouds of [feats] coordinate rows and [num_pts]
    points each. *)
Definition shape3 (x : tensor3) (bsize feats num_pts : nat) : Prop :=
  length x = bsize /\ Forall (fun xb => shape xb feats num_pts) x.

(** ** [PaiConv] *)

Record PaiConv := {
  pc_k : nat;
  pc_kernel_size : nat;
  pc_in_c : nat;
  pc_out_c : nat;
  pc_conv : Linear;
  pc_bn : BatchNorm1d
}.

Definition PaiConv_with_bn (self : PaiConv) (bn : BatchNorm1d) : PaiConv :=
  {| pc_k := pc_k self; pc_kernel_size := pc_kernel_size self;
     pc_in_c := pc_in_c self; pc_out_c := pc_out_c self;
     pc_conv := pc_conv self; pc_bn := bn |}.

(** The second component is the layer after the call: its batch
    normalisation may have tracked new statistics. *)
Definition PaiConv_forward (training : bool) (self : PaiConv)
    (feature : tensor3) (spirals_index : list nat) (permatrix : tensor3)
  : option (tensor3 * PaiConv) :=
  let bsize := size0 feature in
  let feats := size1 feature in
  let num_pts := size2 feature in
  let feature := concat (transpose21 feature) in
  spirals <- index_rows feature spirals_index ;;
  let spirals := view_blocks (bsize * num_pts) (pc_k self) spirals in
  let spirals := transpose21 spirals in
  let spirals := bmm spirals permatrix in
  let spirals := map (@concat R) spirals in
  let out_feat :=
    view_blocks bsize num_pts (Linear_forward (pc_conv self) spirals) in
  '(out_feat, bn) <-
     BatchNorm1d_forward3 training (pc_bn self) (transpose21 out_feat) ;;
  Some (out_feat, PaiConv_with_bn self bn).

(** ** [PaiNet] *)

Record Args := {
  args_k : nat;
  args_emb_dims : nat;
  args_dropout : R;
  args_temp_factor : R
}.

Record PaiNet := {
  net_args : Args;
  net_k : nat;
  paiIdxMatrix : PaiIndexMatrix;
  bn5 : BatchNorm1d;
  conv1 : PaiConv;
  conv2 : PaiConv;
  conv3 : PaiConv;
  conv4 : PaiConv;
  conv5 : Conv1d;
  linear1 : Linear;
  bn6 : BatchNorm1d;
  dp1 : R;
  linear2 : Linear;
  bn7 : BatchNorm1d;
  dp2 : R;
  linear3 : Linear
}.

(** The calls a network makes to its indexing submodule and to its
    aggregation layers, with the arguments of each call. *)
Inductive call : Type :=
| Call_paiIdxMatrix (x : tensor3)
| Call_conv (layer : nat) (feature : tensor3) (spirals_index : list nat)
            (permatrix : tensor3).

(** A run records its calls and may raise. *)
Definition run (A : Type) : Type := list call -> option (A * list call).

Definition ret {A : Type} (a : A) : run A := fun log => Some (a, log).

Definition rbind {A B : Type} (m : run A) (f : A -> run B) : run B :=
  fun log =>
    match m log with
    | Some (a, log') => f a log'
    | None => None
    end.

Definition lift {A : Type} (o : option A) : run A :=
  fun log =>
    match o with
    | Some a => Some (a, log)
    | None => None
    end.

Definition record (c : call) : run unit := fun log => Some (tt, log ++ [c]).

Notation "x <~ m ;; k" := (rbind m (fun x => k))
  (at level 61, m at next level, right associativity).
Notation "' p <~ m ;; k" := (rbind m (fun p => k))
  (at level 61, p pattern, m at next level, right associativity).

Section PaiNetForward.

Variable topk : nat -> list R -> option (list nat).

(** [self.paiIdxMatrix(x)] *)
Definition call_paiIdxMatrix (m : PaiIndexMatrix) (x : tensor3)
  : run (list nat * tensor3) :=
  _ <~ record (Call_paiIdxMatrix x) ;;
  lift (PaiIndexMatrix_forward topk m x).

(** [self.conv<layer>(feature, spirals_index, permatrix)] *)
Definition call_conv (layer : nat) (training : bool) (m : PaiConv)
    (feature : tensor3) (spirals_index : list nat) (permatrix : tensor3)
  : run (tensor3 * PaiConv) :=
  _ <~ record (Call_conv layer feature spirals_index permatrix) ;;
  lift (PaiConv_forward training m feature spirals_index permatrix).

Definition gelu3 (x : tensor3) : tensor3 := map (map_entries gelu) x.

(** [keep1] and [keep2] are the masks drawn for [dp1] and [dp2].  The
    result is the logits and the network after the call. *)
Definition PaiNet_forward (training : bool) (keep1 keep2 : nat -> nat -> bool)
    (self : PaiNet) (x : tensor3) : run (list (list R) * PaiNet) :=
  let batch_size := size0 x in
  '(spirals_index, permatrix) <~ call_paiIdxMatrix (paiIdxMatrix self) x ;;

  '(feature, c1) <~ call_conv 1 training (conv1 self) x spirals_index permatrix ;;
  let feature := gelu3 feature in
  let x1 := clone feature in

  '(feature, c2) <~ call_conv 2 training (conv2 self) feature spirals_index permatrix ;;
  let feature := gelu3 feature in
  let x2 := clone feature in

  '(feature, c3) <~ call_conv 3 training (conv3 self) feature spirals_index permatrix ;;
  let feature := gelu3 feature in
  let x3 := clone feature in

  '(feature, c4) <~ call_conv 4 training (conv4 self) feature spirals_index permatrix ;;
  let feature := gelu3 feature in
  let x4 := clone feature in

  let x := cat1 x1 (cat1 x2 (cat1 x3 x4)) in
  '(x, b5) <~ lift (BatchNorm1d_forward3 training (bn5 self)
                      (Conv1d_forward (conv5 self) x)) ;;
  let x := gelu3 x in
  let x1 := adaptive_max_pool1d x in
  let x2 := adaptive_avg_pool1d x in
  let x := cat1 x1 x2 in

  '(x, b6) <~ lift (BatchNorm1d_forward2 training (bn6 self)
                      (Linear_forward (linear1 self) x)) ;;
  let x := map_entries gelu x in
  let x := Dropout_forward (dp1 self) training keep1 x in
  '(x, b7) <~ lift (BatchNorm1d_forward2 training (bn7 self)
                      (Linear_forward (linear2 self) x)) ;;
  let x := map_entries gelu x in
  let x := Dropout_forward (dp2 self) training keep2 x in
  let x := Linear_forward (linear3 self) x in
  ret (x, {| net_args := net_args self; net_k := net_k self;
             paiIdxMatrix := paiIdxMatrix self;
             bn5 := b5; conv1 := c1; conv2 := c2; conv3 := c3; conv4 := c4;
             conv5 := conv5 self; linear1 := linear1 self; bn6 := b6;
             dp1 := dp1 self; linear2 := linear2 self; bn7 := b7;
             dp2 := dp2 self; linear3 := linear3 self |}).

(** Two calls in a row: the second runs on the network the first left
    behind, with fresh dropout masks. *)
Definition two_runs (training : bool)
    (keep1 keep2 keep1' keep2' : nat -> nat -> bool)
    (self : PaiNet) (x : tensor3) : option (list (list R) * list (list R)) :=
  '(logits, self', _) <- PaiNet_forward training keep1 keep2 self x [] ;;
  '(logits', _, _) <- PaiNet_forward training keep1' keep2' self' x [] ;;
  Some (logits, logits').

End PaiNetForward.

(** ** Notions the properties are stated with *)

(** The point the loop body of [fibonacci_sphere] appends at iteration
    [i]. *)
Definition sphere_point (rnd : R) (samples i : nat) : list R :=
  let offset := 2 / INR samples in
  let increment := PI * (3 - sqrt 5) in
  let y := ((INR i * offset) - 1) + (offset / 2) in
  let r := sqrt (1 - y ^ 2) in
  let phi := float_mod (INR i + rnd) (INR samples) * increment in
  [cos phi * r; y; sin phi * r].

(** [a] comes before [b] in a descending order of the values [v]. *)
Definition desc (v : list R) (a b : nat) : Prop := nth b v 0 <= nth a v 0.

(** What [PaiIndexMatrix.forward] computes from one point's block of
    gathered neighbour coordinates: the clipped affinities, and the
    assignment matrix. *)
Definition affinity (self : PaiIndexMatrix) (S : matrix) : matrix :=
  where_gt 0
    (broadcast Rplus
       (matmul (broadcast Rminus S (firstn 1 S)) (pim_kernels self))
       (pim_one_padding self)).

Definition assign (self : PaiIndexMatrix) (S : matrix) : matrix :=
  topkmax1 (affinity self S).

Definition nonneg (P : matrix) : Prop := forall i j, 0 <= get P i j.

Definition inner1 (xb : matrix) : matrix :=
  map_entries (Rmult (-2)) (matmul (transpose xb) xb).

Definition xx1 (xb : matrix) : matrix :=
  sum_rows_keepdim (map_entries (fun a => a ^ 2) xb).

Definition pairwise_distance1 (xb : matrix) : matrix :=
  broadcast Rminus (broadcast Rminus (map_entries Ropp (xx1 xb)) (inner1 xb))
            (transpose (xx1 xb)).

(** The neighbour lists of a [bsize] x [num_pts] x [k] index tensor. *)
Definition index_shape (idx : index_tensor) (bsize num_pts k : nat) : Prop :=
  length idx = bsize /\
  Forall (fun rows => length rows = num_pts /\
                      Forall (fun nb => length nb = k) rows) idx.


(** Two coincident points, the cloud on which the self-neighbour claim
    fails. *)
Definition coincident : tensor3 := [[[0; 0]; [0; 0]; [0; 0]]].


(** The matrix [topkmax] holds just before its threshold. *)
Definition prethreshold (P : matrix) : matrix :=
  normalize (square (normalize P)).


(** One point at the origin, and a [TemperatureNet] with all weights 0
    and a fresh batch normalisation. *)
Definition origin_cloud : tensor3 := [[[0]; [0]; [0]]].

Definition blank_temp_net (temp_factor : R) : TemperatureNet :=
  {| tn_temp_factor := temp_factor;
     tn_nn_conv := {| conv_weight := zeros 64 3; conv_bias := Some (repeat 0 64) |};
     tn_nn_bn := {| bn_weight := repeat 1 64; bn_bias := repeat 0 64;
                    bn_running_mean := repeat 0 64; bn_running_var := repeat 1 64;
                    bn_num_batches_tracked := 0 |};
     tn_linear := {| lin_weight := zeros 1 64; lin_bias := Some [0] |} |}.

(** Two points, (0,0,0) and (0,1,0). *)
Definition two_points : tensor3 := [[[0; 0]; [0; 1]; [0; 0]]].




(** The network with another temperature factor and another
    [TemperatureNet]: the three places [__init__] stores them in. *)
Definition PaiIndexMatrix_with_temperature (m : PaiIndexMatrix)
    (temp_factor : R) (temp_net : TemperatureNet) : PaiIndexMatrix :=
  {| pim_k := pim_k m; pim_temp_factor := temp_factor;
     pim_kernel_size := pim_kernel_size m; pim_kernels := pim_kernels m;
     pim_one_padding := pim_one_padding m; pim_temp_net := temp_net |}.

Definition PaiNet_with_temperature (self : PaiNet)
    (temp_factor : R) (temp_net : TemperatureNet) : PaiNet :=
  {| net_args := {| args_k := args_k (net_args self);
                    args_emb_dims := args_emb_dims (net_args self);
                    args_dropout := args_dropout (net_args self);
                    args_temp_factor := temp_factor |};
     net_k := net_k self;
     paiIdxMatrix :=
       PaiIndexMatrix_with_temperature (paiIdxMatrix self) temp_factor temp_net;
     bn5 := bn5 self; conv1 := conv1 self; conv2 := conv2 self;
     conv3 := conv3 self; conv4 := conv4 self; conv5 := conv5 self;
     linear1 := linear1 self; bn6 := bn6 self; dp1 := dp1 self;
     linear2 := linear2 self; bn7 := bn7 self; dp2 := dp2 self;
     linear3 := linear3 self |}.

(** What a call needs of the network: every aggregation layer and the
    final projection have at least one output channel. *)
Definition PaiNet_ok (self : PaiNet) : Prop :=
  (1 <= nrows (lin_weight (pc_conv (conv1 self))))%nat /\
  (1 <= nrows (lin_weight (pc_conv (conv2 self))))%nat /\
  (1 <= nrows (lin_weight (pc_conv (conv3 self))))%nat /\
  (1 <= nrows (lin_weight (pc_conv (conv4 self))))%nat /\
  (1 <= nrows (conv_weight (conv5 self)))%nat.

(** A call leaves the learned parameters alone; it only tracks batch
    statistics. *)
Definition same_weights (self self' : PaiNet) : Prop :=
  paiIdxMatrix self' = paiIdxMatrix self /\
  pc_conv (conv1 self') = pc_conv (conv1 self) /\
  pc_conv (conv2 self') = pc_conv (conv2 self) /\
  pc_conv (conv3 self') = pc_conv (conv3 self) /\
  pc_conv (conv4 self') = pc_conv (conv4 self) /\
  conv5 self' = conv5 self /\
  linear2 self' = linear2 self /\
  linear3 self' = linear3 self /\
  dp2 self' = dp2 self /\
  bn_weight (bn7 self') = bn_weight (bn7 self) /\
  bn_bias (bn7 self') = bn_bias (bn7 self).

Definition fresh_bn (C : nat) : BatchNorm1d :=
  {| bn_weight := repeat 1 C; bn_bias := repeat 0 C;
     bn_running_mean := repeat 0 C; bn_running_var := repeat 1 C;
     bn_num_batches_tracked := 0 |}.

Definition zero_conv (in_c out_c k kernel_size : nat) : PaiConv :=
  {| pc_k := k; pc_kernel_size := kernel_size;
     pc_in_c := in_c; pc_out_c := out_c;
     pc_conv := {| lin_weight := zeros out_c (in_c * kernel_size);
                   lin_bias := Some (repeat 0 out_c) |};
     pc_bn := fresh_bn out_c |}.

(** The layer sizes of [PaiNet.__init__] with [k = 1], [emb_dims = 1024],
    [dropout = 0.5] and 40 classes.  All weights are 0, except that
    [linear3] has all weights 1, and [bn7] has weight 0 and bias 1. *)
Definition sample_net (m : PaiIndexMatrix) : PaiNet :=
  {| net_args := {| args_k := 1; args_emb_dims := 1024;
                    args_dropout := 1 / 2; args_temp_factor := 1 |};
     net_k := 1;
     paiIdxMatrix := m;
     bn5 := fresh_bn 1024;
     conv1 := zero_conv 3 64 1 16;
     conv2 := zero_conv 64 64 1 16;
     conv3 := zero_conv 64 128 1 16;
     conv4 := zero_conv 128 256 1 16;
     conv5 := {| conv_weight := zeros 1024 512; conv_bias := None |};
     linear1 := {| lin_weight := zeros 512 2048; lin_bias := None |};
     bn6 := fresh_bn 512;
     dp1 := 1 / 2;
     linear2 := {| lin_weight := zeros 256 512; lin_bias := Some (repeat 0 256) |};
     bn7 := {| bn_weight := repeat 0 256; bn_bias := repeat 1 256;
               bn_running_mean := repeat 0 256; bn_running_var := repeat 1 256;
               bn_num_batches_tracked := 0 |};
     dp2 := 1 / 2;
     linear3 := {| lin_weight := tabulate 40 256 (fun _ _ => 1);
                   lin_bias := Some (repeat 0 40) |} |}.

(** Two clouds of one point each. *)
Definition sample_input : tensor3 := [[[0]; [0]; [0]]; [[1]; [0]; [0]]].

Definition keep_all (i j : nat) : bool := true.
Definition drop_all (i j : nat) : bool := false.

(** The number of non-zero entries of column [j]. *)
Definition nonzero (a : R) : bool := if Req_dec_T a 0 then false else true.

Definition count_nonzero_col (M : matrix) (j : nat) : nat :=
  length (filter (fun i => nonzero (get M i j)) (seq 0 (nrows M))).

(** The coordinates of point [m] of one cloud, and the neighbourhood
    blocks an index tensor selects: row [a] of the block of point [i] of
    cloud [b] is the point [idx[b][i][a]] of that cloud. *)
Definition point (xb : matrix) (m : nat) : vec := nth m (transpose xb) [].

Definition neighbourhoods (x : tensor3) (idx : index_tensor) : list matrix :=
  concat (zip_with (fun xb rows => map (map (point xb)) rows) x idx).

(** An index-matrix module whose kernel points all sit at the origin. *)
Definition sample_index (k kernel_size : nat) : PaiIndexMatrix :=
  {| pim_k := k; pim_temp_factor := 1; pim_kernel_size := kernel_size;
     pim_kernels := zeros 3 kernel_size;
     pim_one_padding :=
       tabulate k kernel_size
         (fun i j => if (Nat.eqb i 0 && Nat.eqb j 0)%bool then 1 else 0);
     pim_temp_net := blank_temp_net 1 |}.

(** Every point of every cloud moved by the vector [t]. *)
Definition translate1 (t : vec) (xb : matrix) : matrix :=
  zip_with (fun c row => map (Rplus c) row) t xb.

Definition translate (t : vec) (x : tensor3) : tensor3 := map (translate1 t) x.

(** The layer sizes [PaiNet.__init__] sets up, for [output_channels]
    classes. *)
Definition Linear_sized (l : Linear) (in_features out_features : nat) : Prop :=
  shape (lin_weight l) out_features in_features /\
  match lin_bias l with
  | Some b => length b = out_features
  | None => True
  end.

Definition BatchNorm1d_sized (bn : BatchNorm1d) (num_features : nat) : Prop :=
  length (bn_weight bn) = num_features /\
  length (bn_bias bn) = num_features /\
  length (bn_running_mean bn) = num_features /\
  length (bn_running_var bn) = num_features.

Definition PaiConv_sized (c : PaiConv) (in_c out_c k kernel_size : nat) : Prop :=
  pc_k c = k /\ pc_kernel_size c = kernel_size /\
  pc_in_c c = in_c /\ pc_out_c c = out_c /\
  Linear_sized (pc_conv c) (in_c * kernel_size) out_c /\
  BatchNorm1d_sized (pc_bn c) out_c.

Definition PaiIndexMatrix_sized (m : PaiIndexMatrix) (k kernel_size : nat) : Prop :=
  pim_k m = k /\ pim_kernel_size m = kernel_size /\
  shape (pim_kernels m) 3 kernel_size /\
  shape (pim_one_padding m) k kernel_size.

Definition PaiNet_sized (self : PaiNet) (output_channels : nat) : Prop :=
  let k := args_k (net_args self) in
  let emb_dims := args_emb_dims (net_args self) in
  let num_kernel := 16%nat in
  net_k self = k /\
  PaiIndexMatrix_sized (paiIdxMatrix self) k num_kernel /\
  BatchNorm1d_sized (bn5 self) emb_dims /\
  PaiConv_sized (conv1 self) 3 64 k num_kernel /\
  PaiConv_sized (conv2 self) 64 64 k num_kernel /\
  PaiConv_sized (conv3 self) 64 128 k num_kernel /\
  PaiConv_sized (conv4 self) 128 256 k num_kernel /\
  shape (conv_weight (conv5 self)) emb_dims 512 /\
  conv_bias (conv5 self) = None /\
  Linear_sized (linear1 self) (emb_dims * 2) 512 /\
  BatchNorm1d_sized (bn6 self) 512 /\
  dp1 self = args_dropout (net_args self) /\
  Linear_sized (linear2 self) 512 256 /\
  BatchNorm1d_sized (bn7 self) 256 /\
  dp2 self = args_dropout (net_args self) /\
  Linear_sized (linear3 self) 256 output_channels.

(** ** [mish] *)



(** ** [Transform_Net.compute_rotation_matrix_from_ortho6d] *)

Definition norm2 (v : vec) : R :=
  sqrt (rsum (length v) (fun i => nth i v 0 ^ 2)).

(** [F.normalize(X, p=2, dim=1)] with its default [eps=1e-12]: every row
    is divided by the larger of its Euclidean norm and [eps]. *)
Definition normalize1 (row : vec) : vec :=
  map (fun a => a / Rmax (norm2 row) (1 / 10 ^ 12)) row.

Definition F_normalize (X : matrix) : matrix := map normalize1 X.

Definition cross3 (a b : vec) : vec :=
  [nth 1 a 0 * nth 2 b 0 - nth 2 a 0 * nth 1 b 0;
   nth 2 a 0 * nth 0 b 0 - nth 0 a 0 * nth 2 b 0;
   nth 0 a 0 * nth 1 b 0 - nth 1 a 0 * nth 0 b 0].

(** [torch.cross(A, B)] without [dim], on two batch x 3 matrices: the
    product runs along the first dimension of size 3, and that is the
    batch dimension when the batch holds three rows. *)
Definition torch_cross (A B : matrix) : matrix :=
  if Nat.eqb (nrows A) 3
  then transpose (zip_with cross3 (transpose A) (transpose B))
  else zip_with cross3 A B.

(** [torch.stack((x, y, z), dim=2)] of three batch x 3 matrices. *)
Definition stack2 (x y z : matrix) : tensor3 :=
  map (fun b => tabulate 3 3 (fun i j => get (nth j [x; y; z] []) b i))
      (seq 0 (nrows x)).

Definition compute_rotation_matrix_from_ortho6d (poses : matrix) : tensor3 :=
  let x_raw := map (firstn 3) poses in
  let y_raw := map (fun p => firstn 3 (skipn 3 p)) poses in
  let x := F_normalize x_raw in
  let z := F_normalize (torch_cross x y_raw) in
  let y := torch_cross z x in
  let matrix := stack2 x y z in
  matrix.

(** Neither the first three coordinates of a pose nor the cross product
    the function takes fall below [eps] in norm. *)
Definition nondegenerate (p : vec) : Prop :=
  let x := normalize1 (firstn 3 p) in
  1 / 10 ^ 12 <= norm2 (firstn 3 p) /\
  1 / 10 ^ 12 <= norm2 (cross3 x (firstn 3 (skipn 3 p))).

(** What the function makes of one pose when it takes the cross products
    pose by pose. *)
Definition rotation_of_pose (p : vec) : matrix :=
  let x := normalize1 (firstn 3 p) in
  let z := normalize1 (cross3 x (firstn 3 (skipn 3 p))) in
  let y := cross3 z x in
  tabulate 3 3 (fun i j => nth i (nth j [x; y; z] []) 0).

Definition identity3 : matrix := [[1; 0; 0]; [0; 1; 0]; [0; 0; 1]].

Definition det3 (M : matrix) : R :=
  get M 0 0 * (get M 1 1 * get M 2 2 - get M 1 2 * get M 2 1)
  - get M 0 1 * (get M 1 0 * get M 2 2 - get M 1 2 * get M 2 0)
  + get M 0 2 * (get M 1 0 * get M 2 1 - get M 1 1 * get M 2 0).

(** ** [PointNet] *)

Record PointNet := {
  pn_conv1 : Conv1d;
  pn_conv2 : Conv1d;
  pn_conv3 : Conv1d;
  pn_conv4 : Conv1d;
  pn_conv5 : Conv1d;
  pn_bn1 : BatchNorm1d;
  pn_bn2 : BatchNorm1d;
  pn_bn3 : BatchNorm1d;
  pn_bn4 : BatchNorm1d;
  pn_bn5 : BatchNorm1d;
  pn_linear1 : Linear;
  pn_bn6 : BatchNorm1d;
  pn_dp1 : R;
  pn_linear2 : Linear;
  pn_bn7 : BatchNorm1d;
  pn_dp2 : R;
  pn_linear3 : Linear
}.

Definition relu (a : R) : R := Rmax 0 a.

Definition relu3 (x : tensor3) : tensor3 := map (map_entries relu) x.

(** What [.squeeze()] leaves of a pooled batch x channels x 1 tensor,
    given by its batch x channels matrix: every dimension of size 1 is
    dropped. *)
Inductive squeezed : Type :=
| Rank0 (a : R)
| Rank1 (v : vec)
| Rank2 (M : matrix).

Definition squeeze (M : matrix) : squeezed :=
  if Nat.eqb (nrows M) 1 then
    if Nat.eqb (ncols M) 1 then Rank0 (get M 0 0) else Rank1 (nth 0 M [])
  else
    if Nat.eqb (ncols M) 1 then Rank1 (map (fun row => nth 0 row 0) M)
    else Rank2 M.

(** [torch.cat((x1, x2), 1)]: a tensor of fewer than two dimensions has
    no dimension 1, and torch raises. *)
Definition cat_dim1 (x1 x2 : squeezed) : option matrix :=
  match x1, x2 with
  | Rank2 A, Rank2 B => Some (cat1 A B)
  | _, _ => None
  end.

Definition PointNet_forward (training : bool) (keep1 keep2 : nat -> nat -> bool)
    (self : PointNet) (x : tensor3) : option (matrix * PointNet) :=
  '(x, b1) <- BatchNorm1d_forward3 training (pn_bn1 self)
                (Conv1d_forward (pn_conv1 self) x) ;;
  let x := relu3 x in
  '(x, b2) <- BatchNorm1d_forward3 training (pn_bn2 self)
                (Conv1d_forward (pn_conv2 self) x) ;;
  let x := relu3 x in
  '(x, b3) <- BatchNorm1d_forward3 training (pn_bn3 self)
                (Conv1d_forward (pn_conv3 self) x) ;;
  let x := relu3 x in
  '(x, b4) <- BatchNorm1d_forward3 training (pn_bn4 self)
                (Conv1d_forward (pn_conv4 self) x) ;;
  let x := relu3 x in
  '(x, b5) <- BatchNorm1d_forward3 training (pn_bn5 self)
                (Conv1d_forward (pn_conv5 self) x) ;;
  let x := relu3 x in
  let x1 := squeeze (adaptive_max_pool1d x) in
  let x2 := squeeze (adaptive_avg_pool1d x) in
  x <- cat_dim1 x1 x2 ;;

  '(x, b6) <- BatchNorm1d_forward2 training (pn_bn6 self)
                (Linear_forward (pn_linear1 self) x) ;;
  let x := map_entries (leaky_relu (2 / 10)) x in
  let x := Dropout_forward (pn_dp1 self) training keep1 x in
  '(x, b7) <- BatchNorm1d_forward2 training (pn_bn7 self)
                (Linear_forward (pn_linear2 self) x) ;;
  let x := map_entries (leaky_relu (2 / 10)) x in
  let x := Dropout_forward (pn_dp2 self) training keep2 x in
  let x := Linear_forward (pn_linear3 self) x in
  Some (x, {| pn_conv1 := pn_conv1 self; pn_conv2 := pn_conv2 self;
              pn_conv3 := pn_conv3 self; pn_conv4 := pn_conv4 self;
              pn_conv5 := pn_conv5 self;
              pn_bn1 := b1; pn_bn2 := b2; pn_bn3 := b3; pn_bn4 := b4;
              pn_bn5 := b5;
              pn_linear1 := pn_linear1 self; pn_bn6 := b6;
              pn_dp1 := pn_dp1 self;
              pn_linear2 := pn_linear2 self; pn_bn7 := b7;
              pn_dp2 := pn_dp2 self;
              pn_linear3 := pn_linear3 self |}).

(** The layer sizes [PointNet.__init__] sets up. *)
Definition Conv1d_sized (c : Conv1d) (in_c out_c : nat) (bias : bool) : Prop :=
  shape (conv_weight c) out_c in_c /\
  match conv_bias c with
  | Some b => bias = true /\ length b = out_c
  | None => bias = false
  end.

Definition PointNet_sized (self : PointNet) (emb_dims output_channels : nat)
  : Prop :=
  Conv1d_sized (pn_conv1 self) 3 64 false /\
  Conv1d_sized (pn_conv2 self) 64 64 false /\
  Conv1d_sized (pn_conv3 self) 64 64 false /\
  Conv1d_sized (pn_conv4 self) 64 128 false /\
  Conv1d_sized (pn_conv5 self) 128 emb_dims false /\
  BatchNorm1d_sized (pn_bn1 self) 64 /\
  BatchNorm1d_sized (pn_bn2 self) 64 /\
  BatchNorm1d_sized (pn_bn3 self) 64 /\
  BatchNorm1d_sized (pn_bn4 self) 128 /\
  BatchNorm1d_sized (pn_bn5 self) emb_dims /\
  Linear_sized (pn_linear1 self) (emb_dims * 2) 512 /\
  lin_bias (pn_linear1 self) = None /\
  BatchNorm1d_sized (pn_bn6 self) 512 /\
  Linear_sized (pn_linear2 self) 512 256 /\
  BatchNorm1d_sized (pn_bn7 self) 256 /\
  Linear_sized (pn_linear3 self) 256 output_channels.

Definition sample_pointnet : PointNet :=
  let conv in_c out_c :=
    {| conv_weight := zeros out_c in_c; conv_bias := None |} in
  {| pn_conv1 := conv 3%nat 64%nat; pn_conv2 := conv 64%nat 64%nat;
     pn_conv3 := conv 64%nat 64%nat; pn_conv4 := conv 64%nat 128%nat;
     pn_conv5 := conv 128%nat 1024%nat;
     pn_bn1 := fresh_bn 64; pn_bn2 := fresh_bn 64; pn_bn3 := fresh_bn 64;
     pn_bn4 := fresh_bn 128; pn_bn5 := fresh_bn 1024;
     pn_linear1 := {| lin_weight := zeros 512 2048; lin_bias := None |};
     pn_bn6 := fresh_bn 512;
     pn_dp1 := 1 / 2;
     pn_linear2 := {| lin_weight := zeros 256 512;
                      lin_bias := Some (repeat 0 256) |};
     pn_bn7 := fresh_bn 256;
     pn_dp2 := 1 / 2;
     pn_linear3 := {| lin_weight := zeros 40 256;
                      lin_bias := Some (repeat 0 40) |} |}.

(** ** [get_graph_feature] *)

(** [x] is batch x dims x points, the result batch x (2 dims) x points x
    k.  [feature.view(batch_size, num_points, k, num_dims)] raises when
    the rows gathered are not [batch_size * num_points * k] many. *)
Definition get_graph_feature (topk : nat -> list R -> option (list nat))
    (x : tensor3) (k : nat) (idx : option index_tensor)
  : option (list tensor3) :=
  let batch_size := size0 x in
  let num_points := size2 x in
  idx <- match idx with
         | None => knn topk x k
         | Some idx => Some idx
         end ;;
  let idx := flatten3 (add_idx_base num_points idx) in
  let num_dims := size1 x in
  let x := transpose21 x in
  feature <- index_rows (concat x) idx ;;
  if negb (Nat.eqb (length feature * num_dims)
                   (batch_size * num_points * k * num_dims))
  then None else
  let feature :=
    view_blocks batch_size num_points
      (view_blocks (batch_size * num_points) k feature) in
  let x := map (map (fun pt => repeat pt k)) x in
  let feature :=
    zip_with (zip_with (zip_with (fun f pt => zip_with Rminus f pt ++ pt)))
             feature x in
  let feature :=
    map (fun fb =>
           map (fun d =>
                  tabulate num_points k
                    (fun n j => nth d (nth j (nth n fb []) []) 0))
               (seq 0 (2 * num_dims)))
        feature in
  Some feature.

(** ** One cloud at a time *)

(** What the layers do, in evaluation mode, to one row of a matrix or
    to one cloud of a batch. *)
Definition linear_row (self : Linear) (row : vec) : vec :=
  map (fun o =>
         let y := dot (nth o (lin_weight self) []) row in
         match lin_bias self with
         | Some b => y + nth o b 0
         | None => y
         end)
      (seq 0 (nrows (lin_weight self))).

Definition bn_eval_row (bn : BatchNorm1d) (C : nat) (row : vec) : vec :=
  map (fun c => bn_affine bn c (nth c (bn_running_mean bn) 0)
                          (nth c (bn_running_var bn) 0) (nth c row 0))
      (seq 0 C).

Definition bn_eval_cloud (bn : BatchNorm1d) (C N : nat) (xb : matrix) : matrix :=
  tabulate C N
    (fun c n => bn_affine bn c (nth c (bn_running_mean bn) 0)
                          (nth c (bn_running_var bn) 0) (get xb c n)).

Definition cloud_conv (c : PaiConv) (N : nat) (feature : matrix)
    (idx : list (list nat)) (permatrix : list matrix) : matrix :=
  let spirals := map (map (point feature)) idx in
  let spirals := zip_with matmul (map transpose spirals) permatrix in
  let spirals := map (@concat R) spirals in
  let out_feat := map (linear_row (pc_conv c)) spirals in
  bn_eval_cloud (pc_bn c) (nrows (lin_weight (pc_conv c))) N (transpose out_feat).

Definition cloud_logits (self : PaiNet) (N : nat) (xb : matrix)
    (idx : list (list nat)) : vec :=
  let permatrix :=
    map (fun nb => assign (paiIdxMatrix self) (map (point xb) nb)) idx in
  let f1 := map_entries gelu (cloud_conv (conv1 self) N xb idx permatrix) in
  let f2 := map_entries gelu (cloud_conv (conv2 self) N f1 idx permatrix) in
  let f3 := map_entries gelu (cloud_conv (conv3 self) N f2 idx permatrix) in
  let f4 := map_entries gelu (cloud_conv (conv4 self) N f3 idx permatrix) in
  let x := f1 ++ f2 ++ f3 ++ f4 in
  let x := nth 0 (Conv1d_forward (conv5 self) [x]) [] in
  let x := bn_eval_cloud (bn5 self) (nrows (conv_weight (conv5 self))) N x in
  let x := map_entries gelu x in
  let row := map list_max x ++ map list_mean x in
  let row := linear_row (linear1 self) row in
  let row := bn_eval_row (bn6 self) (nrows (lin_weight (linear1 self))) row in
  let row := map gelu row in
  let row := linear_row (linear2 self) row in
  let row := bn_eval_row (bn7 self) (nrows (lin_weight (linear2 self))) row in
  let row := map gelu row in
  linear_row (linear3 self) row.

(** ** [PaiConvDG] *)

(** [nn.Conv2d] with [kernel_size=1] on a batch x channels x height x
    width tensor; torch raises when the input does not have
    [in_channels] channels. *)
Record Conv2d := {
  c2_in_channels : nat;
  c2_weight : matrix;
  c2_bias : option vec
}.

Definition Conv2d_forward (self : Conv2d) (x : list tensor3)
  : option (list tensor3) :=
  if forallb (fun xb => Nat.eqb (length xb) (c2_in_channels self)) x then
    Some (map (fun xb =>
                 map (fun o =>
                        tabulate (nrows (hd [] xb)) (ncols (hd [] xb))
                          (fun h w =>
                             let y := rsum (c2_in_channels self)
                                        (fun c => get (c2_weight self) o c
                                                  * get (nth c xb []) h w) in
                             match c2_bias self with
                             | Some b => y + nth o b 0
                             | None => y
                             end))
                     (seq 0 (nrows (c2_weight self))))
              x)
  else None.

Record PaiConvDG := {
  pdg_k : nat;
  pdg_kernel_size : nat;
  pdg_in_c : nat;
  pdg_out_c : nat;
  pdg_conv : Conv2d;
  pdg_bn : BatchNorm1d
}.

(** [t.view(bsize, num_pts, k, -1)] of a contiguous buffer: torch raises
    unless the buffer splits evenly. *)
Definition view4 (bsize num_pts k : nat) (flat : vec)
  : option (list (list (list vec))) :=
  let n := (bsize * num_pts * k)%nat in
  if (Nat.eqb n 0 || negb (Nat.eqb (length flat mod n) 0))%bool then None
  else
    let c := (length flat / n)%nat in
    Some (view_blocks bsize num_pts
            (view_blocks (bsize * num_pts) k (view_blocks n c flat))).

(** [t.permute(0, 3, 1, 2)] of a bsize x num_pts x k x c tensor. *)
Definition permute0312 (num_pts k : nat) (t : list (list (list vec)))
  : list tensor3 :=
  map (fun tb =>
         map (fun ch =>
                tabulate num_pts k
                  (fun n j => nth ch (nth j (nth n tb []) []) 0))
             (seq 0 (length (hd [] (hd [] (hd [] t))))))
      t.

Definition PaiConvDG_forward (training : bool) (self : PaiConvDG)
    (feature : tensor3) (spirals_index : list nat) (permatrix : tensor3)
  : option (tensor3 * PaiConvDG) :=
  let bsize := size0 feature in
  let feats := size1 feature in
  let num_pts := size2 feature in
  let feature := concat (transpose21 feature) in
  spirals <- index_rows feature spirals_index ;;
  let spirals := view_blocks (bsize * num_pts) (pdg_k self) spirals in
  let spirals := transpose21 spirals in
  let spirals := bmm spirals permatrix in
  feature <- view4 bsize num_pts (pdg_k self)
               (concat (map (@concat R) spirals)) ;;
  feature <- Conv2d_forward (pdg_conv self)
               (permute0312 num_pts (pdg_k self) feature) ;;
  let feature := map (map (map list_max)) feature in
  '(out_feat, bn) <- BatchNorm1d_forward3 training (pdg_bn self) feature ;;
  Some (out_feat,
        {| pdg_k := pdg_k self; pdg_kernel_size := pdg_kernel_size self;
           pdg_in_c := pdg_in_c self; pdg_out_c := pdg_out_c self;
           pdg_conv := pdg_conv self; pdg_bn := bn |}).

(** The layer sizes [PaiConvDG.__init__] sets up. *)
Definition PaiConvDG_sized (c : PaiConvDG) (in_c out_c k kernel_size : nat)
  : Prop :=
  pdg_k c = k /\ pdg_kernel_size c = kernel_size /\
  pdg_in_c c = in_c /\ pdg_out_c c = out_c /\
  c2_in_channels (pdg_conv c) = (in_c * 2)%nat /\
  shape (c2_weight (pdg_conv c)) out_c (in_c * 2) /\
  match c2_bias (pdg_conv c) with
  | Some b => length b = out_c
  | None => True
  end /\
  BatchNorm1d_sized (pdg_bn c) out_c.

Definition sample_dg (k kernel_size : nat) : PaiConvDG :=
  {| pdg_k := k; pdg_kernel_size := kernel_size; pdg_in_c := 3; pdg_out_c := 64;
     pdg_conv := {| c2_in_channels := 6; c2_weight := zeros 64 6;
                    c2_bias := Some (repeat 0 64) |};
     pdg_bn := fresh_bn 64 |}.

(** ** [PaiIndexMatrixLSA] *)






Section LSA.

Variable topk : nat -> list R -> option (list nat).

(** [Sparsemax(dim=-1)], of the [sparsemax] package, applied to one row. *)
Variable sparsemax : vec -> vec.


End LSA.



(** ** [Transform_Net] *)

(** [nn.BatchNorm2d] on a batch x channels x height x width tensor; the
    parameters are those of [BatchNorm1d], the statistics run over the
    batch, the height and the width. *)
Definition channel_sum4 (x : list tensor3) (c : nat) (f : R -> R) : R :=
  rsum (length x)
    (fun b => rsum (nrows (hd [] (hd [] x)))
       (fun h => rsum (ncols (hd [] (hd [] x)))
          (fun w => f (get (nth c (nth b x []) []) h w)))).

Definition BatchNorm2d_forward (training : bool) (self : BatchNorm1d)
    (x : list tensor3) : option (list tensor3 * BatchNorm1d) :=
  let C := length (hd [] x) in
  let H := nrows (hd [] (hd [] x)) in
  let W := ncols (hd [] (hd [] x)) in
  let count := (length x * H * W)%nat in
  if training then
    if Nat.leb count 1 then None
    else
      let mean c := channel_sum4 x c (fun a => a) / INR count in
      let sqdev c := channel_sum4 x c (fun a => (a - mean c) ^ 2) in
      let var c := sqdev c / INR count in
      let var_unbiased c := sqdev c / INR (count - 1) in
      Some (map (fun xb =>
                   map (fun c =>
                          tabulate H W
                            (fun h w => bn_affine self c (mean c) (var c)
                                          (get (nth c xb []) h w)))
                       (seq 0 C)) x,
            bn_track self mean var_unbiased)
  else
    Some (map (fun xb =>
                 map (fun c =>
                        tabulate H W
                          (fun h w =>
                             bn_affine self c (nth c (bn_running_mean self) 0)
                               (nth c (bn_running_var self) 0)
                               (get (nth c xb []) h w)))
                     (seq 0 C)) x,
          self).





Definition leaky_relu4 (x : list tensor3) : list tensor3 :=
  map (map (map_entries (leaky_relu (2 / 10)))) x.



(** ** [DGCNN] *)

Record DGCNN := {
  dg_k : nat;
  dg_bn1 : BatchNorm1d;
  dg_bn2 : BatchNorm1d;
  dg_bn3 : BatchNorm1d;
  dg_bn4 : BatchNorm1d;
  dg_bn5 : BatchNorm1d;
  dg_conv1 : Conv2d;
  dg_conv2 : Conv2d;
  dg_conv3 : Conv2d;
  dg_conv4 : Conv2d;
  dg_conv5 : Conv1d;
  dg_linear1 : Linear;
  dg_bn6 : BatchNorm1d;
  dg_dp1 : R;
  dg_linear2 : Linear;
  dg_bn7 : BatchNorm1d;
  dg_dp2 : R;
  dg_linear3 : Linear
}.

(** [x.max(dim=-1, keepdim=False)[0]] of a batch x channels x points x k
    tensor; torch raises when the dimension reduced is empty. *)
Definition max_last (x : list tensor3) : option tensor3 :=
  if forallb (forallb (forallb (fun v => negb (Nat.eqb (length v) 0)))) x
  then Some (map (map (map list_max)) x)
  else None.

Section DGCNNForward.

Variable topk : nat -> list R -> option (list nat).

(** One edge convolution: [get_graph_feature], the [nn.Sequential] of
    the [Conv2d], its [BatchNorm2d] and the [LeakyReLU], and the maximum
    over the neighbours. *)
Definition edge_conv (training : bool) (k : nat) (conv : Conv2d)
    (bn : BatchNorm1d) (x : tensor3) : option (tensor3 * BatchNorm1d) :=
  x <- get_graph_feature topk x k None ;;
  x <- Conv2d_forward conv x ;;
  '(x, bn) <- BatchNorm2d_forward training bn x ;;
  let x := leaky_relu4 x in
  x1 <- max_last x ;;
  Some (x1, bn).

Definition DGCNN_forward (training : bool) (keep1 keep2 : nat -> nat -> bool)
    (self : DGCNN) (x : tensor3) : option (matrix * DGCNN) :=
  let batch_size := size0 x in
  '(x1, b1) <- edge_conv training (dg_k self) (dg_conv1 self) (dg_bn1 self) x ;;
  '(x2, b2) <- edge_conv training (dg_k self) (dg_conv2 self) (dg_bn2 self) x1 ;;
  '(x3, b3) <- edge_conv training (dg_k self) (dg_conv3 self) (dg_bn3 self) x2 ;;
  '(x4, b4) <- edge_conv training (dg_k self) (dg_conv4 self) (dg_bn4 self) x3 ;;

  let x := cat1 x1 (cat1 x2 (cat1 x3 x4)) in

  '(x, b5) <- BatchNorm1d_forward3 training (dg_bn5 self)
                (Conv1d_forward (dg_conv5 self) x) ;;
  let x := map (map_entries (leaky_relu (2 / 10))) x in
  let x1 := adaptive_max_pool1d x in
  let x2 := adaptive_avg_pool1d x in
  let x := cat1 x1 x2 in

  '(x, b6) <- BatchNorm1d_forward2 training (dg_bn6 self)
                (Linear_forward (dg_linear1 self) x) ;;
  let x := map_entries (leaky_relu (2 / 10)) x in
  let x := Dropout_forward (dg_dp1 self) training keep1 x in
  '(x, b7) <- BatchNorm1d_forward2 training (dg_bn7 self)
                (Linear_forward (dg_linear2 self) x) ;;
  let x := map_entries (leaky_relu (2 / 10)) x in
  let x := Dropout_forward (dg_dp2 self) training keep2 x in
  let x := Linear_forward (dg_linear3 self) x in
  Some (x, {| dg_k := dg_k self;
              dg_bn1 := b1; dg_bn2 := b2; dg_bn3 := b3; dg_bn4 := b4;
              dg_bn5 := b5;
              dg_conv1 := dg_conv1 self; dg_conv2 := dg_conv2 self;
              dg_conv3 := dg_conv3 self; dg_conv4 := dg_conv4 self;
              dg_conv5 := dg_conv5 self;
              dg_linear1 := dg_linear1 self; dg_bn6 := b6;
              dg_dp1 := dg_dp1 self;
              dg_linear2 := dg_linear2 self; dg_bn7 := b7;
              dg_dp2 := dg_dp2 self;
              dg_linear3 := dg_linear3 self |}).

End DGCNNForward.


Definition sample_dgcnn (k : nat) : DGCNN :=
  let conv in_c out_c :=
    {| c2_in_channels := in_c; c2_weight := zeros out_c in_c;
       c2_bias := None |} in
  {| dg_k := k;
     dg_bn1 := fresh_bn 64; dg_bn2 := fresh_bn 64; dg_bn3 := fresh_bn 128;
     dg_bn4 := fresh_bn 256; dg_bn5 := fresh_bn 1024;
     dg_conv1 := conv 6%nat 64%nat; dg_conv2 := conv (64 * 2)%nat 64%nat;
     dg_conv3 := conv (64 * 2)%nat 128%nat;
     dg_conv4 := conv (128 * 2)%nat 256%nat;
     dg_conv5 := {| conv_weight := zeros 1024 512; conv_bias := None |};
     dg_linear1 := {| lin_weight := zeros 512 (1024 * 2); lin_bias := None |};
     dg_bn6 := fresh_bn 512;
     dg_dp1 := 1 / 2;
     dg_linear2 := {| lin_weight := zeros 256 512;
                      lin_bias := Some (repeat 0 256) |};
     dg_bn7 := fresh_bn 256;
     dg_dp2 := 1 / 2;
     dg_linear3 := {| lin_weight := zeros 40 256;
                      lin_bias := Some (repeat 0 40) |} |}.

(** A batch x channels x height x width tensor. *)
Definition shape4 (x : list tensor3) (B C H W : nat) : Prop :=
  length x = B /\ Forall (fun xb => shape3 xb C H W) x.

(** * Properties *)

(** ** Tensor lemmas *)

Section TensorFacts.

Lemma nth_map_seq {A : Type} (f : nat -> A) (n i : nat) (d : A) :
  (i < n)%nat -> nth i (map f (seq 0 n)) d = f i.
Proof.
  intros Hi.
  rewrite (nth_indep _ d (f 0%nat)) by (rewrite length_map, length_seq; exact Hi).
  rewrite map_nth, seq_nth by exact Hi. reflexivity.
Qed.

Lemma nrows_tabulate {A : Type} (r c : nat) (f : nat -> nat -> A) :
  nrows (tabulate r c f) = r.
Proof. unfold nrows, tabulate. now rewrite length_map, length_seq. Qed.

Lemma ncols_tabulate {A : Type} (r c : nat) (f : nat -> nat -> A) :
  (0 < r)%nat -> ncols (tabulate r c f) = c.
Proof.
  intros Hr. destruct r as [|r]; [lia|].
  unfold tabulate, ncols. cbn [seq map]. now rewrite length_map, length_seq.
Qed.

Lemma ncols_tabulate_0 {A : Type} (c : nat) (f : nat -> nat -> A) :
  ncols (tabulate 0 c f) = 0%nat.
Proof. reflexivity. Qed.

Lemma get_tabulate (r c : nat) (f : nat -> nat -> R) (i j : nat) :
  (i < r)%nat -> (j < c)%nat -> get (tabulate r c f) i j = f i j.
Proof.
  intros Hi Hj. unfold get, tabulate.
  rewrite (nth_map_seq (fun i => map (fun j => f i j) (seq 0 c))) by exact Hi.
  now apply nth_map_seq.
Qed.

Lemma get_tabulate_out (r c : nat) (f : nat -> nat -> R) (i j : nat) :
  (r <= i)%nat \/ (c <= j)%nat -> get (tabulate r c f) i j = 0.
Proof.
  intros H. unfold get, tabulate.
  destruct (Nat.lt_ge_cases i r) as [Hi|Hi].
  - rewrite (nth_map_seq (fun i => map (fun j => f i j) (seq 0 c))) by exact Hi.
    apply nth_overflow. rewrite length_map, length_seq. lia.
  - rewrite (nth_overflow (map _ _)) by (rewrite length_map, length_seq; exact Hi).
    now destruct j.
Qed.

Lemma shape_tabulate (r c : nat) (f : nat -> nat -> R) :
  shape (tabulate r c f) r c.
Proof.
  split; [apply nrows_tabulate|].
  unfold tabulate. apply Forall_forall. intros row Hin.
  apply in_map_iff in Hin. destruct Hin as [i [<- _]].
  now rewrite length_map, length_seq.
Qed.

Lemma shape_ncols (M : matrix) (r c : nat) :
  shape M r c -> (0 < r)%nat -> ncols M = c.
Proof.
  intros [Hl Hf] Hr. destruct M as [|row M]; cbn in *; [lia|].
  now inversion Hf.
Qed.

Lemma get_map_entries (f : R -> R) (M : matrix) (i j : nat) :
  f 0 = 0 -> get (map_entries f M) i j = f (get M i j).
Proof.
  intros Hf. unfold get, map_entries.
  destruct (Nat.lt_ge_cases i (length M)) as [Hi|Hi].
  - rewrite (nth_indep _ [] (map f [])) by (now rewrite length_map).
    rewrite map_nth.
    destruct (Nat.lt_ge_cases j (length (nth i M []))) as [Hj|Hj].
    + rewrite (nth_indep _ 0 (f 0)) by (now rewrite length_map).
      now rewrite map_nth.
    + rewrite !nth_overflow; auto. now rewrite length_map.
  - rewrite (nth_overflow (map _ _)) by (now rewrite length_map).
    rewrite (nth_overflow M) by exact Hi.
    destruct j; cbn; auto.
Qed.

Lemma nrows_map_entries (f : R -> R) (M : matrix) :
  nrows (map_entries f M) = nrows M.
Proof. unfold nrows, map_entries. apply length_map. Qed.

Lemma ncols_map_entries (f : R -> R) (M : matrix) :
  ncols (map_entries f M) = ncols M.
Proof. destruct M; cbn; [reflexivity|apply length_map]. Qed.

Lemma bidx_lt (n i : nat) : (i < n)%nat -> bidx n i = i.
Proof.
  intros Hi. unfold bidx. destruct (Nat.eqb_spec n 1); [lia|reflexivity].
Qed.

Lemma bget_in (M : matrix) (i j : nat) :
  (i < nrows M)%nat -> (j < ncols M)%nat -> bget M i j = get M i j.
Proof. intros Hi Hj. unfold bget. now rewrite !bidx_lt. Qed.

Lemma rsum_ext (n : nat) (f g : nat -> R) :
  (forall i, (i < n)%nat -> f i = g i) -> rsum n f = rsum n g.
Proof.
  induction n as [|n IH]; intros H; cbn; [reflexivity|].
  rewrite IH, H by (intros; auto with arith). reflexivity.
Qed.

Lemma rsum_nonneg (n : nat) (f : nat -> R) :
  (forall i, (i < n)%nat -> 0 <= f i) -> 0 <= rsum n f.
Proof.
  induction n as [|n IH]; intros H; cbn; [lra|].
  assert (0 <= rsum n f) by (apply IH; intros; apply H; lia).
  assert (0 <= f n) by (apply H; lia). lra.
Qed.

Lemma rsum_zero (n : nat) (f : nat -> R) :
  (forall i, (i < n)%nat -> f i = 0) -> rsum n f = 0.
Proof.
  induction n as [|n IH]; intros H; cbn; [reflexivity|].
  rewrite IH, H by (intros; auto with arith). lra.
Qed.

Lemma rsum_le (n : nat) (f g : nat -> R) :
  (forall i, (i < n)%nat -> f i <= g i) -> rsum n f <= rsum n g.
Proof.
  induction n as [|n IH]; intros H; cbn; [lra|].
  assert (rsum n f <= rsum n g) by (apply IH; intros; apply H; lia).
  assert (f n <= g n) by (apply H; lia). lra.
Qed.

Lemma rsum_term_le (n : nat) (f : nat -> R) (i : nat) :
  (forall l, (l < n)%nat -> 0 <= f l) -> (i < n)%nat -> f i <= rsum n f.
Proof.
  induction n as [|n IH]; intros H Hi; [lia|]. cbn.
  assert (0 <= f n) by (apply H; lia).
  assert (0 <= rsum n f) by (apply rsum_nonneg; intros; apply H; lia).
  destruct (Nat.eq_dec i n) as [->|Hne]; [lra|].
  assert (f i <= rsum n f) by (apply IH; [intros; apply H|]; lia). lra.
Qed.

Lemma rsum_scale (n : nat) (f : nat -> R) (c : R) :
  rsum n (fun i => f i * c) = rsum n f * c.
Proof. induction n as [|n IH]; cbn; [lra|]. rewrite IH. lra. Qed.

End TensorFacts.

(** ** The [topkmax] pipeline, entry by entry *)

Section TopkmaxFacts.

Lemma eps_pos : 0 < eps.
Proof. unfold eps. lra. Qed.

Lemma bdim_same (n : nat) : bdim n n = n.
Proof. unfold bdim. now destruct (Nat.eqb_spec n 1). Qed.

Lemma bdim_one (n : nat) : bdim n 1 = n.
Proof. unfold bdim. now destruct (Nat.eqb_spec n 1). Qed.

Lemma nrows_0_ncols {A : Type} (M : list (list A)) :
  nrows M = 0%nat -> ncols M = 0%nat.
Proof. now destruct M. Qed.

Lemma ncols_tabulate_same {A : Type} (M : list (list A)) (f : nat -> nat -> R) :
  ncols (tabulate (nrows M) (ncols M) f) = ncols M.
Proof.
  destruct (Nat.eq_dec (nrows M) 0) as [E|E].
  - rewrite E, (nrows_0_ncols M E). reflexivity.
  - apply ncols_tabulate. lia.
Qed.

Lemma ncols_sum_rows_keepdim (P : matrix) :
  ncols (map_entries (fun s => s + eps) (sum_rows_keepdim P)) = ncols P.
Proof. cbn. now rewrite !length_map, length_seq. Qed.

Lemma get_sum_rows_keepdim (P : matrix) (j : nat) :
  (j < ncols P)%nat ->
  get (map_entries (fun s => s + eps) (sum_rows_keepdim P)) 0 j = colsum P j + eps.
Proof.
  intros Hj. unfold get. cbn. rewrite map_map.
  now apply (nth_map_seq (fun x => colsum P x + eps)).
Qed.

Lemma nrows_normalize (P : matrix) : nrows (normalize P) = nrows P.
Proof.
  unfold normalize, broadcast. rewrite nrows_tabulate. apply bdim_one.
Qed.


Lemma get_normalize (P : matrix) (i j : nat) :
  (i < nrows P)%nat -> (j < ncols P)%nat ->
  get (normalize P) i j = get P i j / (colsum P j + eps).
Proof.
  intros Hi Hj. unfold normalize, broadcast.
  rewrite ncols_sum_rows_keepdim, bdim_same.
  change (nrows (map_entries _ (sum_rows_keepdim P))) with 1%nat.
  rewrite bdim_one, get_tabulate by assumption.
  rewrite bget_in by assumption.
  unfold bget.
  change (nrows (map_entries _ (sum_rows_keepdim P))) with 1%nat.
  rewrite ncols_sum_rows_keepdim.
  change (bidx 1 i) with 0%nat. rewrite bidx_lt by assumption.
  now rewrite get_sum_rows_keepdim.
Qed.

Lemma get_normalize_out (P : matrix) (i j : nat) :
  (nrows P <= i)%nat \/ (ncols P <= j)%nat -> get (normalize P) i j = 0.
Proof.
  intros H. unfold normalize, broadcast.
  rewrite ncols_sum_rows_keepdim, bdim_same.
  change (nrows (map_entries _ (sum_rows_keepdim P))) with 1%nat.
  rewrite bdim_one. now apply get_tabulate_out.
Qed.

Lemma nrows_square (P : matrix) : nrows (square P) = nrows P.
Proof. unfold square, broadcast. now rewrite nrows_tabulate, bdim_same. Qed.

Lemma ncols_square (P : matrix) : ncols (square P) = ncols P.
Proof.
  unfold square, broadcast. rewrite !bdim_same. apply ncols_tabulate_same.
Qed.

Lemma get_square (P : matrix) (i j : nat) :
  (i < nrows P)%nat -> (j < ncols P)%nat ->
  get (square P) i j = get P i j * get P i j.
Proof.
  intros Hi Hj. unfold square, broadcast.
  rewrite !bdim_same, get_tabulate by assumption.
  now rewrite bget_in.
Qed.

Lemma get_square_out (P : matrix) (i j : nat) :
  (nrows P <= i)%nat \/ (ncols P <= j)%nat -> get (square P) i j = 0.
Proof.
  intros H. unfold square, broadcast. rewrite !bdim_same.
  now apply get_tabulate_out.
Qed.

Lemma get_where_gt (c : R) (M : matrix) (i j : nat) :
  0 <= c ->
  get (where_gt c M) i j = if Rgt_dec (get M i j) c then get M i j else 0.
Proof.
  intros Hc. unfold where_gt. apply get_map_entries.
  destruct (Rgt_dec 0 c); [lra|reflexivity].
Qed.

Lemma div_nonneg (a b : R) : 0 <= a -> 0 < b -> 0 <= a / b.
Proof. intros Ha Hb. unfold Rdiv. now apply Rle_mult_inv_pos. Qed.

Lemma div_lt_1 (a b : R) : a < b -> 0 < b -> a / b < 1.
Proof.
  intros Hab Hb. apply (Rmult_lt_reg_r b); [exact Hb|].
  unfold Rdiv. rewrite Rmult_assoc, Rinv_l by lra. lra.
Qed.

Lemma colsum_nonneg (P : matrix) (j : nat) : nonneg P -> 0 <= colsum P j.
Proof. intros HP. apply rsum_nonneg. intros. apply HP. Qed.

Lemma get_le_colsum (P : matrix) (i j : nat) :
  nonneg P -> (i < nrows P)%nat -> get P i j <= colsum P j.
Proof.
  intros HP Hi. unfold colsum.
  apply (rsum_term_le (nrows P) (fun i => get P i j)); [intros; apply HP|exact Hi].
Qed.

(** One normalisation of a non-negative matrix leaves every entry in
    [0, 1), and keeps zeros. *)
Lemma normalize_range (P : matrix) (i j : nat) :
  nonneg P -> 0 <= get (normalize P) i j < 1.
Proof.
  intros HP.
  destruct (Nat.lt_ge_cases i (nrows P)) as [Hi|Hi];
    [destruct (Nat.lt_ge_cases j (ncols P)) as [Hj|Hj]|].
  - rewrite get_normalize by assumption.
    pose proof (HP i j). pose proof (get_le_colsum P i j HP Hi).
    pose proof eps_pos.
    split; [apply div_nonneg|apply div_lt_1]; lra.
  - rewrite get_normalize_out by auto. lra.
  - rewrite get_normalize_out by auto. lra.
Qed.

End TopkmaxFacts.

Section TopkmaxRange.

Lemma nonneg_normalize (P : matrix) : nonneg P -> nonneg (normalize P).
Proof. intros HP i j. now apply normalize_range. Qed.

Lemma nonneg_square (P : matrix) : nonneg (square P).
Proof.
  intros i j.
  destruct (Nat.lt_ge_cases i (nrows P)) as [Hi|Hi];
    [destruct (Nat.lt_ge_cases j (ncols P)) as [Hj|Hj]|].
  - rewrite get_square by assumption. apply Rle_0_sqr.
  - rewrite get_square_out by auto. lra.
  - rewrite get_square_out by auto. lra.
Qed.

Lemma normalize_zero (P : matrix) (i j : nat) :
  get P i j = 0 -> get (normalize P) i j = 0.
Proof.
  intros H0.
  destruct (Nat.lt_ge_cases i (nrows P)) as [Hi|Hi];
    [destruct (Nat.lt_ge_cases j (ncols P)) as [Hj|Hj]|].
  - rewrite get_normalize, H0 by assumption. unfold Rdiv. apply Rmult_0_l.
  - now rewrite get_normalize_out by auto.
  - now rewrite get_normalize_out by auto.
Qed.

Lemma square_zero (P : matrix) (i j : nat) :
  get P i j = 0 -> get (square P) i j = 0.
Proof.
  intros H0.
  destruct (Nat.lt_ge_cases i (nrows P)) as [Hi|Hi];
    [destruct (Nat.lt_ge_cases j (ncols P)) as [Hj|Hj]|].
  - rewrite get_square, H0 by assumption. apply Rmult_0_l.
  - now rewrite get_square_out by auto.
  - now rewrite get_square_out by auto.
Qed.

Lemma get_topkmax1 (P : matrix) (i j : nat) :
  get (topkmax1 P) i j =
  let a := get (normalize (square (normalize P))) i j in
  if Rgt_dec a (1 / 10) then a else 0.
Proof. unfold topkmax1. apply get_where_gt. lra. Qed.

Lemma topkmax1_nil : topkmax1 [] = [].
Proof. reflexivity. Qed.

Lemma nth_topkmax (T : tensor3) (b : nat) :
  nth b (topkmax T) [] = topkmax1 (nth b T []).
Proof.
  unfold topkmax. rewrite <- topkmax1_nil at 1. apply map_nth.
Qed.

Lemma Forall_nth_nonneg (T : tensor3) (b : nat) :
  Forall nonneg T -> nonneg (nth b T []).
Proof.
  intros HT. destruct (Nat.lt_ge_cases b (length T)) as [Hb|Hb].
  - eapply Forall_forall; [exact HT|]. now apply nth_In.
  - rewrite nth_overflow by exact Hb. intros i j. unfold get.
    destruct i, j; cbn; lra.
Qed.

Lemma topkmax1_range (P : matrix) (i j : nat) :
  nonneg P ->
  (get (topkmax1 P) i j <> 0 -> 1 / 10 <= get (topkmax1 P) i j <= 1) /\
  (get P i j = 0 -> get (topkmax1 P) i j = 0).
Proof.
  intros HP. rewrite get_topkmax1. cbv zeta.
  pose proof (normalize_range (square (normalize P)) i j (nonneg_square _)) as Hr.
  split.
  - destruct (Rgt_dec _ _) as [Hgt|Hle]; [lra|congruence].
  - intros H0.
    rewrite (normalize_zero _ i j (square_zero _ i j (normalize_zero P i j H0))).
    destruct (Rgt_dec 0 (1 / 10)); [lra|reflexivity].
Qed.

End TopkmaxRange.

(** ** The range of the entries [topkmax] retains *)

(** C2.  For a non-negative input tensor, every non-zero entry of the
    result of [topkmax] lies between 0.1 and 1, and every entry that is 0
    in the input is 0 in the result. *)
Theorem topkmax_retained_range (T : tensor3) (b i j : nat) :
  Forall nonneg T ->
  (get (nth b (topkmax T) []) i j <> 0 ->
     1 / 10 <= get (nth b (topkmax T) []) i j <= 1) /\
  (get (nth b T []) i j = 0 -> get (nth b (topkmax T) []) i j = 0).
Proof.
  intros HT. rewrite nth_topkmax.
  apply topkmax1_range. now apply Forall_nth_nonneg.
Qed.

(** ** The kernel-point generator *)

Section FibonacciFacts.

Variables (rnd : R) (samples : nat).

Let offset := 2 / INR samples.
Let increment := PI * (3 - sqrt 5).

Lemma sphere_y_bounds (i : nat) :
  (i < samples - 1)%nat ->
  -1 < ((INR i * offset) - 1) + (offset / 2) < 1.
Proof.
  intros Hi. subst offset.
  assert (Hs : 0 < INR samples) by (apply lt_0_INR; lia).
  assert (Ht : 0 <= INR i) by apply pos_INR.
  assert (Hle : INR i + 2 <= INR samples).
  { replace 2 with (INR 2) by reflexivity. rewrite <- plus_INR.
    apply le_INR. lia. }
  replace (INR i * (2 / INR samples) - 1 + 2 / INR samples / 2)
    with ((2 * INR i + 1) / INR samples - 1) by (field; lra).
  assert (0 < (2 * INR i + 1) / INR samples).
  { apply Rdiv_lt_0_compat; lra. }
  assert ((2 * INR i + 1) / INR samples < 2).
  { apply (Rmult_lt_reg_r (INR samples)); [exact Hs|].
    unfold Rdiv. rewrite Rmult_assoc, Rinv_l by lra. lra. }
  lra.
Qed.

Lemma sphere_radicand_pos (i : nat) :
  (i < samples - 1)%nat ->
  0 < 1 - (((INR i * offset) - 1) + (offset / 2)) ^ 2.
Proof. intros Hi. pose proof (sphere_y_bounds i Hi). nra. Qed.

Lemma fibonacci_body_ok (i : nat) (points : list (list R)) :
  (i < samples - 1)%nat ->
  fibonacci_body rnd offset increment samples i points
  = Some (points ++ [sphere_point rnd samples i]).
Proof.
  intros Hi. unfold fibonacci_body, math_sqrt.
  pose proof (sphere_radicand_pos i Hi).
  destruct (Rle_dec _ _) as [_|Hn]; [reflexivity|lra].
Qed.

Lemma fibonacci_loop_ok (l : list nat) (points : list (list R)) :
  Forall (fun i => (i < samples - 1)%nat) l ->
  for_each (fibonacci_body rnd offset increment samples) l points
  = Some (points ++ map (sphere_point rnd samples) l).
Proof.
  revert points. induction l as [|i l IH]; intros points Hl; cbn.
  - now rewrite app_nil_r.
  - inversion Hl as [|? ? Hi Hl']; subst.
    rewrite fibonacci_body_ok by exact Hi. cbn.
    rewrite IH by exact Hl'. now rewrite <- app_assoc.
Qed.

Lemma sphere_point_unit (i : nat) :
  (i < samples - 1)%nat ->
  exists x y z, sphere_point rnd samples i = [x; y; z] /\ x ^ 2 + y ^ 2 + z ^ 2 = 1.
Proof.
  intros Hi. unfold sphere_point. cbv zeta.
  set (y := INR i * offset - 1 + offset / 2).
  set (phi := float_mod (INR i + rnd) (INR samples) * increment).
  exists (cos phi * sqrt (1 - y ^ 2)), y, (sin phi * sqrt (1 - y ^ 2)).
  split; [reflexivity|].
  pose proof (sphere_radicand_pos i Hi) as Hpos. fold y in Hpos.
  pose proof (sqrt_sqrt (1 - y ^ 2) (Rlt_le _ _ Hpos)) as Hsq.
  pose proof (sin2_cos2 phi) as Hsc. unfold Rsqr in Hsc.
  replace ((cos phi * sqrt (1 - y ^ 2)) ^ 2 + y ^ 2 + (sin phi * sqrt (1 - y ^ 2)) ^ 2)
    with ((sin phi * sin phi + cos phi * cos phi)
          * (sqrt (1 - y ^ 2) * sqrt (1 - y ^ 2)) + y ^ 2) by ring.
  rewrite Hsc, Hsq. ring.
Qed.

End FibonacciFacts.

Lemma fibonacci_sphere_eq (random : R) (samples : nat) (randomize : bool) :
  (1 <= samples)%nat ->
  fibonacci_sphere random samples randomize
  = Some ([0; 0; 0]
          :: map (sphere_point (if randomize then random * INR samples else 1) samples)
                 (seq 0 (samples - 1))).
Proof.
  intros Hs. unfold fibonacci_sphere.
  destruct (Nat.eqb_spec samples 0) as [E|_]; [lia|].
  rewrite fibonacci_loop_ok; [reflexivity|].
  apply Forall_forall. intros i Hi. apply in_seq in Hi. lia.
Qed.

(** ** What [fibonacci_sphere] returns *)

(** C6.  For [kernelSize >= 1], [fibonacci_sphere kernelSize false]
    returns exactly [kernelSize] points of three coordinates, its element
    0 is the origin, and any two calls (whatever the random generator
    would have drawn) return the same list. *)
Theorem fibonacci_sphere_deterministic (kernelSize : nat) (random : R) :
  (1 <= kernelSize)%nat ->
  exists points,
    fibonacci_sphere random kernelSize false = Some points /\
    length points = kernelSize /\
    Forall (fun p => length p = 3%nat) points /\
    nth 0 points [] = [0; 0; 0] /\
    forall random', fibonacci_sphere random' kernelSize false = Some points.
Proof.
  intros Hs. eexists. split; [now apply fibonacci_sphere_eq|].
  split; [cbn; rewrite length_map, length_seq; lia|].
  split; [|split; [reflexivity|intros; now apply fibonacci_sphere_eq]].
  constructor; [reflexivity|].
  apply Forall_forall. intros p Hp. apply in_map_iff in Hp.
  now destruct Hp as [i [<- _]].
Qed.

Lemma fibonacci_sphere_deterministic_witness :
  exists points,
    fibonacci_sphere 0 16 false = Some points /\
    length points = 16%nat /\
    Forall (fun p => length p = 3%nat) points /\
    nth 0 points [] = [0; 0; 0] /\
    forall random', fibonacci_sphere random' 16 false = Some points.
Proof. apply (fibonacci_sphere_deterministic 16 0). lia. Defined.

(** C10.  For [samples >= 1] the generator returns, and every returned
    point other than element 0 lies on the unit sphere: the radicand
    [1 - y^2] is positive, so [math.sqrt] is defined, and
    [x^2 + y^2 + z^2 = 1]. *)
Theorem fibonacci_sphere_unit_norm (random : R) (samples : nat) (randomize : bool) :
  (1 <= samples)%nat ->
  exists points,
    fibonacci_sphere random samples randomize = Some points /\
    forall i, (1 <= i < samples)%nat ->
      exists x y z, nth i points [] = [x; y; z] /\ x ^ 2 + y ^ 2 + z ^ 2 = 1.
Proof.
  intros Hs. eexists. split; [now apply fibonacci_sphere_eq|].
  intros i [Hi1 Hi2]. destruct i as [|i]; [lia|]. cbn [nth].
  rewrite (nth_map_seq (sphere_point _ samples)) by lia.
  apply sphere_point_unit. lia.
Qed.

Lemma fibonacci_sphere_unit_norm_witness :
  exists points,
    fibonacci_sphere 0 16 false = Some points /\
    forall i, (1 <= i < 16)%nat ->
      exists x y z, nth i points [] = [x; y; z] /\ x ^ 2 + y ^ 2 + z ^ 2 = 1.
Proof. apply (fibonacci_sphere_unit_norm 0 16 false). lia. Defined.

Ltac concrete_nonneg :=
  let i := fresh "i" in let j := fresh "j" in
  intros i j; unfold get;
  repeat (destruct i as [|i]; cbn [nth];
          [repeat (destruct j as [|j]; cbn [nth]; [lra|]); try lra
          |]);
  destruct j; cbn; lra.

Lemma topkmax_retained_range_witness :
  Forall nonneg [[[1; 0]; [0; 3]]] /\
  ((get (nth 0 (topkmax [[[1; 0]; [0; 3]]]) []) 0 1 <> 0 ->
     1 / 10 <= get (nth 0 (topkmax [[[1; 0]; [0; 3]]]) []) 0 1 <= 1) /\
   (get (nth 0 [[[1; 0]; [0; 3]]] []) 0 1 = 0 ->
     get (nth 0 (topkmax [[[1; 0]; [0; 3]]]) []) 0 1 = 0)).
Proof.
  assert (H : Forall nonneg [[[1; 0]; [0; 3]]]).
  { constructor; [concrete_nonneg|constructor]. }
  split; [exact H|].
  apply (topkmax_retained_range [[[1; 0]; [0; 3]]] 0 0 1 H).
Defined.

(** ** The pairwise-distance matrix of [knn] *)

Section PairwiseDistance.

Lemma zip_with_map_same {A B C D : Type} (f : B -> C -> D) (g : A -> B)
    (h : A -> C) (l : list A) :
  zip_with f (map g l) (map h l) = map (fun a => f (g a) (h a)) l.
Proof. induction l as [|a l IH]; cbn; [reflexivity|now rewrite IH]. Qed.

Lemma zip_with_map_left {A B C : Type} (f : B -> A -> C) (g : A -> B)
    (l : list A) :
  zip_with f (map g l) l = map (fun a => f (g a) a) l.
Proof. induction l as [|a l IH]; cbn; [reflexivity|now rewrite IH]. Qed.

Lemma mapM_map {A B C : Type} (f : B -> option C) (g : A -> B) (l : list A) :
  mapM f (map g l) = mapM (fun a => f (g a)) l.
Proof. induction l as [|a l IH]; cbn; [reflexivity|now rewrite IH]. Qed.

Lemma mapM_ext_in {A B : Type} (f g : A -> option B) (l : list A) :
  (forall a, In a l -> f a = g a) -> mapM f l = mapM g l.
Proof.
  induction l as [|a l IH]; intros H; cbn; [reflexivity|].
  rewrite H by (now left). rewrite IH; [reflexivity|].
  intros; apply H; now right.
Qed.

Lemma nrows_broadcast (f : R -> R -> R) (A B : matrix) :
  nrows (broadcast f A B) = bdim (nrows A) (nrows B).
Proof. unfold broadcast. apply nrows_tabulate. Qed.

Lemma ncols_broadcast (f : R -> R -> R) (A B : matrix) :
  (0 < bdim (nrows A) (nrows B))%nat ->
  ncols (broadcast f A B) = bdim (ncols A) (ncols B).
Proof. intros H. unfold broadcast. now apply ncols_tabulate. Qed.

Lemma get_broadcast (f : R -> R -> R) (A B : matrix) (i j : nat) :
  (i < bdim (nrows A) (nrows B))%nat -> (j < bdim (ncols A) (ncols B))%nat ->
  get (broadcast f A B) i j = f (bget A i j) (bget B i j).
Proof. intros Hi Hj. unfold broadcast. now apply get_tabulate. Qed.

Lemma row_length_tabulate (r c : nat) (f : nat -> nat -> R) (i : nat) :
  (i < r)%nat -> length (nth i (tabulate r c f) []) = c.
Proof.
  intros Hi. unfold tabulate.
  rewrite (nth_map_seq (fun i => map (fun j => f i j) (seq 0 c))) by exact Hi.
  now rewrite length_map, length_seq.
Qed.

Lemma rsum_plus (n : nat) (f g : nat -> R) :
  rsum n (fun i => f i + g i) = rsum n f + rsum n g.
Proof. induction n as [|n IH]; cbn; [lra|]. rewrite IH. lra. Qed.

Lemma rsum_sq_diff (n : nat) (a b : nat -> R) :
  rsum n (fun d => (a d - b d) ^ 2)
  = rsum n (fun d => a d ^ 2) - 2 * rsum n (fun d => a d * b d)
    + rsum n (fun d => b d ^ 2).
Proof. induction n as [|n IH]; cbn; [lra|]. cbn in IH. rewrite IH. ring. Qed.

Lemma knn_per_cloud (topk : nat -> list R -> option (list nat))
    (x : tensor3) (k : nat) :
  knn topk x k = mapM (fun xb => mapM (topk k) (pairwise_distance1 xb)) x.
Proof.
  unfold knn, sub3, neg3, bmm, scale3, transpose21, sum_dim1_keepdim, pow3.
  rewrite zip_with_map_left, !map_map.
  rewrite (zip_with_map_same (broadcast Rminus)).
  rewrite (zip_with_map_same (broadcast Rminus)).
  now rewrite mapM_map.
Qed.

Section OneCloud.

Variables (xb : matrix) (feats num_pts : nat).
Hypothesis Hshape : shape xb feats num_pts.
Hypothesis Hfeats : (1 <= feats)%nat.

Lemma cloud_nrows : nrows xb = feats.
Proof. apply Hshape. Qed.

Lemma cloud_ncols : ncols xb = num_pts.
Proof. apply (shape_ncols xb feats); [exact Hshape|lia]. Qed.

Lemma nrows_inner1 : nrows (inner1 xb) = num_pts.
Proof.
  unfold inner1, matmul, transpose.
  now rewrite nrows_map_entries, !nrows_tabulate, cloud_ncols.
Qed.

Lemma ncols_inner1 : (0 < num_pts)%nat -> ncols (inner1 xb) = num_pts.
Proof.
  intros HN. unfold inner1, matmul, transpose.
  rewrite ncols_map_entries, !nrows_tabulate, cloud_ncols.
  now apply ncols_tabulate.
Qed.

Lemma get_inner1 (i j : nat) :
  (i < num_pts)%nat -> (j < num_pts)%nat ->
  get (inner1 xb) i j = -2 * rsum feats (fun d => get xb d i * get xb d j).
Proof.
  intros Hi Hj. unfold inner1.
  rewrite get_map_entries by lra.
  unfold matmul, transpose.
  rewrite !nrows_tabulate, cloud_ncols, cloud_nrows.
  rewrite get_tabulate by assumption.
  rewrite ncols_tabulate by lia.
  f_equal. apply rsum_ext. intros d Hd.
  now rewrite get_tabulate.
Qed.

Lemma ncols_xx1 : ncols (xx1 xb) = num_pts.
Proof.
  unfold xx1. cbn. now rewrite length_map, length_seq, ncols_map_entries, cloud_ncols.
Qed.

Lemma get_xx1 (j : nat) :
  (j < num_pts)%nat ->
  get (xx1 xb) 0 j = rsum feats (fun d => get xb d j ^ 2).
Proof.
  intros Hj. unfold xx1, get. cbn [sum_rows_keepdim nth].
  rewrite ncols_map_entries, cloud_ncols.
  rewrite (nth_map_seq (colsum (map_entries (fun a => a ^ 2) xb))) by exact Hj.
  unfold colsum. rewrite nrows_map_entries, cloud_nrows.
  apply rsum_ext. intros d Hd. apply get_map_entries. lra.
Qed.

Lemma nrows_pairwise_distance1 : nrows (pairwise_distance1 xb) = num_pts.
Proof.
  unfold pairwise_distance1.
  rewrite !nrows_broadcast, nrows_inner1, nrows_map_entries.
  unfold transpose. rewrite nrows_tabulate, ncols_xx1.
  change (nrows (xx1 xb)) with 1%nat. cbn [bdim Nat.eqb].
  apply bdim_same.
Qed.

Lemma pairwise_distance1_row (i : nat) :
  (i < num_pts)%nat ->
  length (nth i (pairwise_distance1 xb) []) = num_pts /\
  forall j, (j < num_pts)%nat ->
    nth j (nth i (pairwise_distance1 xb) []) 0 = - sqdist xb i j.
Proof.
  intros Hi.
  assert (HN : (0 < num_pts)%nat) by lia.
  set (A := broadcast Rminus (map_entries Ropp (xx1 xb)) (inner1 xb)).
  assert (HrA : nrows A = num_pts).
  { unfold A. rewrite nrows_broadcast, nrows_inner1, nrows_map_entries.
    reflexivity. }
  assert (HcA : ncols A = num_pts).
  { unfold A. rewrite ncols_broadcast.
    - rewrite ncols_map_entries, ncols_xx1, ncols_inner1 by exact HN.
      apply bdim_same.
    - rewrite nrows_inner1, nrows_map_entries. cbn. exact HN. }
  assert (HrT : nrows (transpose (xx1 xb)) = num_pts).
  { unfold transpose. now rewrite nrows_tabulate, ncols_xx1. }
  assert (HcT : ncols (transpose (xx1 xb)) = 1%nat).
  { unfold transpose. rewrite ncols_tabulate; [reflexivity|now rewrite ncols_xx1]. }
  assert (HgA : forall j, (j < num_pts)%nat ->
             get A i j = - get (xx1 xb) 0 j - get (inner1 xb) i j).
  { intros j Hj. unfold A.
    rewrite get_broadcast.
    - rewrite (bget_in (inner1 xb))
        by (rewrite ?nrows_inner1, ?ncols_inner1; assumption).
      unfold bget. rewrite nrows_map_entries, ncols_map_entries, ncols_xx1.
      change (bidx (nrows (xx1 xb)) i) with 0%nat.
      rewrite bidx_lt by exact Hj.
      rewrite get_map_entries by lra. reflexivity.
    - rewrite nrows_inner1, nrows_map_entries. cbn. exact Hi.
    - rewrite ncols_map_entries, ncols_xx1, ncols_inner1, bdim_same; assumption. }
  split.
  { unfold pairwise_distance1. fold A. unfold broadcast.
    rewrite HrA, HcA, HrT, HcT, bdim_same, bdim_one.
    now apply row_length_tabulate. }
  intros j Hj.
  change (get (pairwise_distance1 xb) i j = - sqdist xb i j).
  unfold pairwise_distance1. fold A.
  rewrite get_broadcast
    by (rewrite ?HrA, ?HcA, ?HrT, ?HcT, ?bdim_same, ?bdim_one; assumption).
  rewrite bget_in by (rewrite ?HrA, ?HcA; assumption).
  unfold bget at 1. rewrite HrT, HcT. change (bidx 1 j) with 0%nat.
  rewrite bidx_lt by exact Hi.
  unfold transpose. rewrite ncols_xx1. change (nrows (xx1 xb)) with 1%nat.
  rewrite get_tabulate by lia.
  rewrite HgA, get_inner1, !get_xx1 by assumption.
  unfold sqdist. rewrite cloud_nrows, rsum_sq_diff. ring.
Qed.

End OneCloud.

End PairwiseDistance.

(** ** [knn] returns the nearest neighbours *)

Section KnnFacts.

Lemma mapM_spec {A B : Type} (f : A -> option B) (d : A) (d' : B)
    (l : list A) (P : nat -> B -> Prop) :
  (forall i, (i < length l)%nat -> exists b, f (nth i l d) = Some b /\ P i b) ->
  exists r, mapM f l = Some r /\ length r = length l /\
            forall i, (i < length l)%nat -> P i (nth i r d').
Proof.
  revert P. induction l as [|a l IH]; intros P H.
  - exists []. cbn. repeat split; intros; lia.
  - destruct (H 0%nat) as [b [Hb HP]]; [cbn; lia|].
    destruct (IH (fun i => P (S i))) as [r [Hr [Hlen HPr]]].
    { intros i Hi. apply (H (S i)). cbn. lia. }
    exists (b :: r). cbn in *. rewrite Hb. cbn. rewrite Hr. cbn.
    repeat split; [now rewrite Hlen|].
    intros [|i] Hi; [exact HP|apply HPr; lia].
Qed.

Lemma mapM_length {A B : Type} (f : A -> option B) (l : list A) (r : list B) :
  mapM f l = Some r -> length r = length l.
Proof.
  revert r. induction l as [|a l IH]; intros r; cbn.
  - intros [= <-]. reflexivity.
  - destruct (f a); cbn; [|discriminate].
    destruct (mapM f l) as [bs|]; cbn; [|discriminate].
    intros [= <-]. cbn. now rewrite (IH bs).
Qed.

Lemma mapM_nth {A B : Type} (f : A -> option B) (d : A) (d' : B)
    (l : list A) (r : list B) (i : nat) :
  mapM f l = Some r -> (i < length l)%nat -> f (nth i l d) = Some (nth i r d').
Proof.
  revert r i. induction l as [|a l IH]; intros r i; cbn; [lia|].
  destruct (f a) eqn:Ea; cbn; [|discriminate].
  destruct (mapM f l) as [bs|]; cbn; [|discriminate].
  intros [= <-] Hi. destruct i as [|i]; [exact Ea|].
  cbn. apply IH; [reflexivity|lia].
Qed.

Lemma Forall_at {A : Type} (P : A -> Prop) (l : list A) (i : nat) (d : A) :
  Forall P l -> (i < length l)%nat -> P (nth i l d).
Proof.
  intros Hf Hi. rewrite Forall_forall in Hf. apply Hf. now apply nth_In.
Qed.

Lemma shape3_nth (x : tensor3) (bsize feats num_pts b : nat) :
  shape3 x bsize feats num_pts -> (b < bsize)%nat ->
  shape (nth b x []) feats num_pts.
Proof.
  intros [Hl Hf] Hb. apply Forall_at; [exact Hf|lia].
Qed.

Lemma Forall_nth_lt (l : list nat) (n a : nat) :
  Forall (fun i => (i < n)%nat) l -> (a < length l)%nat -> (nth a l 0 < n)%nat.
Proof.
  intros Hf Ha. now apply (Forall_at _ l a 0%nat Hf).
Qed.

Lemma is_topk_k_nearest (xb : matrix) (feats num_pts i k : nat) (nb : list nat) :
  shape xb feats num_pts -> (1 <= feats)%nat -> (i < num_pts)%nat ->
  is_topk k (nth i (pairwise_distance1 xb) []) nb ->
  k_nearest xb num_pts i k nb.
Proof.
  intros Hs Hf Hi (Hlen & Hnd & Hlt & Hsorted & Hout).
  destruct (pairwise_distance1_row xb feats num_pts Hs Hf i Hi) as [Hrl Hrow].
  rewrite Hrl in *.
  repeat split; try assumption.
  - intros a b Hab.
    pose proof (Hsorted a b Hab) as H.
    rewrite !Hrow in H by (apply Forall_nth_lt; [assumption|lia]). lra.
  - intros j m Hj Hnin Hin.
    pose proof (Hout j m Hj Hnin Hin) as H.
    rewrite Forall_forall in Hlt.
    rewrite !Hrow in H; [lra| |assumption].
    now apply Hlt.
Qed.

Lemma knn_cloud (topk : nat -> list R -> option (list nat))
    (xb : matrix) (feats num_pts k : nat) :
  topk_contract topk ->
  shape xb feats num_pts -> (1 <= feats)%nat -> (k <= num_pts)%nat ->
  exists rows,
    mapM (topk k) (pairwise_distance1 xb) = Some rows /\
    length rows = num_pts /\
    forall i, (i < num_pts)%nat ->
      is_topk k (nth i (pairwise_distance1 xb) []) (nth i rows []).
Proof.
  intros Ht Hs Hf Hk.
  pose proof (nrows_pairwise_distance1 xb feats num_pts Hs Hf) as Hn.
  unfold nrows in Hn.
  destruct (mapM_spec (topk k) [] [] (pairwise_distance1 xb)
              (fun i nb => is_topk k (nth i (pairwise_distance1 xb) []) nb))
    as [rows [Hr [Hl HP]]].
  - intros i Hi. rewrite Hn in Hi.
    destruct (pairwise_distance1_row xb feats num_pts Hs Hf i Hi) as [Hrl _].
    apply (topk_returns topk Ht). lia.
  - exists rows. rewrite Hn in *. auto.
Qed.

Lemma knn_returns (topk : nat -> list R -> option (list nat))
    (x : tensor3) (bsize feats num_pts k : nat) :
  topk_contract topk ->
  shape3 x bsize feats num_pts -> (1 <= feats)%nat -> (k <= num_pts)%nat ->
  exists idx,
    knn topk x k = Some idx /\
    length idx = bsize /\
    forall b, (b < bsize)%nat ->
      length (nth b idx []) = num_pts /\
      forall i, (i < num_pts)%nat ->
        is_topk k (nth i (pairwise_distance1 (nth b x [])) [])
                (nth i (nth b idx []) []).
Proof.
  intros Ht Hx Hf Hk. rewrite knn_per_cloud.
  destruct Hx as [Hl Hx].
  destruct (mapM_spec (fun xb => mapM (topk k) (pairwise_distance1 xb)) [] [] x
              (fun b rows =>
                 length rows = num_pts /\
                 forall i, (i < num_pts)%nat ->
                   is_topk k (nth i (pairwise_distance1 (nth b x [])) [])
                           (nth i rows [])))
    as [idx [Hr [Hlen HP]]].
  - intros b Hb.
    apply (knn_cloud topk (nth b x []) feats num_pts k); try assumption.
    now apply Forall_at.
  - exists idx. rewrite Hl in *. auto.
Qed.

End KnnFacts.

Lemma knn_nearest_spec (topk : nat -> list R -> option (list nat))
    (x : tensor3) (bsize feats numPoints k : nat) :
  topk_contract topk ->
  shape3 x bsize feats numPoints -> (1 <= feats)%nat -> (k <= numPoints)%nat ->
  exists idx,
    knn topk x k = Some idx /\
    length idx = bsize /\
    forall b, (b < bsize)%nat ->
      length (nth b idx []) = numPoints /\
      forall i, (i < numPoints)%nat ->
        k_nearest (nth b x []) numPoints i k (nth i (nth b idx []) []).
Proof.
  intros Ht Hx Hf Hk.
  destruct (knn_returns topk x bsize feats numPoints k Ht Hx Hf Hk)
    as [idx [Hidx [Hlen Hb]]].
  exists idx. split; [exact Hidx|]. split; [exact Hlen|].
  intros b Hlt. destruct (Hb b Hlt) as [Hrows Hi']. split; [exact Hrows|].
  intros i Hi.
  apply (is_topk_k_nearest (nth b x []) feats numPoints i k); auto.
  now apply (shape3_nth x bsize).
Qed.


(** ** [topk_sorted] meets the contract of [torch.topk] *)

Section TopkSorted.

Variable v : list R.

Lemma insert_desc_perm (i : nat) (l : list nat) :
  Permutation (insert_desc v i l) (i :: l).
Proof.
  induction l as [|j l IH]; cbn; [apply Permutation_refl|].
  destruct (Rlt_dec _ _); [|apply Permutation_refl].
  eapply perm_trans; [apply perm_skip, IH|apply perm_swap].
Qed.

Lemma sort_desc_perm : Permutation (sort_desc v) (seq 0 (length v)).
Proof.
  unfold sort_desc. induction (seq 0 (length v)) as [|i l IH]; cbn.
  - apply Permutation_refl.
  - eapply perm_trans; [apply insert_desc_perm|now apply perm_skip].
Qed.

Lemma insert_desc_sorted (i : nat) (l : list nat) :
  StronglySorted (desc v) l -> StronglySorted (desc v) (insert_desc v i l).
Proof.
  induction l as [|j l IH]; intros Hs; cbn.
  - constructor; constructor.
  - apply StronglySorted_inv in Hs. destruct Hs as [Hs Hj].
    destruct (Rlt_dec (nth i v 0) (nth j v 0)) as [Hlt|Hge].
    + constructor; [now apply IH|].
      eapply Permutation_Forall;
        [apply Permutation_sym, insert_desc_perm|].
      constructor; [unfold desc; lra|exact Hj].
    + constructor; [now constructor|].
      constructor; [unfold desc; lra|].
      eapply Forall_impl; [|exact Hj]. unfold desc. intros m Hm. lra.
Qed.

Lemma sort_desc_sorted : StronglySorted (desc v) (sort_desc v).
Proof.
  unfold sort_desc. induction (seq 0 (length v)) as [|i l IH]; cbn.
  - constructor.
  - now apply insert_desc_sorted.
Qed.

Lemma sorted_app_cross (l1 l2 : list nat) (a b : nat) :
  StronglySorted (desc v) (l1 ++ l2) -> In a l1 -> In b l2 -> (desc v) a b.
Proof.
  induction l1 as [|c l1 IH]; intros Hs Ha Hb; [contradiction|].
  cbn in Hs. apply StronglySorted_inv in Hs. destruct Hs as [Hs Hc].
  destruct Ha as [->|Ha]; [|now apply IH].
  rewrite Forall_forall in Hc. apply Hc, in_or_app. now right.
Qed.

Lemma sorted_nth (l : list nat) (a b : nat) :
  StronglySorted (desc v) l -> (a < b < length l)%nat ->
  (desc v) (nth a l 0%nat) (nth b l 0%nat).
Proof.
  revert a b. induction l as [|c l IH]; intros a b Hs Hab; cbn in Hab; [lia|].
  apply StronglySorted_inv in Hs. destruct Hs as [Hs Hc].
  destruct b as [|b]; [lia|]. destruct a as [|a]; cbn.
  - rewrite Forall_forall in Hc. apply Hc, nth_In. lia.
  - apply IH; [exact Hs|lia].
Qed.

Lemma topk_sorted_is_topk (k : nat) :
  (k <= length v)%nat -> is_topk k v (firstn k (sort_desc v)).
Proof.
  intros Hk.
  pose proof sort_desc_perm as Hp.
  pose proof sort_desc_sorted as Hs.
  pose proof (Permutation_length Hp) as Hl. rewrite length_seq in Hl.
  assert (Hnd : NoDup (sort_desc v)).
  { eapply Permutation_NoDup; [apply Permutation_sym, Hp|apply seq_NoDup]. }
  rewrite <- (firstn_skipn k (sort_desc v)) in Hs, Hnd.
  repeat split.
  - rewrite length_firstn. lia.
  - eapply NoDup_app_remove_r, Hnd.
  - apply Forall_forall. intros i Hi.
    assert (Hin : In i (seq 0 (length v))).
    { eapply Permutation_in; [exact Hp|].
      rewrite <- (firstn_skipn k). apply in_or_app. now left. }
    apply in_seq in Hin. lia.
  - intros a b Hab.
    rewrite !nth_firstn.
    destruct (Nat.ltb_spec a k); [|lia]. destruct (Nat.ltb_spec b k); [|lia].
    apply sorted_nth; [|lia]. rewrite <- (firstn_skipn k). exact Hs.
  - intros j m Hj Hnin Hin.
    apply (sorted_app_cross _ _ m j Hs Hin).
    assert (Hjs : In j (sort_desc v)).
    { eapply Permutation_in; [apply Permutation_sym, Hp|].
      apply in_seq. lia. }
    rewrite <- (firstn_skipn k) in Hjs. apply in_app_or in Hjs.
    now destruct Hjs.
Qed.

End TopkSorted.

Lemma topk_sorted_contract : topk_contract topk_sorted.
Proof.
  split; intros k v Hk; unfold topk_sorted.
  - destruct (Nat.leb_spec k (length v)); [|lia].
    eexists. split; [reflexivity|]. now apply topk_sorted_is_topk.
  - destruct (Nat.leb_spec k (length v)); [lia|reflexivity].
Qed.


(** ** The flattened neighbour index *)

Section FlatIndex.

Lemma nth_map_in {A B : Type} (f : A -> B) (l : list A) (i : nat) (d : A) (d' : B) :
  (i < length l)%nat -> nth i (map f l) d' = f (nth i l d).
Proof.
  intros Hi. rewrite (nth_indep _ d' (f d)) by (now rewrite length_map).
  apply map_nth.
Qed.

Lemma concat_nth_uniform {A : Type} (l : list (list A)) (k i a : nat) (d : A) :
  Forall (fun r => length r = k) l -> (i < length l)%nat -> (a < k)%nat ->
  nth (i * k + a) (concat l) d = nth a (nth i l []) d.
Proof.
  revert i. induction l as [|r l IH]; intros i Hl Hi Ha; cbn in Hi; [lia|].
  inversion Hl as [|? ? Hr Hl']; subst. cbn [concat].
  destruct i as [|i]; cbn [nth].
  - cbn. now apply app_nth1.
  - rewrite app_nth2 by lia.
    replace (S i * length r + a - length r)%nat with (i * length r + a)%nat by lia.
    apply IH; [exact Hl'|lia|exact Ha].
Qed.

Lemma concat_length_uniform {A : Type} (l : list (list A)) (k : nat) :
  Forall (fun r => length r = k) l -> length (concat l) = (length l * k)%nat.
Proof.
  induction 1 as [|r l Hr Hl IH]; cbn; [reflexivity|].
  rewrite length_app, IH, Hr. reflexivity.
Qed.

Lemma nth_zip_with {A B C : Type} (f : A -> B -> C) (l1 : list A) (l2 : list B)
    (i : nat) (da : A) (db : B) (dc : C) :
  (i < length l1)%nat -> (i < length l2)%nat ->
  nth i (zip_with f l1 l2) dc = f (nth i l1 da) (nth i l2 db).
Proof.
  revert l2 i. induction l1 as [|a l1 IH]; intros [|b l2] i H1 H2; cbn in *; try lia.
  destruct i as [|i]; [reflexivity|]. apply IH; lia.
Qed.

Lemma length_zip_with {A B C : Type} (f : A -> B -> C) (l1 : list A) (l2 : list B) :
  length (zip_with f l1 l2) = Nat.min (length l1) (length l2).
Proof.
  revert l2. induction l1 as [|a l1 IH]; intros [|b l2]; cbn; auto.
Qed.

Lemma index_shape_nth (idx : index_tensor) (bsize num_pts k b i : nat) :
  index_shape idx bsize num_pts k -> (b < bsize)%nat -> (i < num_pts)%nat ->
  length (nth b idx []) = num_pts /\ length (nth i (nth b idx []) []) = k.
Proof.
  intros [Hl Hf] Hb Hi.
  destruct (Forall_at _ idx b [] Hf) as [Hr Hn]; [lia|].
  split; [exact Hr|]. apply (Forall_at _ _ i [] Hn). lia.
Qed.

Lemma nth_add_idx_base (idx : index_tensor) (num_pts b : nat) :
  (b < length idx)%nat ->
  nth b (add_idx_base num_pts idx) []
  = map (map (fun i => (i + b * num_pts)%nat)) (nth b idx []).
Proof.
  intros Hb. unfold add_idx_base.
  rewrite (nth_zip_with _ _ _ b 0%nat [])
    by (rewrite ?length_map, ?length_seq; exact Hb).
  now rewrite (nth_map_seq (fun b => (b * num_pts)%nat)).
Qed.

Lemma length_add_idx_base (idx : index_tensor) (num_pts : nat) :
  length (add_idx_base num_pts idx) = length idx.
Proof.
  unfold add_idx_base. rewrite length_zip_with, length_map, length_seq. lia.
Qed.

Lemma add_idx_base_shape (idx : index_tensor) (bsize num_pts k : nat) :
  index_shape idx bsize num_pts k ->
  index_shape (add_idx_base num_pts idx) bsize num_pts k.
Proof.
  intros [Hl Hf]. split; [now rewrite length_add_idx_base|].
  apply Forall_forall. intros rows Hin.
  destruct (In_nth _ _ [] Hin) as [b [Hb <-]].
  rewrite length_add_idx_base in Hb. rewrite nth_add_idx_base by exact Hb.
  destruct (Forall_at _ idx b [] Hf Hb) as [Hr Hn].
  split; [now rewrite length_map|].
  apply Forall_forall. intros nb Hnb. apply in_map_iff in Hnb.
  destruct Hnb as [nb' [<- Hnb']]. rewrite length_map.
  rewrite Forall_forall in Hn. now apply Hn.
Qed.

Lemma nth_flatten3 {A : Type} (t : list (list (list A)))
    (bsize num_pts k b i a : nat) (d : A) :
  length t = bsize ->
  Forall (fun rows => length rows = num_pts /\
                      Forall (fun nb => length nb = k) rows) t ->
  (b < bsize)%nat -> (i < num_pts)%nat -> (a < k)%nat ->
  nth ((b * num_pts + i) * k + a) (flatten3 t) d
  = nth a (nth i (nth b t []) []) d.
Proof.
  intros Hl Hf Hb Hi Ha. unfold flatten3.
  replace ((b * num_pts + i) * k + a)%nat
    with (b * (num_pts * k) + (i * k + a))%nat by lia.
  destruct (Forall_at _ t b [] Hf) as [Hr Hn]; [lia|].
  rewrite concat_nth_uniform.
  - rewrite (nth_map_in _ t b []) by lia.
    apply concat_nth_uniform; [exact Hn|lia|exact Ha].
  - apply Forall_forall. intros r Hr'. apply in_map_iff in Hr'.
    destruct Hr' as [rows [<- Hrows]].
    rewrite Forall_forall in Hf. destruct (Hf rows Hrows) as [Hr1 Hr2].
    now rewrite (concat_length_uniform rows k Hr2), Hr1.
  - rewrite length_map. lia.
  - nia.
Qed.

Lemma nth_flat_index (idx : index_tensor) (bsize num_pts k b i a : nat) :
  index_shape idx bsize num_pts k ->
  (b < bsize)%nat -> (i < num_pts)%nat -> (a < k)%nat ->
  nth ((b * num_pts + i) * k + a) (flatten3 (add_idx_base num_pts idx)) 0%nat
  = (nth a (nth i (nth b idx []) []) 0 + b * num_pts)%nat.
Proof.
  intros Hs Hb Hi Ha.
  destruct (add_idx_base_shape idx bsize num_pts k Hs) as [Hl Hf].
  rewrite (nth_flatten3 _ bsize num_pts k) by assumption.
  destruct Hs as [Hl' Hf'].
  rewrite nth_add_idx_base by lia.
  destruct (Forall_at _ idx b [] Hf') as [Hr Hn]; [lia|].
  rewrite (nth_map_in _ _ i []) by lia.
  rewrite (nth_map_in _ _ a 0%nat); [reflexivity|].
  rewrite (Forall_at _ _ i [] Hn); lia.
Qed.

End FlatIndex.

(** ** The self-neighbour property *)

Section SelfNeighbour.

Lemma sqdist_self (xb : matrix) (i : nat) : sqdist xb i i = 0.
Proof. unfold sqdist. apply rsum_zero. intros d _. ring. Qed.

Lemma sqdist_nonneg (xb : matrix) (i j : nat) : 0 <= sqdist xb i j.
Proof. unfold sqdist. apply rsum_nonneg. intros d _. apply pow2_ge_0. Qed.


Lemma k_nearest_index_shape (x : tensor3) (idx : index_tensor)
    (bsize num_pts k : nat) :
  length idx = bsize ->
  (forall b, (b < bsize)%nat ->
     length (nth b idx []) = num_pts /\
     forall i, (i < num_pts)%nat ->
       k_nearest (nth b x []) num_pts i k (nth i (nth b idx []) [])) ->
  index_shape idx bsize num_pts k.
Proof.
  intros Hl H. split; [exact Hl|].
  apply Forall_forall. intros rows Hin.
  destruct (In_nth _ _ [] Hin) as [b [Hb <-]]. rewrite Hl in Hb.
  destruct (H b Hb) as [Hr Hn]. split; [exact Hr|].
  apply Forall_forall. intros nb Hnb.
  destruct (In_nth _ _ [] Hnb) as [i [Hi <-]]. rewrite Hr in Hi.
  apply (Hn i Hi).
Qed.

End SelfNeighbour.

Lemma pairwise_distance1_eq (xb : matrix) (feats num_pts : nat) :
  shape xb feats num_pts -> (1 <= feats)%nat ->
  pairwise_distance1 xb = tabulate num_pts num_pts (fun i j => - sqdist xb i j).
Proof.
  intros Hs Hf.
  pose proof (nrows_pairwise_distance1 xb feats num_pts Hs Hf) as Hn.
  apply (nth_ext _ _ [] []).
  - pose proof (nrows_tabulate num_pts num_pts (fun i j => - sqdist xb i j)) as Ht.
    unfold nrows in Hn, Ht. now rewrite Hn, Ht.
  - intros i Hi. unfold nrows in Hn. rewrite Hn in Hi.
    destruct (pairwise_distance1_row xb feats num_pts Hs Hf i Hi) as [Hl Hrow].
    apply (nth_ext _ _ 0 0).
    + etransitivity; [exact Hl|]. symmetry. now apply row_length_tabulate.
    + intros j Hj.
      assert (Hj' : (j < num_pts)%nat) by (rewrite <- Hl; exact Hj).
      etransitivity; [exact (Hrow j Hj')|].
      symmetry. now apply (get_tabulate num_pts num_pts).
Qed.

Ltac decide_Rlt :=
  repeat match goal with
  | |- context [Rlt_dec ?a ?b] =>
      let H := fresh in destruct (Rlt_dec a b) as [H|H]; [exfalso; lra|]
  | |- context [Rlt_dec ?a ?b] =>
      let H := fresh in destruct (Rlt_dec a b) as [H|H]; [|exfalso; lra]
  end.


(** Whatever the top-k routine, two coincident points get the same
    neighbour list: their rows of the distance matrix are equal. *)
Lemma knn_coincident_any (topk : nat -> list R -> option (list nat))
    (idx : index_tensor) :
  knn topk coincident 1 = Some idx ->
  nth 0 (nth 0 idx []) [] = nth 1 (nth 0 idx []) [].
Proof.
  rewrite knn_per_cloud. unfold coincident. cbn [mapM].
  rewrite (pairwise_distance1_eq _ 3 2) by (repeat constructor).
  assert (E : forall i j, (i < 2)%nat -> (j < 2)%nat ->
            sqdist [[0; 0]; [0; 0]; [0; 0]] i j = 0).
  { intros i j Hi Hj. unfold sqdist, get.
    destruct i as [|[|i]]; [| |lia]; (destruct j as [|[|j]]; [| |lia]);
      cbn; ring. }
  unfold tabulate. cbn [map seq]. rewrite !E by lia. cbn [mapM].
  destruct (topk 1%nat [- 0; - 0]) as [nb|]; [|discriminate].
  cbn [obind]. now intros [= <-].
Qed.




(** ** The structure of [PaiIndexMatrix.forward] *)

Section ForwardStructure.

Variable topk : nat -> list R -> option (list nat).
Hypothesis Htopk : topk_contract topk.

Variable self : PaiIndexMatrix.

Lemma in_flatten3 {A : Type} (t : list (list (list A))) (m : A) :
  In m (flatten3 t) -> exists rows nb, In rows t /\ In nb rows /\ In m nb.
Proof.
  unfold flatten3. intros H. apply in_concat in H.
  destruct H as [l [Hl Hm]]. apply in_map_iff in Hl.
  destruct Hl as [rows [<- Hrows]]. apply in_concat in Hm.
  destruct Hm as [nb [Hnb Hm]]. now exists rows, nb.
Qed.

Lemma length_flatten3 {A : Type} (t : list (list (list A))) (bsize num_pts k : nat) :
  length t = bsize ->
  Forall (fun rows => length rows = num_pts /\
                      Forall (fun nb => length nb = k) rows) t ->
  length (flatten3 t) = (bsize * num_pts * k)%nat.
Proof.
  intros Hl Hf. unfold flatten3.
  rewrite (concat_length_uniform _ (num_pts * k)).
  - rewrite length_map, Hl. lia.
  - apply Forall_forall. intros r Hr. apply in_map_iff in Hr.
    destruct Hr as [rows [<- Hrows]]. rewrite Forall_forall in Hf.
    destruct (Hf rows Hrows) as [H1 H2].
    now rewrite (concat_length_uniform rows k H2), H1.
Qed.

Lemma length_transpose (M : matrix) : length (transpose M) = ncols M.
Proof. exact (nrows_tabulate (ncols M) (nrows M) (fun i j => get M j i)). Qed.

Lemma length_spirals (x : tensor3) (bsize feats num_pts : nat) :
  shape3 x bsize feats num_pts -> (1 <= feats)%nat ->
  length (concat (transpose21 x)) = (bsize * num_pts)%nat.
Proof.
  intros [Hl Hf] Hfe. unfold transpose21.
  rewrite (concat_length_uniform _ num_pts).
  - now rewrite length_map, Hl.
  - apply Forall_forall. intros r Hr. apply in_map_iff in Hr.
    destruct Hr as [xb [<- Hxb]]. rewrite Forall_forall in Hf.
    rewrite length_transpose. apply (cloud_ncols xb feats num_pts); auto.
Qed.

Lemma size2_shape3 (x : tensor3) (bsize feats num_pts : nat) :
  shape3 x bsize feats num_pts -> (1 <= feats)%nat -> (0 < bsize)%nat ->
  size2 x = num_pts.
Proof.
  intros [Hl Hf] Hfe Hb. destruct x as [|xb x]; cbn in Hl; [lia|].
  unfold size2. cbn [hd]. inversion Hf; subst.
  apply (cloud_ncols xb feats num_pts); auto.
Qed.

Lemma length_view_blocks {A : Type} (n k : nat) (rows : list A) :
  length (view_blocks n k rows) = n.
Proof. unfold view_blocks. now rewrite length_map, length_seq. Qed.

Lemma nth_view_blocks {A : Type} (n k p : nat) (rows : list A) :
  (p < n)%nat -> nth p (view_blocks n k rows) [] = firstn k (skipn (p * k) rows).
Proof.
  intros Hp. unfold view_blocks.
  now rewrite (nth_map_seq (fun p => firstn k (skipn (p * k) rows))).
Qed.

Lemma flat_index_bound (idx : index_tensor) (bsize num_pts k : nat) :
  index_shape idx bsize num_pts k ->
  (forall b i, (b < bsize)%nat -> (i < num_pts)%nat ->
     Forall (fun j => (j < num_pts)%nat) (nth i (nth b idx []) [])) ->
  Forall (fun m => (m < bsize * num_pts)%nat)
         (flatten3 (add_idx_base num_pts idx)).
Proof.
  intros Hs Hlt. apply Forall_forall. intros m Hm.
  apply in_flatten3 in Hm. destruct Hm as [rows [nb [Hrows [Hnb Hm]]]].
  destruct (In_nth _ _ [] Hrows) as [b [Hb Eb]].
  rewrite length_add_idx_base in Hb.
  rewrite nth_add_idx_base in Eb by exact Hb. subst rows.
  apply in_map_iff in Hnb. destruct Hnb as [nb0 [<- Hnb0]].
  apply in_map_iff in Hm. destruct Hm as [m0 [<- Hm0]].
  destruct Hs as [Hl Hf]. rewrite Hl in Hb.
  destruct (In_nth _ _ [] Hnb0) as [i [Hi Ei]].
  destruct (Forall_at _ idx b [] Hf) as [Hr _]; [lia|].
  rewrite Hr in Hi. specialize (Hlt b i Hb Hi). rewrite Ei in Hlt.
  rewrite Forall_forall in Hlt. specialize (Hlt m0 Hm0).
  assert (S b * num_pts <= bsize * num_pts)%nat by (apply Nat.mul_le_mono_r; lia).
  lia.
Qed.

Lemma index_rows_returns (spirals : matrix) (l : list nat) :
  Forall (fun m => (m < length spirals)%nat) l ->
  exists rows, index_rows spirals l = Some rows /\ length rows = length l.
Proof.
  intros Hf. unfold index_rows.
  destruct (mapM_spec (nth_error spirals) 0%nat [] l (fun _ _ => True))
    as [rows [Hr [Hl _]]].
  - intros i Hi. pose proof (Forall_at _ l i 0%nat Hf Hi) as Hlt.
    destruct (nth_error spirals (nth i l 0%nat)) eqn:E; [eauto|].
    apply nth_error_None in E. cbn beta in Hlt. lia.
  - now exists rows.
Qed.

Lemma forward_structure (x : tensor3) (bsize feats num_pts : nat) :
  shape3 x bsize feats num_pts -> (1 <= feats)%nat ->
  (pim_k self <= num_pts)%nat ->
  exists idx blocks,
    knn topk x (pim_k self) = Some idx /\
    PaiIndexMatrix_forward topk self x
    = Some (flatten3 (add_idx_base num_pts idx), map (assign self) blocks) /\
    length blocks = (bsize * num_pts)%nat /\
    Forall (fun S => length S = pim_k self) blocks /\
    Forall (fun m => (m < bsize * num_pts)%nat)
           (flatten3 (add_idx_base num_pts idx)).
Proof.
  intros Hx Hfe Hk.
  destruct (knn_nearest_spec topk x bsize feats num_pts (pim_k self) Htopk Hx Hfe Hk)
    as [idx [Hidx [Hlen Hb]]].
  pose proof (k_nearest_index_shape x idx bsize num_pts _ Hlen Hb) as Hs.
  assert (Hflat : flatten3 (add_idx_base (size2 x) idx)
                  = flatten3 (add_idx_base num_pts idx)).
  { destruct (Nat.eq_dec bsize 0) as [E|E].
    - subst bsize. destruct idx; [reflexivity|discriminate].
    - now rewrite (size2_shape3 x bsize feats num_pts) by (assumption || lia). }
  assert (Hbound : Forall (fun m => (m < length (concat (transpose21 x)))%nat)
                          (flatten3 (add_idx_base num_pts idx))).
  { rewrite (length_spirals x bsize feats num_pts) by assumption.
    apply (flat_index_bound idx bsize num_pts (pim_k self) Hs).
    intros b i Hlt Hi. destruct (Hb b Hlt) as [_ Hn]. apply (Hn i Hi). }
  destruct (index_rows_returns _ _ Hbound) as [rows [Hrows Hrl]].
  destruct (add_idx_base_shape idx bsize num_pts _ Hs) as [Hal Haf].
  rewrite (length_flatten3 _ bsize num_pts (pim_k self) Hal Haf) in Hrl.
  exists idx, (view_blocks (size0 x * size2 x) (pim_k self) rows).
  split; [exact Hidx|].
  assert (Hn : (size0 x * size2 x = bsize * num_pts)%nat).
  { pose proof Hx as [Hl _]. unfold size0. rewrite Hl.
    destruct (Nat.eq_dec bsize 0) as [E|E]; [now rewrite E|].
    rewrite (size2_shape3 x bsize feats num_pts Hx Hfe); lia. }
  split; [|split; [|split]].
  4: { now rewrite (length_spirals x bsize feats num_pts) in Hbound. }
  - unfold PaiIndexMatrix_forward. rewrite Hidx. cbn [obind].
    rewrite Hflat, Hrows. cbn [obind]. unfold topkmax, assign, affinity.
    now rewrite !map_map.
  - now rewrite length_view_blocks.
  - apply Forall_forall. intros S HS.
    destruct (In_nth _ _ [] HS) as [p [Hp <-]].
    rewrite length_view_blocks in Hp. rewrite nth_view_blocks by exact Hp.
    rewrite length_firstn, length_skipn, Hrl. nia.
Qed.

End ForwardStructure.

(** ** The centre tap of the assignment matrix *)


Section InitFacts.

Lemma get_zeros (r c i j : nat) : get (zeros r c) i j = 0.
Proof.
  unfold zeros.
  destruct (Nat.lt_ge_cases i r) as [Hi|Hi];
    [destruct (Nat.lt_ge_cases j c) as [Hj|Hj]|].
  - now rewrite get_tabulate.
  - now rewrite get_tabulate_out by auto.
  - now rewrite get_tabulate_out by auto.
Qed.

Lemma set00_spec (M M' : matrix) (a : R) :
  set00 M a = Some M' ->
  get M' 0 0 = a /\
  (forall i j, (i <> 0 \/ j <> 0)%nat -> get M' i j = get M i j) /\
  nrows M' = nrows M /\ ncols M' = ncols M /\
  (0 < nrows M)%nat /\ (0 < ncols M)%nat.
Proof.
  destruct M as [|[|b row] M]; cbn; try discriminate.
  intros [= <-]. cbn. repeat split; try lia.
  intros [|i] [|j] H; try reflexivity. lia.
Qed.

Variables (k : nat) (temp_factor : R) (kernel_size : nat)
          (temp_net : TemperatureNet) (self : PaiIndexMatrix).
Hypothesis Hinit : PaiIndexMatrix_init k temp_factor kernel_size temp_net = Some self.

Lemma init_inv :
  exists points one_padding,
    fibonacci_sphere 0 kernel_size false = Some points /\
    set00 (zeros k kernel_size) 1 = Some one_padding /\
    self = {| pim_k := k; pim_temp_factor := temp_factor;
              pim_kernel_size := kernel_size; pim_kernels := transpose points;
              pim_one_padding := one_padding; pim_temp_net := temp_net |}.
Proof.
  unfold PaiIndexMatrix_init in Hinit.
  destruct (fibonacci_sphere 0 kernel_size false) as [points|]; [|discriminate].
  cbn [obind] in Hinit.
  destruct (set00 (zeros k kernel_size) 1) as [op|]; [|discriminate].
  cbn [obind] in Hinit. injection Hinit as <-. now exists points, op.
Qed.

Lemma init_k : pim_k self = k.
Proof. destruct init_inv as (p & op & _ & _ & ->). reflexivity. Qed.

Lemma init_sizes : (1 <= k)%nat /\ (1 <= kernel_size)%nat.
Proof.
  destruct init_inv as (p & op & _ & Hop & _).
  apply set00_spec in Hop. destruct Hop as (_ & _ & _ & _ & Hr & Hc).
  unfold zeros in Hr, Hc. rewrite nrows_tabulate in Hr.
  rewrite ncols_tabulate in Hc by exact Hr. lia.
Qed.

Lemma init_one_padding :
  nrows (pim_one_padding self) = k /\
  ncols (pim_one_padding self) = kernel_size /\
  get (pim_one_padding self) 0 0 = 1 /\
  forall i j, (i <> 0 \/ j <> 0)%nat -> get (pim_one_padding self) i j = 0.
Proof.
  destruct init_sizes as [Hk Hks].
  destruct init_inv as (p & op & _ & Hop & ->). cbn [pim_one_padding].
  apply set00_spec in Hop. destruct Hop as (H00 & Hrest & Hr & Hc & _).
  unfold zeros in Hr, Hc. rewrite nrows_tabulate in Hr.
  rewrite ncols_tabulate in Hc by lia.
  repeat split; try assumption.
  intros i j Hij. rewrite Hrest by exact Hij. apply get_zeros.
Qed.

Lemma init_kernels :
  nrows (pim_kernels self) = 3%nat /\
  ncols (pim_kernels self) = kernel_size /\
  forall l, get (pim_kernels self) l 0 = 0.
Proof.
  destruct init_sizes as [Hk Hks].
  destruct init_inv as (p & op & Hp & _ & ->). cbn [pim_kernels].
  rewrite fibonacci_sphere_eq in Hp by exact Hks. injection Hp as <-.
  unfold transpose. cbn [ncols nrows length].
  rewrite length_map, length_seq.
  replace (S (kernel_size - 1)) with kernel_size by lia.
  split; [apply nrows_tabulate|]. split; [apply ncols_tabulate; lia|].
  intros l. destruct (Nat.lt_ge_cases l 3) as [Hl|Hl].
  - rewrite get_tabulate by lia. unfold get. cbn [nth].
    destruct l as [|[|[|l]]]; cbn; try reflexivity. lia.
  - now rewrite get_tabulate_out by auto.
Qed.

End InitFacts.

Section CenterTap.

Variables (k kernel_size : nat) (self : PaiIndexMatrix).
Hypothesis Hk : (1 <= k)%nat.
Hypothesis Hks : (1 <= kernel_size)%nat.
Hypothesis Hop_rows : nrows (pim_one_padding self) = k.
Hypothesis Hop_cols : ncols (pim_one_padding self) = kernel_size.
Hypothesis Hop_00 : get (pim_one_padding self) 0 0 = 1.
Hypothesis Hop_rest :
  forall i j, (i <> 0 \/ j <> 0)%nat -> get (pim_one_padding self) i j = 0.
Hypothesis Hker_cols : ncols (pim_kernels self) = kernel_size.
Hypothesis Hker_0 : forall l, get (pim_kernels self) l 0 = 0.

Variable S : matrix.
Hypothesis HS : length S = k.

Let x_relative := broadcast Rminus S (firstn 1 S).
Let raw := matmul x_relative (pim_kernels self).
Let biased := broadcast Rplus raw (pim_one_padding self).
Let clipped := where_gt 0 biased.


Lemma nrows_x_relative : nrows x_relative = k.
Proof.
  subst x_relative. rewrite nrows_broadcast.
  destruct S as [|r S']; cbn in HS; [lia|].
  unfold nrows. cbn [firstn length]. rewrite bdim_one. exact HS.
Qed.


Lemma nrows_raw : nrows raw = k.
Proof. subst raw. unfold matmul. now rewrite nrows_tabulate, nrows_x_relative. Qed.

Lemma ncols_raw : ncols raw = kernel_size.
Proof.
  subst raw. unfold matmul. rewrite nrows_x_relative, Hker_cols.
  apply ncols_tabulate. lia.
Qed.


Lemma raw_col0 (i : nat) : get raw i 0 = 0.
Proof.
  subst raw. unfold matmul. rewrite nrows_x_relative, Hker_cols.
  destruct (Nat.lt_ge_cases i k) as [Hi|Hi].
  - rewrite get_tabulate by (assumption || lia).
    apply rsum_zero. intros l _. rewrite Hker_0. ring.
  - now rewrite get_tabulate_out by auto.
Qed.



Lemma get_biased (i j : nat) :
  (i < k)%nat -> (j < kernel_size)%nat ->
  get biased i j = get raw i j + get (pim_one_padding self) i j.
Proof.
  intros Hi Hj. subst biased.
  rewrite get_broadcast
    by (rewrite ?nrows_raw, ?ncols_raw, ?Hop_rows, ?Hop_cols, ?bdim_same; assumption).
  rewrite !bget_in
    by (rewrite ?nrows_raw, ?ncols_raw, ?Hop_rows, ?Hop_cols; assumption).
  reflexivity.
Qed.

Lemma get_biased_out (i j : nat) :
  (k <= i)%nat \/ (kernel_size <= j)%nat -> get biased i j = 0.
Proof.
  intros H. subst biased. unfold broadcast.
  rewrite nrows_raw, ncols_raw, Hop_rows, Hop_cols, !bdim_same.
  now apply get_tabulate_out.
Qed.



Lemma get_clipped (i j : nat) :
  get clipped i j = if Rgt_dec (get biased i j) 0 then get biased i j else 0.
Proof. subst clipped. apply get_where_gt. lra. Qed.







End CenterTap.

(** ** The assignment matrix returned by [forward] *)

Lemma init_returns (k : nat) (temp_factor : R) (kernel_size : nat)
    (temp_net : TemperatureNet) :
  (1 <= k)%nat -> (1 <= kernel_size)%nat ->
  exists self, PaiIndexMatrix_init k temp_factor kernel_size temp_net = Some self.
Proof.
  intros Hk Hks. unfold PaiIndexMatrix_init.
  rewrite fibonacci_sphere_eq by exact Hks. cbn [obind].
  destruct k as [|k]; [lia|]. destruct kernel_size as [|ks]; [lia|].
  unfold zeros, tabulate. cbn [seq map set00 obind]. eauto.
Qed.





(** ** Column sums of the assignment matrix *)

Section ColumnSums.

Variable P : matrix.
Hypothesis HP : nonneg P.

Let Sq := square (normalize P).

Lemma get_prethreshold (i j : nat) :
  get (prethreshold P) i j = get Sq i j / (colsum Sq j + eps).
Proof.
  unfold prethreshold. fold Sq.
  destruct (Nat.lt_ge_cases i (nrows Sq)) as [Hi|Hi];
    [destruct (Nat.lt_ge_cases j (ncols Sq)) as [Hj|Hj]|].
  - now apply get_normalize.
  - rewrite get_normalize_out by auto.
    subst Sq. rewrite ncols_square in Hj.
    rewrite (get_square_out _ i j) by auto. unfold Rdiv. ring.
  - rewrite get_normalize_out by auto.
    subst Sq. rewrite nrows_square in Hi.
    rewrite (get_square_out _ i j) by auto. unfold Rdiv. ring.
Qed.

Lemma colsum_prethreshold (j : nat) :
  colsum (prethreshold P) j = colsum Sq j / (colsum Sq j + eps).
Proof.
  unfold colsum at 1. unfold prethreshold at 1. fold Sq.
  rewrite nrows_normalize.
  rewrite (rsum_ext _ _ (fun i => get Sq i j * / (colsum Sq j + eps)))
    by (intros i _; apply get_prethreshold).
  now rewrite rsum_scale.
Qed.

Lemma colsum_prethreshold_range (j : nat) :
  0 <= colsum (prethreshold P) j < 1.
Proof.
  rewrite colsum_prethreshold.
  pose proof (colsum_nonneg Sq j (nonneg_square _)). pose proof eps_pos.
  split; [apply div_nonneg|apply div_lt_1]; lra.
Qed.

Lemma topkmax1_prethreshold : topkmax1 P = where_gt (1 / 10) (prethreshold P).
Proof. reflexivity. Qed.

Lemma colsum_topkmax1 (j : nat) :
  0 <= colsum (topkmax1 P) j <= colsum (prethreshold P) j.
Proof.
  rewrite topkmax1_prethreshold. unfold colsum, where_gt.
  rewrite nrows_map_entries.
  assert (Hq : forall i, 0 <= get (prethreshold P) i j).
  { intros i. apply (normalize_range _ i j (nonneg_square _)). }
  split.
  - apply rsum_nonneg. intros i _.
    change (map_entries _ (prethreshold P)) with (where_gt (1 / 10) (prethreshold P)).
    rewrite get_where_gt by lra. specialize (Hq i). destruct (Rgt_dec _ _); lra.
  - apply rsum_le. intros i _.
    change (map_entries _ (prethreshold P)) with (where_gt (1 / 10) (prethreshold P)).
    rewrite get_where_gt by lra. specialize (Hq i). destruct (Rgt_dec _ _); lra.
Qed.

End ColumnSums.

Lemma where_gt_nonneg (c : R) (M : matrix) : 0 <= c -> nonneg (where_gt c M).
Proof.
  intros Hc i j. rewrite get_where_gt by exact Hc. destruct (Rgt_dec _ _); lra.
Qed.

Lemma affinity_nonneg (self : PaiIndexMatrix) (S : matrix) :
  nonneg (affinity self S).
Proof. apply where_gt_nonneg. lra. Qed.


(** ** Clouds of two points *)

Section PairCloud.

Variables a0 a1 b0 b1 c0 c1 : R.
Hypothesis Hapart : 0 < (a0 - a1) ^ 2 + (b0 - b1) ^ 2 + (c0 - c1) ^ 2.

Lemma knn_pair :
  knn topk_sorted [[[a0; a1]; [b0; b1]; [c0; c1]]] 2
  = Some [[[0%nat; 1%nat]; [1%nat; 0%nat]]].
Proof.
  rewrite knn_per_cloud. cbn [mapM].
  rewrite (pairwise_distance1_eq _ 3 2) by (repeat constructor).
  assert (E00 : sqdist [[a0; a1]; [b0; b1]; [c0; c1]] 0 0 = 0)
    by apply sqdist_self.
  assert (E11 : sqdist [[a0; a1]; [b0; b1]; [c0; c1]] 1 1 = 0)
    by apply sqdist_self.
  assert (E01 : 0 < sqdist [[a0; a1]; [b0; b1]; [c0; c1]] 0 1).
  { unfold sqdist, get. cbn [nrows length rsum nth]. lra. }
  assert (E10 : 0 < sqdist [[a0; a1]; [b0; b1]; [c0; c1]] 1 0).
  { unfold sqdist, get. cbn [nrows length rsum nth]. nra. }
  unfold tabulate. cbn [map seq]. rewrite E00, E11.
  unfold topk_sorted, sort_desc.
  cbn [length Nat.leb seq fold_right insert_desc nth mapM obind].
  decide_Rlt. cbn. reflexivity.
Qed.

Lemma forward_pair (self : PaiIndexMatrix) :
  pim_k self = 2%nat ->
  PaiIndexMatrix_forward topk_sorted self [[[a0; a1]; [b0; b1]; [c0; c1]]]
  = Some ([0; 1; 1; 0]%nat,
          [assign self [[a0; b0; c0]; [a1; b1; c1]];
           assign self [[a1; b1; c1]; [a0; b0; c0]]]).
Proof.
  intros Hk. unfold PaiIndexMatrix_forward. rewrite Hk, knn_pair.
  cbn [obind].
  cbn [size0 size2 hd ncols nrows length flatten3 add_idx_base zip_with map seq
       concat app transpose21 transpose tabulate get nth index_rows mapM
       nth_error obind view_blocks firstn skipn Nat.mul Nat.add topkmax].
  reflexivity.
Qed.

End PairCloud.

(** ** A neighbour row that sums to 0 *)

Lemma sphere_point_2_y (rnd : R) : nth 1 (sphere_point rnd 2 0) 0 = - (1 / 2).
Proof. unfold sphere_point. cbn [nth INR]. field. Qed.

Lemma affinity_two_points_row1 (temp_factor : R) (temp_net : TemperatureNet)
    (self : PaiIndexMatrix) (j : nat) :
  PaiIndexMatrix_init 2 temp_factor 2 temp_net = Some self ->
  get (affinity self [[0; 0; 0]; [0; 1; 0]]) 1 j = 0.
Proof.
  intros Hinit.
  destruct (init_one_padding _ _ _ _ _ Hinit) as (Hr & Hc & H00 & Hrest).
  destruct (init_kernels _ _ _ _ _ Hinit) as (_ & Hkc & Hk0).
  unfold affinity. rewrite get_clipped.
  destruct j as [|[|j]].
  - rewrite (get_biased 2 2 self) by (assumption || lia || reflexivity).
    rewrite (raw_col0 2 2 self) by (assumption || lia || reflexivity).
    rewrite Hrest by auto.
    destruct (Rgt_dec (0 + 0) 0); lra.
  - rewrite (get_biased 2 2 self) by (assumption || lia || reflexivity).
    rewrite Hrest by auto.
    assert (Eraw : get (matmul (broadcast Rminus [[0; 0; 0]; [0; 1; 0]]
                                  (firstn 1 [[0; 0; 0]; [0; 1; 0]]))
                               (pim_kernels self)) 1 1 = - (1 / 2)).
    { unfold matmul. rewrite Hkc.
      rewrite get_tabulate by (cbn; lia).
      destruct (init_inv _ _ _ _ _ Hinit) as (pts & op & Hp & _ & ->).
      rewrite fibonacci_sphere_eq in Hp by lia. injection Hp as <-.
      cbn [pim_kernels seq map Nat.sub].
      unfold broadcast, transpose, bget, bidx, bdim, tabulate, get.
      cbn [firstn nrows ncols length Nat.eqb seq map nth rsum].
      rewrite sphere_point_2_y. ring. }
    rewrite Eraw. destruct (Rgt_dec _ 0); lra.
  - rewrite (get_biased_out 2 2 self) by (assumption || lia || reflexivity).
    destruct (Rgt_dec 0 0); lra.
Qed.

Lemma assign_two_points_row1 (temp_factor : R) (temp_net : TemperatureNet)
    (self : PaiIndexMatrix) :
  PaiIndexMatrix_init 2 temp_factor 2 temp_net = Some self ->
  rowsum (assign self [[0; 0; 0]; [0; 1; 0]]) 1 = 0.
Proof.
  intros Hinit. unfold rowsum. apply rsum_zero. intros j _.
  apply (topkmax1_range _ 1 j (affinity_nonneg self _)).
  now apply (affinity_two_points_row1 temp_factor temp_net).
Qed.

(** For the points (0,0,0) and (0,1,0) with [k = 2] and two anchors, the
    second neighbour row of the first point is all zero. *)
Lemma forward_zero_row :
  exists self spirals_index permatrix,
    PaiIndexMatrix_init 2 1 2 (blank_temp_net 1) = Some self /\
    PaiIndexMatrix_forward topk_sorted self two_points
    = Some (spirals_index, permatrix) /\
    rowsum (nth 0 permatrix []) 1 = 0.
Proof.
  destruct (init_returns 2 1 2 (blank_temp_net 1)) as [self Hinit]; [lia|lia|].
  eexists self, _, _. split; [exact Hinit|].
  split.
  - apply forward_pair; [lra|now apply (init_k _ _ _ _ _ Hinit)].
  - cbn [nth]. now apply (assign_two_points_row1 1 (blank_temp_net 1)).
Qed.

(** ** A neighbour row that sums to almost 2 *)










(** ** The temperature factor *)

Lemma PaiIndexMatrix_forward_temperature
    (topk : nat -> list R -> option (list nat)) (m : PaiIndexMatrix)
    (temp_factor : R) (temp_net : TemperatureNet) (x : tensor3) :
  PaiIndexMatrix_forward topk
    (PaiIndexMatrix_with_temperature m temp_factor temp_net) x
  = PaiIndexMatrix_forward topk m x.
Proof. reflexivity. Qed.

(** C9.  Changing the temperature factor and the parameters of the
    [TemperatureNet] of a network changes neither the neighbour index and
    assignment matrix its indexing submodule computes, nor the calls it
    makes to its layers, nor the logits: the run differs only in the
    temperature fields the returned network carries along. *)
Theorem temperature_noninterference
    (topk : nat -> list R -> option (list nat)) (training : bool)
    (keep1 keep2 : nat -> nat -> bool) (self : PaiNet)
    (temp_factor : R) (temp_net : TemperatureNet) (x : tensor3)
    (log : list call) :
  PaiIndexMatrix_forward topk
    (paiIdxMatrix (PaiNet_with_temperature self temp_factor temp_net)) x
  = PaiIndexMatrix_forward topk (paiIdxMatrix self) x /\
  PaiNet_forward topk training keep1 keep2
    (PaiNet_with_temperature self temp_factor temp_net) x log
  = match PaiNet_forward topk training keep1 keep2 self x log with
    | Some (logits, self', log') =>
        Some (logits, PaiNet_with_temperature self' temp_factor temp_net, log')
    | None => None
    end.
Proof.
  split; [reflexivity|].
  unfold PaiNet_forward, call_paiIdxMatrix, call_conv, rbind, record, lift, ret.
  cbn [paiIdxMatrix conv1 conv2 conv3 conv4 conv5 bn5 bn6 bn7 linear1 linear2
       linear3 dp1 dp2 PaiNet_with_temperature].
  rewrite PaiIndexMatrix_forward_temperature.
  destruct (PaiIndexMatrix_forward topk (paiIdxMatrix self) x)
    as [[spirals_index permatrix]|]; [|reflexivity].
  repeat match goal with
  | |- context [PaiConv_forward ?t ?c ?f ?i ?p] =>
      destruct (PaiConv_forward t c f i p) as [[? ?]|]; [|reflexivity]
  | |- context [BatchNorm1d_forward3 ?t ?b ?y] =>
      destruct (BatchNorm1d_forward3 t b y) as [[? ?]|]; [|reflexivity]
  | |- context [BatchNorm1d_forward2 ?t ?b ?y] =>
      destruct (BatchNorm1d_forward2 t b y) as [[? ?]|]; [|reflexivity]
  end.
  reflexivity.
Qed.

(** ** Evaluation mode *)

Section EvalMode.

Variable topk : nat -> list R -> option (list nat).

Lemma BatchNorm1d_forward3_eval (bn bn' : BatchNorm1d) (x y : tensor3) :
  BatchNorm1d_forward3 false bn x = Some (y, bn') -> bn' = bn.
Proof. unfold BatchNorm1d_forward3. now intros [= _ <-]. Qed.

Lemma BatchNorm1d_forward2_eval (bn bn' : BatchNorm1d) (X Y : list (list R)) :
  BatchNorm1d_forward2 false bn X = Some (Y, bn') -> bn' = bn.
Proof. unfold BatchNorm1d_forward2. now intros [= _ <-]. Qed.

Lemma PaiConv_forward_eval (c c' : PaiConv) (feature out : tensor3)
    (spirals_index : list nat) (permatrix : tensor3) :
  PaiConv_forward false c feature spirals_index permatrix = Some (out, c') ->
  c' = c.
Proof.
  unfold PaiConv_forward.
  destruct (index_rows _ _) as [rows|]; [|discriminate]. cbn [obind].
  destruct (BatchNorm1d_forward3 false _ _) as [[y bn]|] eqn:E; [|discriminate].
  cbn [obind]. intros [= _ <-].
  apply BatchNorm1d_forward3_eval in E. subst bn. now destruct c.
Qed.

Lemma PaiNet_forward_eval_mask (keep1 keep2 keep1' keep2' : nat -> nat -> bool)
    (self : PaiNet) (x : tensor3) (log : list call) :
  PaiNet_forward topk false keep1 keep2 self x log
  = PaiNet_forward topk false keep1' keep2' self x log.
Proof. reflexivity. Qed.

Lemma PaiNet_forward_eval_state (keep1 keep2 : nat -> nat -> bool)
    (self self' : PaiNet) (x : tensor3) (log log' : list call)
    (logits : list (list R)) :
  PaiNet_forward topk false keep1 keep2 self x log = Some (logits, self', log') ->
  self' = self.
Proof.
  unfold PaiNet_forward, call_paiIdxMatrix, call_conv, rbind, record, lift, ret.
  destruct (PaiIndexMatrix_forward topk (paiIdxMatrix self) x)
    as [[spirals_index permatrix]|]; [|discriminate].
  repeat match goal with
  | |- context [PaiConv_forward ?t ?c ?f ?i ?p] =>
      let E := fresh "E" in
      destruct (PaiConv_forward t c f i p) as [[? ?]|] eqn:E; [|discriminate];
      apply PaiConv_forward_eval in E; subst
  | |- context [BatchNorm1d_forward3 ?t ?b ?y] =>
      let E := fresh "E" in
      destruct (BatchNorm1d_forward3 t b y) as [[? ?]|] eqn:E; [|discriminate];
      apply BatchNorm1d_forward3_eval in E; subst
  | |- context [BatchNorm1d_forward2 ?t ?b ?y] =>
      let E := fresh "E" in
      destruct (BatchNorm1d_forward2 t b y) as [[? ?]|] eqn:E; [|discriminate];
      apply BatchNorm1d_forward2_eval in E; subst
  end.
  intros [= _ <- _]. now destruct self.
Qed.

End EvalMode.

(** C8, amended.  In evaluation mode, where dropout is the identity and
    batch normalisation reads its stored statistics without updating
    them, two calls in a row on the same input give the same logits,
    whatever the random generator draws; a call that raises raises both
    times. *)
Theorem PaiNet_forward_eval_deterministic
    (topk : nat -> list R -> option (list nat))
    (keep1 keep2 keep1' keep2' : nat -> nat -> bool)
    (self : PaiNet) (x : tensor3) :
  two_runs topk false keep1 keep2 keep1' keep2' self x
  = match PaiNet_forward topk false keep1 keep2 self x [] with
    | Some (logits, _, _) => Some (logits, logits)
    | None => None
    end.
Proof.
  unfold two_runs.
  destruct (PaiNet_forward topk false keep1 keep2 self x [])
    as [[[logits self'] log]|] eqn:E; [|reflexivity].
  cbn [obind].
  pose proof (PaiNet_forward_eval_state topk _ _ _ _ _ _ _ _ E) as ->.
  rewrite (PaiNet_forward_eval_mask topk keep1' keep2' keep1 keep2), E.
  reflexivity.
Qed.

(** ** A call on a well-shaped network and input returns *)

Section Returns.

Lemma size_shape3 (x : tensor3) (B C N : nat) :
  shape3 x B C N -> (1 <= B)%nat -> (1 <= C)%nat ->
  size0 x = B /\ size1 x = C /\ size2 x = N.
Proof.
  intros [Hl Hf] HB HC. destruct x as [|xb x]; cbn in Hl; [lia|].
  inversion Hf as [|? ? Hxb _]; subst.
  unfold size0, size1, size2. cbn [hd length].
  repeat split; [apply Hxb|apply (shape_ncols xb C); [exact Hxb|lia]].
Qed.

Lemma shape3_map_tabulate (x : tensor3) (B C N : nat)
    (f : list (list R) -> nat -> nat -> R) :
  length x = B -> shape3 (map (fun xb => tabulate C N (f xb)) x) B C N.
Proof.
  intros Hl. split; [now rewrite length_map|].
  apply Forall_forall. intros M HM. apply in_map_iff in HM.
  destruct HM as [xb [<- _]]. apply shape_tabulate.
Qed.

Lemma BatchNorm1d_forward3_returns (training : bool) (bn : BatchNorm1d)
    (x : tensor3) (B C N : nat) :
  shape3 x B C N -> (1 <= B)%nat -> (1 <= C)%nat ->
  (training = true -> 2 <= B * N)%nat ->
  exists y bn',
    BatchNorm1d_forward3 training bn x = Some (y, bn') /\
    shape3 y B C N /\
    bn_weight bn' = bn_weight bn /\ bn_bias bn' = bn_bias bn.
Proof.
  intros Hx HB HC Hcount.
  destruct (size_shape3 x B C N Hx HB HC) as (E0 & E1 & E2).
  unfold BatchNorm1d_forward3. rewrite E0, E1, E2.
  destruct training.
  - destruct (Nat.leb_spec (B * N) 1) as [Hle|_]; [specialize (Hcount eq_refl); lia|].
    eexists _, _. split; [reflexivity|].
    split; [apply shape3_map_tabulate, Hx|split; reflexivity].
  - eexists _, _. split; [reflexivity|].
    split; [apply shape3_map_tabulate, Hx|split; reflexivity].
Qed.

Lemma BatchNorm1d_forward2_returns (training : bool) (bn : BatchNorm1d)
    (X : list (list R)) (B : nat) :
  nrows X = B -> (training = true -> 2 <= B)%nat ->
  exists mean var bn',
    BatchNorm1d_forward2 training bn X
    = Some (tabulate (nrows X) (ncols X)
              (fun b c => bn_affine bn c (mean c) (var c) (get X b c)), bn') /\
    bn_weight bn' = bn_weight bn /\ bn_bias bn' = bn_bias bn.
Proof.
  intros HB Hcount. unfold BatchNorm1d_forward2. rewrite HB.
  destruct training.
  - destruct (Nat.leb_spec B 1) as [Hle|_]; [specialize (Hcount eq_refl); lia|].
    eexists _, _, _. split; [reflexivity|split; reflexivity].
  - eexists _, _, _. split; [reflexivity|split; reflexivity].
Qed.

Lemma shape3_gelu3 (x : tensor3) (B C N : nat) :
  shape3 x B C N -> shape3 (gelu3 x) B C N.
Proof.
  intros [Hl Hf]. split; [unfold gelu3; now rewrite length_map|].
  apply Forall_forall. intros M HM. apply in_map_iff in HM.
  destruct HM as [xb [<- Hxb]]. rewrite Forall_forall in Hf.
  destruct (Hf xb Hxb) as [Hr Hc].
  split; [unfold map_entries; now rewrite length_map|].
  apply Forall_forall. intros row Hrow. apply in_map_iff in Hrow.
  destruct Hrow as [r [<- Hr']]. rewrite length_map.
  rewrite Forall_forall in Hc. now apply Hc.
Qed.

Lemma length_bmm (A B : tensor3) :
  length (bmm A B) = Nat.min (length A) (length B).
Proof. apply length_zip_with. Qed.

Lemma in_firstn {A : Type} (n : nat) (l : list A) (a : A) :
  In a (firstn n l) -> In a l.
Proof.
  intros H. rewrite <- (firstn_skipn n l). apply in_or_app. now left.
Qed.

Lemma in_skipn {A : Type} (n : nat) (l : list A) (a : A) :
  In a (skipn n l) -> In a l.
Proof.
  intros H. rewrite <- (firstn_skipn n l). apply in_or_app. now right.
Qed.

Lemma shape_view_block (L : list (list R)) (B N C b : nat) :
  shape L (B * N) C -> (b < B)%nat ->
  shape (firstn N (skipn (b * N) L)) N C.
Proof.
  intros [Hl Hf] Hb. split.
  - rewrite length_firstn, length_skipn, Hl. nia.
  - apply Forall_forall. intros row Hrow.
    rewrite Forall_forall in Hf. apply Hf.
    apply in_firstn in Hrow. now apply in_skipn in Hrow.
Qed.

Lemma shape_transpose (M : list (list R)) (r c : nat) :
  shape M r c -> (1 <= r)%nat -> shape (transpose M) c r.
Proof.
  intros HM Hr. unfold transpose.
  rewrite (shape_ncols M r c HM) by lia.
  destruct HM as [Hl _]. unfold nrows. rewrite Hl. apply shape_tabulate.
Qed.

Lemma PaiConv_forward_returns (training : bool) (self : PaiConv)
    (feature : tensor3) (spirals_index : list nat) (permatrix : tensor3)
    (B C N : nat) :
  shape3 feature B C N -> (1 <= B)%nat -> (1 <= C)%nat -> (1 <= N)%nat ->
  Forall (fun m => (m < B * N)%nat) spirals_index ->
  length permatrix = (B * N)%nat ->
  (1 <= nrows (lin_weight (pc_conv self)))%nat ->
  (training = true -> 2 <= B * N)%nat ->
  exists out self',
    PaiConv_forward training self feature spirals_index permatrix
    = Some (out, self') /\
    shape3 out B (nrows (lin_weight (pc_conv self))) N /\
    pc_conv self' = pc_conv self.
Proof.
  intros Hf HB HC HN Hidx Hpm HW Hcount.
  destruct (size_shape3 feature B C N Hf HB HC) as (E0 & E1 & E2).
  unfold PaiConv_forward. rewrite E0, E2.
  destruct (index_rows_returns (concat (transpose21 feature)) spirals_index)
    as [rows [Hrows Hrl]].
  { now rewrite (length_spirals feature B C N Hf HC). }
  rewrite Hrows. cbn [obind].
  set (sp := map (@concat R)
               (bmm (transpose21 (view_blocks (B * N) (pc_k self) rows)) permatrix)).
  assert (Hsp : length sp = (B * N)%nat).
  { unfold sp, transpose21. rewrite length_map, length_bmm, length_map.
    rewrite length_view_blocks. lia. }
  set (L := Linear_forward (pc_conv self) sp).
  assert (HL : shape L (B * N) (nrows (lin_weight (pc_conv self)))).
  { unfold L, Linear_forward. unfold nrows at 1. rewrite Hsp.
    apply shape_tabulate. }
  assert (Hout : shape3 (transpose21 (view_blocks B N L)) B
                        (nrows (lin_weight (pc_conv self))) N).
  { split; [unfold transpose21; now rewrite length_map, length_view_blocks|].
    apply Forall_forall. intros M HM. unfold transpose21 in HM.
    apply in_map_iff in HM. destruct HM as [blk [<- Hblk]].
    destruct (In_nth _ _ [] Hblk) as [b [Hb <-]].
    rewrite length_view_blocks in Hb. rewrite nth_view_blocks by exact Hb.
    apply shape_transpose; [|exact HN]. now apply (shape_view_block L B). }
  destruct (BatchNorm1d_forward3_returns training (pc_bn self) _ B _ N Hout HB HW Hcount)
    as (y & bn' & Ebn & Hy & _).
  rewrite Ebn. cbn [obind].
  exists y, (PaiConv_with_bn self bn'). repeat split; assumption || apply Hy.
Qed.

End Returns.

Section PaiNetReturns.

Variable topk : nat -> list R -> option (list nat).
Hypothesis Htopk : topk_contract topk.

Lemma shape3_cat1 (x y : tensor3) (B Cx Cy N : nat) :
  shape3 x B Cx N -> shape3 y B Cy N -> shape3 (cat1 x y) B (Cx + Cy) N.
Proof.
  intros [Hlx Hfx] [Hly Hfy]. unfold cat1. split.
  - rewrite length_zip_with. lia.
  - apply Forall_forall. intros M HM.
    destruct (In_nth _ _ [] HM) as [b [Hb <-]].
    rewrite length_zip_with in Hb.
    rewrite (nth_zip_with _ _ _ b [] []) by lia.
    destruct (Forall_at _ x b [] Hfx) as [Hr1 Hc1]; [lia|].
    destruct (Forall_at _ y b [] Hfy) as [Hr2 Hc2]; [lia|].
    split; [rewrite length_app; lia|]. apply Forall_app. now split.
Qed.

Lemma shape3_Conv1d (m : Conv1d) (x : tensor3) (B C N : nat) :
  shape3 x B C N -> (1 <= C)%nat ->
  shape3 (Conv1d_forward m x) B (nrows (conv_weight m)) N.
Proof.
  intros [Hl Hf] HC. unfold Conv1d_forward. split; [now rewrite length_map|].
  apply Forall_forall. intros M HM. apply in_map_iff in HM.
  destruct HM as [xb [<- Hxb]]. rewrite Forall_forall in Hf.
  rewrite (shape_ncols xb C N (Hf xb Hxb)) by lia. apply shape_tabulate.
Qed.

Lemma nrows_Dropout (p : R) (training : bool) (keep : nat -> nat -> bool)
    (X : list (list R)) :
  nrows (Dropout_forward p training keep X) = nrows X.
Proof.
  unfold Dropout_forward. destruct training; [apply nrows_tabulate|reflexivity].
Qed.

Lemma PaiNet_forward_returns (training : bool)
    (keep1 keep2 : nat -> nat -> bool) (self : PaiNet) (x : tensor3)
    (B N : nat) (log : list call) :
  shape3 x B 3 N -> (2 <= B)%nat -> (1 <= N)%nat ->
  (pim_k (paiIdxMatrix self) <= N)%nat ->
  PaiNet_ok self ->
  exists spirals_index permatrix f1 f2 f3 x7 mean var self',
    PaiIndexMatrix_forward topk (paiIdxMatrix self) x
    = Some (spirals_index, permatrix) /\
    PaiNet_forward topk training keep1 keep2 self x log
    = Some (Linear_forward (linear3 self)
              (Dropout_forward (dp2 self) training keep2
                 (map_entries gelu
                    (tabulate (nrows (Linear_forward (linear2 self) x7))
                       (ncols (Linear_forward (linear2 self) x7))
                       (fun b c =>
                          bn_affine (bn7 self) c (mean c) (var c)
                            (get (Linear_forward (linear2 self) x7) b c))))),
            self',
            log ++ [Call_paiIdxMatrix x;
                    Call_conv 1 x spirals_index permatrix;
                    Call_conv 2 f1 spirals_index permatrix;
                    Call_conv 3 f2 spirals_index permatrix;
                    Call_conv 4 f3 spirals_index permatrix]) /\
    nrows x7 = B /\
    same_weights self self'.
Proof.
  intros Hx HB HN Hk (Hc1 & Hc2 & Hc3 & Hc4 & Hc5).
  assert (Hcount : training = true -> (2 <= B * N)%nat) by (intros _; nia).
  destruct (forward_structure topk Htopk (paiIdxMatrix self) x B 3 N Hx)
    as (idx & blocks & _ & Hfw & Hlen & _ & Hbound); [lia|exact Hk|].
  set (spirals_index := flatten3 (add_idx_base N idx)) in *.
  set (permatrix := map (assign (paiIdxMatrix self)) blocks) in *.
  assert (Hpm : length permatrix = (B * N)%nat)
    by (unfold permatrix; now rewrite length_map).
  destruct (PaiConv_forward_returns training (conv1 self) x spirals_index
              permatrix B 3 N) as (o1 & c1 & E1 & S1 & W1); try assumption; try lia.
  apply shape3_gelu3 in S1.
  destruct (PaiConv_forward_returns training (conv2 self) (gelu3 o1) spirals_index
              permatrix B _ N S1) as (o2 & c2 & E2 & S2 & W2); try assumption; try lia.
  apply shape3_gelu3 in S2.
  destruct (PaiConv_forward_returns training (conv3 self) (gelu3 o2) spirals_index
              permatrix B _ N S2) as (o3 & c3 & E3 & S3 & W3); try assumption; try lia.
  apply shape3_gelu3 in S3.
  destruct (PaiConv_forward_returns training (conv4 self) (gelu3 o3) spirals_index
              permatrix B _ N S3) as (o4 & c4 & E4 & S4 & W4); try assumption; try lia.
  apply shape3_gelu3 in S4.
  pose proof (shape3_cat1 _ _ _ _ _ _ S1
                (shape3_cat1 _ _ _ _ _ _ S2 (shape3_cat1 _ _ _ _ _ _ S3 S4))) as Scat.
  apply (shape3_Conv1d (conv5 self)) in Scat; [|lia].
  destruct (BatchNorm1d_forward3_returns training (bn5 self) _ B _ N Scat)
    as (y5 & b5 & E5 & S5 & _); try assumption; try lia.
  apply shape3_gelu3 in S5.
  set (X6 := cat1 (adaptive_max_pool1d (gelu3 y5)) (adaptive_avg_pool1d (gelu3 y5))).
  assert (HX6 : nrows X6 = B).
  { unfold X6, cat1, nrows, adaptive_max_pool1d, adaptive_avg_pool1d.
    rewrite length_zip_with, !length_map. destruct S5 as [-> _]. lia. }
  destruct (BatchNorm1d_forward2_returns training (bn6 self)
              (Linear_forward (linear1 self) X6) B)
    as (m6 & v6 & b6 & E6 & _).
  { unfold Linear_forward. now rewrite nrows_tabulate. }
  { intros _. lia. }
  set (Y6 := tabulate _ _ _) in E6.
  set (x7 := Dropout_forward (dp1 self) training keep1 (map_entries gelu Y6)).
  assert (Hx7 : nrows x7 = B).
  { unfold x7. rewrite nrows_Dropout, nrows_map_entries. unfold Y6.
    rewrite nrows_tabulate. unfold Linear_forward. now rewrite nrows_tabulate. }
  destruct (BatchNorm1d_forward2_returns training (bn7 self)
              (Linear_forward (linear2 self) x7) B)
    as (m7 & v7 & b7 & E7 & Hw7 & Hb7).
  { unfold Linear_forward. now rewrite nrows_tabulate. }
  { intros _. lia. }
  exists spirals_index, permatrix, (gelu3 o1), (gelu3 o2), (gelu3 o3), x7, m7, v7.
  eexists. split; [exact Hfw|]. split; [|split; [exact Hx7|]].
  - unfold PaiNet_forward, call_paiIdxMatrix, call_conv, rbind, record, lift,
      ret, clone.
    rewrite Hfw, E1, E2, E3, E4, E5. fold X6. rewrite E6. fold x7. rewrite E7.
    rewrite <- !app_assoc. cbn [app]. reflexivity.
  - unfold same_weights. cbn. repeat split; assumption.
Qed.

End PaiNetReturns.

(** ** The calls of [PaiNet.forward] *)


(** ** A network on which two training-mode calls differ *)

Section SampleRun.

Lemma erf_nonneg (z : R) : 0 <= z -> 0 <= erf z.
Proof.
  intros Hz. unfold erf.
  assert (0 <= RiemannInt (gauss_integrable 0 z)).
  { pose proof (RiemannInt_P15 (RiemannInt_P14 0 z 0)) as E.
    rewrite Rmult_0_l in E.
    apply Rle_trans with (RiemannInt (RiemannInt_P14 0 z 0)); [rewrite E; lra|].
    apply RiemannInt_P19; [exact Hz|]. intros t _. unfold fct_cte, gauss.
    left. apply exp_pos. }
  assert (0 < 2 / sqrt PI).
  { apply Rdiv_lt_0_compat; [lra|]. apply sqrt_lt_R0, PI_RGT_0. }
  nra.
Qed.

Lemma gelu_1_pos : 0 < gelu 1.
Proof.
  unfold gelu.
  assert (0 <= erf (1 / sqrt 2)).
  { apply erf_nonneg. apply Rlt_le, Rdiv_lt_0_compat; [lra|].
    apply sqrt_lt_R0. lra. }
  lra.
Qed.

Lemma gelu_0 : gelu 0 = 0.
Proof. unfold gelu. ring. Qed.

Lemma nth_repeat_lt {A : Type} (a d : A) (n i : nat) :
  (i < n)%nat -> nth i (repeat a n) d = a.
Proof.
  revert i. induction n as [|n IH]; intros i Hi; [lia|].
  destruct i as [|i]; cbn; [reflexivity|]. apply IH. lia.
Qed.

Lemma rsum_const (n : nat) (c : R) : rsum n (fun _ => c) = INR n * c.
Proof.
  induction n as [|n IH]; [cbn; ring|].
  cbn [rsum]. rewrite IH, S_INR. ring.
Qed.

Variables (lin2 lin3 : Linear) (bn : BatchNorm1d) (p : R)
          (keep : nat -> nat -> bool) (x7 : list (list R)) (mean var : nat -> R).
Hypothesis Hbw : bn_weight bn = repeat 0 256.
Hypothesis Hbb : bn_bias bn = repeat 1 256.
Hypothesis Hl2 : nrows (lin_weight lin2) = 256%nat.
Hypothesis Hl3 : lin3 = {| lin_weight := tabulate 40 256 (fun _ _ => 1);
                           lin_bias := Some (repeat 0 40) |}.
Hypothesis Hx7 : (1 <= nrows x7)%nat.

Let L2 := Linear_forward lin2 x7.
Let Y7 := tabulate (nrows L2) (ncols L2)
            (fun b c => bn_affine bn c (mean c) (var c) (get L2 b c)).

Lemma sample_L2_shape : nrows L2 = nrows x7 /\ ncols L2 = 256%nat.
Proof.
  subst L2. unfold Linear_forward. rewrite nrows_tabulate.
  split; [reflexivity|]. rewrite ncols_tabulate by lia. exact Hl2.
Qed.

Lemma sample_gelu_bn (b c : nat) :
  (b < nrows x7)%nat -> (c < 256)%nat ->
  get (map_entries gelu Y7) b c = gelu 1.
Proof.
  intros Hb Hc. destruct sample_L2_shape as [Hr Hcol].
  rewrite get_map_entries by apply gelu_0. subst Y7.
  rewrite get_tabulate by (rewrite ?Hr, ?Hcol; assumption).
  unfold bn_affine. rewrite Hbw, Hbb, !nth_repeat_lt by exact Hc.
  f_equal. ring.
Qed.

Lemma sample_logit :
  get (Linear_forward lin3
         (Dropout_forward p true keep (map_entries gelu Y7))) 0 0
  = rsum 256 (fun l => if keep 0%nat l then gelu 1 / (1 - p) else 0).
Proof.
  destruct sample_L2_shape as [Hr Hcol].
  assert (HrY : nrows (map_entries gelu Y7) = nrows x7).
  { rewrite nrows_map_entries. subst Y7. now rewrite nrows_tabulate. }
  assert (HcY : ncols (map_entries gelu Y7) = 256%nat).
  { rewrite ncols_map_entries. subst Y7.
    rewrite ncols_tabulate by (rewrite Hr; lia). exact Hcol. }
  unfold Dropout_forward. rewrite HrY, HcY.
  unfold Linear_forward. rewrite nrows_tabulate, Hl3. cbn [lin_weight lin_bias].
  rewrite nrows_tabulate, get_tabulate by lia.
  rewrite nth_repeat_lt by lia.
  unfold dot.
  replace (length (nth 0 (tabulate 40 256 (fun _ _ => 1)) [])) with 256%nat
    by (symmetry; apply row_length_tabulate; lia).
  rewrite Rplus_0_r. apply rsum_ext. intros l Hl.
  change (nth l (nth 0 (tabulate 40 256 (fun _ _ : nat => 1)) []) 0)
    with (get (tabulate 40 256 (fun _ _ : nat => 1)) 0 l).
  rewrite get_tabulate by lia.
  match goal with
  | |- 1 * nth l (nth 0 ?D []) 0 = _ => change (nth l (nth 0 D []) 0) with (get D 0 l)
  end.
  rewrite get_tabulate by lia.
  destruct (keep 0%nat l); [|ring].
  rewrite sample_gelu_bn by lia. ring.
Qed.

End SampleRun.

Lemma sample_input_shape : shape3 sample_input 2 3 1.
Proof. repeat constructor. Qed.

Lemma sample_net_ok (m : PaiIndexMatrix) : PaiNet_ok (sample_net m).
Proof.
  unfold PaiNet_ok, sample_net, zero_conv, zeros.
  cbn [conv1 conv2 conv3 conv4 conv5 pc_conv lin_weight conv_weight].
  rewrite !nrows_tabulate. lia.
Qed.

Lemma same_weights_ok (self self' : PaiNet) :
  same_weights self self' -> PaiNet_ok self -> PaiNet_ok self'.
Proof.
  intros (_ & E1 & E2 & E3 & E4 & E5 & _) H. unfold PaiNet_ok.
  now rewrite E1, E2, E3, E4, E5.
Qed.

(** C8, as stated, fails in training mode, where [dp1] and [dp2] draw
    fresh masks at every call: with nothing dropped the first logit of
    the sample network is positive, with everything dropped at [dp2] it
    is 0. *)
Lemma PaiNet_forward_training_counterexample :
  exists m logits logits',
    PaiIndexMatrix_init 1 1 16 (blank_temp_net 1) = Some m /\
    two_runs topk_sorted true keep_all keep_all keep_all drop_all
             (sample_net m) sample_input
    = Some (logits, logits') /\
    logits <> logits'.
Proof.
  destruct (init_returns 1 1 16 (blank_temp_net 1)) as [m Hinit]; [lia|lia|].
  pose proof (init_k _ _ _ _ _ Hinit) as Hk.
  destruct (PaiNet_forward_returns topk_sorted topk_sorted_contract true
              keep_all keep_all (sample_net m) sample_input 2 1 []
              sample_input_shape)
    as (idx & pm & f1 & f2 & f3 & x7 & m7 & v7 & net' & _ & E & Hx7 & Hsame);
    [lia|lia|cbn [paiIdxMatrix sample_net]; lia|apply sample_net_ok|].
  pose proof Hsame as (Epim & _ & _ & _ & _ & _ & El2 & El3 & Ep & Ebw & Ebb).
  destruct (PaiNet_forward_returns topk_sorted topk_sorted_contract true
              keep_all drop_all net' sample_input 2 1 []
              sample_input_shape)
    as (idx' & pm' & f1' & f2' & f3' & x7' & m7' & v7' & net'' & _ & E' & Hx7' & _);
    [lia|lia|rewrite Epim; cbn [paiIdxMatrix sample_net]; lia
    |apply (same_weights_ok (sample_net m)); [exact Hsame|apply sample_net_ok]|].
  eexists m, _, _. split; [exact Hinit|].
  split; [unfold two_runs; rewrite E; cbn [obind]; rewrite E'; reflexivity|].
  intros Heq.
  apply (f_equal (fun l => get l 0 0)) in Heq.
  rewrite (sample_logit (linear2 (sample_net m)) (linear3 (sample_net m))
             (bn7 (sample_net m)) (dp2 (sample_net m)) keep_all x7 m7 v7)
    in Heq by (reflexivity || lia).
  rewrite (sample_logit (linear2 net') (linear3 net') (bn7 net') (dp2 net')
             drop_all x7' m7' v7') in Heq;
    [|rewrite Ebw; reflexivity|rewrite Ebb; reflexivity
     |rewrite El2; reflexivity|rewrite El3; reflexivity|lia].
  unfold keep_all, drop_all in Heq. rewrite !rsum_const in Heq.
  cbn [dp2 sample_net] in Heq.
  pose proof gelu_1_pos as Hg.
  assert (H256 : 0 < INR 256) by (apply lt_0_INR; lia).
  assert (0 < gelu 1 / (1 - 1 / 2)) by (apply Rdiv_lt_0_compat; lra).
  nra.
Qed.


(** * Further properties of the code *)

(** ** Errors of the indexing stage *)

Section IndexingErrors.

Variable topk : nat -> list R -> option (list nat).
Hypothesis Htopk : topk_contract topk.

Lemma knn_too_many (x : tensor3) (bsize feats num_pts k : nat) :
  shape3 x bsize feats num_pts ->
  (1 <= bsize)%nat -> (1 <= feats)%nat -> (1 <= num_pts)%nat ->
  (num_pts < k)%nat ->
  knn topk x k = None.
Proof.
  intros [Hl Hf] HB Hfe HN Hk. rewrite knn_per_cloud.
  destruct x as [|xb x]; cbn in Hl; [lia|].
  inversion Hf as [|? ? Hxb _]; subst.
  cbn [mapM].
  pose proof (nrows_pairwise_distance1 xb feats num_pts Hxb Hfe) as Hn.
  destruct (pairwise_distance1_row xb feats num_pts Hxb Hfe 0) as [Hr _]; [lia|].
  destruct (pairwise_distance1 xb) as [|row pd]; cbn in Hn; [lia|].
  cbn [nth] in Hr. cbn [mapM].
  rewrite (topk_raises topk Htopk k row) by lia. reflexivity.
Qed.

End IndexingErrors.

(** X1.  When [k] exceeds the number of points of the clouds, [knn]
    raises, and so does [PaiIndexMatrix.forward]: nothing clamps [k]. *)
Theorem knn_raises_beyond_num_points
    (topk : nat -> list R -> option (list nat)) (self : PaiIndexMatrix)
    (x : tensor3) (bsize feats num_pts k : nat) :
  topk_contract topk ->
  shape3 x bsize feats num_pts ->
  (1 <= bsize)%nat -> (1 <= feats)%nat -> (1 <= num_pts)%nat ->
  (num_pts < k)%nat -> pim_k self = k ->
  knn topk x k = None /\ PaiIndexMatrix_forward topk self x = None.
Proof.
  intros Ht Hx HB Hfe HN Hk Ek.
  pose proof (knn_too_many topk Ht x bsize feats num_pts k Hx HB Hfe HN Hk) as E.
  split; [exact E|]. unfold PaiIndexMatrix_forward. now rewrite Ek, E.
Qed.

Lemma knn_raises_beyond_num_points_witness :
  knn topk_sorted two_points 3 = None /\
  PaiIndexMatrix_forward topk_sorted (sample_index 3 1) two_points = None.
Proof.
  apply (knn_raises_beyond_num_points topk_sorted _ two_points 1 3 2 3);
    [apply topk_sorted_contract|repeat constructor|lia|lia|lia|lia|reflexivity].
Defined.

(** X2.  [PaiIndexMatrix.__init__] raises exactly when [k] or
    [kernel_size] is 0: [fibonacci_sphere] divides by [samples], and
    [one_padding.data[0, 0] = 1] needs an entry (0,0). *)
Theorem PaiIndexMatrix_init_raises (k : nat) (temp_factor : R)
    (kernel_size : nat) (temp_net : TemperatureNet) :
  PaiIndexMatrix_init k temp_factor kernel_size temp_net = None
  <-> (k = 0 \/ kernel_size = 0)%nat.
Proof.
  split.
  - intros HNone.
    destruct (Nat.eq_dec k 0) as [|Hk]; [now left|].
    destruct (Nat.eq_dec kernel_size 0) as [|Hks]; [now right|].
    destruct (init_returns k temp_factor kernel_size temp_net) as [self E]; [lia|lia|].
    congruence.
  - intros [-> | ->].
    + unfold PaiIndexMatrix_init.
      destruct (fibonacci_sphere 0 kernel_size false); reflexivity.
    + reflexivity.
Qed.

(** ** The points of [fibonacci_sphere], whatever [randomize] is *)

Lemma sphere_point_height (rnd : R) (samples i : nat) :
  (1 <= samples)%nat ->
  nth 1 (sphere_point rnd samples i) 0 = (2 * INR i + 1) / INR samples - 1.
Proof.
  intros Hs. unfold sphere_point. cbn [nth].
  assert (0 < INR samples) by (apply lt_0_INR; lia).
  field; lra.
Qed.

Lemma sphere_point_not_origin (rnd : R) (samples i : nat) :
  (i < samples - 1)%nat -> sphere_point rnd samples i <> [0; 0; 0].
Proof.
  intros Hi E.
  destruct (sphere_point_unit rnd samples i Hi) as (x & y & z & Ep & Hn).
  rewrite Ep in E. injection E as -> -> ->. lra.
Qed.

Lemma sphere_point_inj (rnd : R) (samples i j : nat) :
  (1 <= samples)%nat ->
  sphere_point rnd samples i = sphere_point rnd samples j -> i = j.
Proof.
  intros Hs E.
  assert (Hy : nth 1 (sphere_point rnd samples i) 0
               = nth 1 (sphere_point rnd samples j) 0) by now rewrite E.
  rewrite !sphere_point_height in Hy by exact Hs.
  assert (Hpos : 0 < INR samples) by (apply lt_0_INR; lia).
  apply INR_eq.
  assert (Hd : (2 * INR i + 1) / INR samples = (2 * INR j + 1) / INR samples) by lra.
  apply (Rmult_eq_compat_r (INR samples)) in Hd.
  unfold Rdiv in Hd. rewrite !Rmult_assoc, !Rinv_l in Hd by lra. lra.
Qed.

(** X3.  For any [samples >= 1], with or without [randomize],
    [fibonacci_sphere] returns [samples] pairwise distinct points; the
    point appended at iteration [i] has height
    [(2 i + 1) / samples - 1], which the random draw does not touch. *)
Theorem fibonacci_sphere_distinct (random : R) (samples : nat) (randomize : bool) :
  (1 <= samples)%nat ->
  exists points,
    fibonacci_sphere random samples randomize = Some points /\
    length points = samples /\
    NoDup points /\
    forall i, (i < samples - 1)%nat ->
      nth 1 (nth (S i) points []) 0 = (2 * INR i + 1) / INR samples - 1.
Proof.
  intros Hs. rewrite fibonacci_sphere_eq by exact Hs.
  set (rnd := if randomize then random * INR samples else 1).
  eexists. split; [reflexivity|]. split; [|split].
  - cbn. rewrite length_map, length_seq. lia.
  - constructor.
    + intros Hin. apply in_map_iff in Hin. destruct Hin as (i & E & Hi).
      apply in_seq in Hi. apply (sphere_point_not_origin rnd samples i); [lia|exact E].
    + assert (Hnd : NoDup (seq 0 (samples - 1))) by apply seq_NoDup.
      induction Hnd as [|i l Hni Hnd IH]; cbn; constructor; [|exact IH].
      intros Hin. apply in_map_iff in Hin. destruct Hin as (j & E & Hj).
      apply sphere_point_inj in E; [|exact Hs]. subst j. contradiction.
  - intros i Hi. cbn [nth].
    rewrite (nth_map_seq (sphere_point rnd samples)) by exact Hi.
    apply sphere_point_height. exact Hs.
Qed.

Lemma fibonacci_sphere_distinct_witness :
  exists points,
    fibonacci_sphere (1 / 2) 3 true = Some points /\
    length points = 3%nat /\
    NoDup points /\
    forall i, (i < 3 - 1)%nat ->
      nth 1 (nth (S i) points []) 0 = (2 * INR i + 1) / INR 3 - 1.
Proof. apply (fibonacci_sphere_distinct (1 / 2) 3 true). lia. Defined.

(** ** How many entries of a column [topkmax] retains *)

Lemma rsum_count (c : R) (n : nat) (f : nat -> R) :
  0 < c ->
  (forall i, (i < n)%nat -> f i = 0 \/ c <= f i) ->
  c * INR (length (filter (fun i => nonzero (f i)) (seq 0 n))) <= rsum n f.
Proof.
  intros Hc. induction n as [|n IH]; intros H.
  - cbn. lra.
  - rewrite seq_S, filter_app, length_app, plus_INR. cbn [rsum Nat.add filter].
    assert (IH' := IH (fun i Hi => H i (Nat.lt_lt_succ_r _ _ Hi))).
    destruct (H n (Nat.lt_succ_diag_r n)) as [E|Hge]; unfold nonzero at 2;
      destruct (Req_dec_T (f n) 0) as [E0|N0]; cbn [length INR]; try lra.
Qed.

Lemma topkmax1_sparse (P : matrix) (j : nat) :
  nonneg P -> (count_nonzero_col (topkmax1 P) j <= 9)%nat.
Proof.
  intros HP. unfold count_nonzero_col.
  pose proof (colsum_topkmax1 P j) as [_ Hle].
  pose proof (colsum_prethreshold_range P j) as [_ Hlt].
  pose proof (rsum_count (1 / 10) (nrows (topkmax1 P))
                (fun i => get (topkmax1 P) i j)) as Hc.
  cbv beta in Hc. unfold colsum at 1 in Hle.
  assert (Hcount : 1 / 10 * INR (length (filter
             (fun i => nonzero (get (topkmax1 P) i j))
             (seq 0 (nrows (topkmax1 P))))) <= rsum (nrows (topkmax1 P))
             (fun i => get (topkmax1 P) i j)).
  { apply Hc; [lra|]. intros i _.
    destruct (Req_dec_T (get (topkmax1 P) i j) 0) as [E|N]; [now left|right].
    apply (topkmax1_range P i j HP). exact N. }
  set (n := length _) in *.
  assert (Hn : INR n < INR 10).
  { replace (INR 10) with 10 by (cbn; lra). lra. }
  apply INR_lt in Hn. lia.
Qed.

(** X4.  For a non-negative input, every column of every matrix
    [topkmax] returns keeps at most 9 non-zero entries: a retained entry
    exceeds 0.1 and the column summed to less than 1 before the
    threshold. *)
Theorem topkmax_column_sparse (T : tensor3) (b j : nat) :
  Forall nonneg T ->
  (count_nonzero_col (nth b (topkmax T) []) j <= 9)%nat.
Proof.
  intros HT. rewrite nth_topkmax.
  apply topkmax1_sparse. now apply Forall_nth_nonneg.
Qed.

Lemma topkmax_column_sparse_witness :
  Forall nonneg [[[1; 0]; [0; 3]]] /\
  (count_nonzero_col (nth 0 (topkmax [[[1; 0]; [0; 3]]]%R) []) 1 <= 9)%nat.
Proof.
  assert (H : Forall nonneg [[[1; 0]; [0; 3]]]).
  { constructor; [concrete_nonneg|constructor]. }
  split; [exact H|].
  apply (topkmax_column_sparse [[[1; 0]; [0; 3]]] 0 1 H).
Defined.

(** ** The gather of [PaiIndexMatrix.forward] *)

Section Gather.

Lemma blocks_ext {A : Type} (l l' : list A) (d : A) (bsize num_pts : nat) :
  length l = (bsize * num_pts)%nat -> length l' = (bsize * num_pts)%nat ->
  (forall b i, (b < bsize)%nat -> (i < num_pts)%nat ->
     nth (b * num_pts + i) l d = nth (b * num_pts + i) l' d) ->
  l = l'.
Proof.
  intros Hl Hl' H. apply (nth_ext l l' d d); [congruence|].
  intros p Hp. rewrite Hl in Hp.
  assert (HN : num_pts <> 0%nat) by (intros ->; lia).
  rewrite (Nat.div_mod_eq p num_pts), (Nat.mul_comm num_pts).
  apply H.
  - apply Nat.Div0.div_lt_upper_bound. lia.
  - now apply Nat.mod_upper_bound.
Qed.

Lemma length_neighbourhoods (x : tensor3) (idx : index_tensor)
    (bsize feats num_pts k : nat) :
  shape3 x bsize feats num_pts -> index_shape idx bsize num_pts k ->
  Forall (fun r => length r = num_pts)
         (zip_with (fun xb rows => map (map (point xb)) rows) x idx) /\
  length (zip_with (fun xb rows => map (map (point xb)) rows) x idx) = bsize.
Proof.
  intros [Hl _] Hs. pose proof Hs as [Hil Hif]. split.
  - apply Forall_forall. intros r Hr.
    destruct (In_nth _ _ [] Hr) as [b [Hb <-]].
    rewrite length_zip_with, Hl, Hil, Nat.min_id in Hb.
    rewrite (nth_zip_with _ x idx b [] [] []) by lia.
    rewrite length_map.
    destruct (Forall_at _ idx b [] Hif) as [Hr' _]; [lia|exact Hr'].
  - rewrite length_zip_with, Hl, Hil. apply Nat.min_id.
Qed.

Lemma view_blocks_gather (x : tensor3) (idx : index_tensor) (rows : list vec)
    (bsize feats num_pts k : nat) :
  shape3 x bsize feats num_pts -> (1 <= feats)%nat ->
  index_shape idx bsize num_pts k ->
  (forall b i, (b < bsize)%nat -> (i < num_pts)%nat ->
     Forall (fun j => (j < num_pts)%nat) (nth i (nth b idx []) [])) ->
  index_rows (concat (transpose21 x)) (flatten3 (add_idx_base num_pts idx))
  = Some rows ->
  view_blocks (bsize * num_pts) k rows = neighbourhoods x idx.
Proof.
  intros Hx Hfe Hs Hlt Hrows.
  destruct (length_neighbourhoods x idx bsize feats num_pts k Hx Hs) as [Hnf Hnl].
  destruct (add_idx_base_shape idx bsize num_pts _ Hs) as [Hal Haf].
  pose proof (mapM_length _ _ _ Hrows) as Hrl.
  rewrite (length_flatten3 _ bsize num_pts k Hal Haf) in Hrl.
  assert (Hsp : Forall (fun r => length r = num_pts) (transpose21 x)).
  { apply Forall_forall. intros r Hr. apply in_map_iff in Hr.
    destruct Hr as [xb [<- Hxb]]. destruct Hx as [_ Hf].
    rewrite Forall_forall in Hf. rewrite length_transpose.
    apply (cloud_ncols xb feats num_pts); auto. }
  apply (blocks_ext _ _ [] bsize num_pts).
  - apply length_view_blocks.
  - unfold neighbourhoods.
    now rewrite (concat_length_uniform _ num_pts Hnf), Hnl.
  - intros b i Hb Hi.
    assert (Hp : (b * num_pts + i < bsize * num_pts)%nat).
    { assert (S b * num_pts <= bsize * num_pts)%nat
        by (apply Nat.mul_le_mono_r; lia). lia. }
    rewrite nth_view_blocks by exact Hp.
    unfold neighbourhoods.
    rewrite (concat_nth_uniform _ num_pts b i [] Hnf) by lia.
    pose proof Hx as [Hl _]. pose proof Hs as [Hil _].
    rewrite (nth_zip_with _ x idx b [] [] []) by lia.
    destruct (index_shape_nth idx bsize num_pts k b i Hs Hb Hi) as [Hrn Hnb].
    rewrite (nth_map_in _ _ i []) by lia.
    apply (nth_ext _ _ [] []).
    + rewrite length_firstn, length_skipn, Hrl, length_map, Hnb. nia.
    + intros a Ha.
      rewrite length_firstn, length_skipn, Hrl in Ha.
      assert (Hak : (a < k)%nat) by lia.
      rewrite nth_firstn. destruct (Nat.ltb_spec a k) as [_|]; [|lia].
      rewrite nth_skipn.
      assert (Hq : ((b * num_pts + i) * k + a
                    < length (flatten3 (add_idx_base num_pts idx)))%nat).
      { rewrite (length_flatten3 _ bsize num_pts k Hal Haf). nia. }
      pose proof (mapM_nth _ 0%nat [] _ _ _ Hrows Hq) as Hnth.
      apply nth_error_nth with (d := @nil R) in Hnth.
      rewrite <- Hnth.
      rewrite (nth_flat_index idx bsize num_pts k b i a Hs Hb Hi Hak).
      rewrite (nth_map_in _ _ a 0%nat) by lia.
      pose proof (Forall_at _ _ a 0%nat (Hlt b i Hb Hi)) as Hm.
      rewrite Hnb in Hm. specialize (Hm Hak). cbn beta in Hm.
      rewrite (Nat.add_comm _ (b * num_pts)).
      rewrite (concat_nth_uniform _ num_pts b _ [] Hsp)
        by (unfold transpose21; rewrite ?length_map; lia).
      unfold transpose21. rewrite (nth_map_in _ _ b []) by lia.
      reflexivity.
Qed.

End Gather.

Lemma forward_neighbourhoods
    (topk : nat -> list R -> option (list nat)) (self : PaiIndexMatrix)
    (x : tensor3) (bsize feats num_pts : nat) :
  topk_contract topk ->
  shape3 x bsize feats num_pts -> (1 <= feats)%nat ->
  (pim_k self <= num_pts)%nat ->
  exists idx,
    knn topk x (pim_k self) = Some idx /\
    index_shape idx bsize num_pts (pim_k self) /\
    (forall b i, (b < bsize)%nat -> (i < num_pts)%nat ->
       Forall (fun j => (j < num_pts)%nat) (nth i (nth b idx []) [])) /\
    PaiIndexMatrix_forward topk self x
    = Some (flatten3 (add_idx_base num_pts idx),
            map (assign self) (neighbourhoods x idx)).
Proof.
  intros Htopk Hx Hfe Hk.
  destruct (knn_nearest_spec topk x bsize feats num_pts (pim_k self) Htopk Hx Hfe Hk)
    as [idx [Hidx [Hlen Hb]]].
  pose proof (k_nearest_index_shape x idx bsize num_pts _ Hlen Hb) as Hs.
  assert (Hlt : forall b i, (b < bsize)%nat -> (i < num_pts)%nat ->
     Forall (fun j => (j < num_pts)%nat) (nth i (nth b idx []) [])).
  { intros b i Hlb Hi. destruct (Hb b Hlb) as [_ Hn]. apply (Hn i Hi). }
  destruct (forward_structure topk Htopk self x bsize feats num_pts Hx Hfe Hk)
    as (idx' & blocks & Hidx' & Hfw & _).
  assert (idx' = idx) by congruence. subst idx'.
  exists idx. split; [exact Hidx|]. split; [exact Hs|]. split; [exact Hlt|].
  assert (Hn : (size0 x * size2 x = bsize * num_pts)%nat).
  { pose proof Hx as [Hl _]. unfold size0. rewrite Hl.
    destruct (Nat.eq_dec bsize 0) as [E|E]; [now rewrite E|].
    rewrite (size2_shape3 x bsize feats num_pts Hx Hfe); lia. }
  assert (Hflat : flatten3 (add_idx_base (size2 x) idx)
                  = flatten3 (add_idx_base num_pts idx)).
  { destruct (Nat.eq_dec bsize 0) as [E|E].
    - subst bsize. destruct idx; [reflexivity|discriminate].
    - now rewrite (size2_shape3 x bsize feats num_pts) by (assumption || lia). }
  assert (Hbound : Forall (fun m => (m < length (concat (transpose21 x)))%nat)
                          (flatten3 (add_idx_base num_pts idx))).
  { rewrite (length_spirals x bsize feats num_pts) by assumption.
    apply (flat_index_bound idx bsize num_pts (pim_k self) Hs). exact Hlt. }
  destruct (index_rows_returns _ _ Hbound) as [rows [Hrows _]].
  unfold PaiIndexMatrix_forward. rewrite Hidx. cbn [obind].
  rewrite Hflat, Hrows. cbn [obind]. rewrite Hn.
  rewrite (view_blocks_gather x idx rows bsize feats num_pts (pim_k self)
             Hx Hfe Hs Hlt Hrows).
  unfold topkmax, assign, affinity. now rewrite !map_map.
Qed.



(** ** Moving the clouds *)

Lemma tabulate_ext_in {A : Type} (r c : nat) (f g : nat -> nat -> A) :
  (forall i j, (i < r)%nat -> (j < c)%nat -> f i j = g i j) ->
  tabulate r c f = tabulate r c g.
Proof.
  intros H. unfold tabulate. apply map_ext_in. intros i Hi.
  apply in_seq in Hi. apply map_ext_in. intros j Hj. apply in_seq in Hj.
  apply H; lia.
Qed.

Section Translation.

Variable t : vec.
Variables feats num_pts : nat.
Hypothesis Ht : length t = feats.
Hypothesis Hfe : (1 <= feats)%nat.

Lemma shape_translate1 (xb : matrix) :
  shape xb feats num_pts -> shape (translate1 t xb) feats num_pts.
Proof.
  intros [Hl Hf]. unfold translate1. split.
  - rewrite length_zip_with, Ht, Hl. apply Nat.min_id.
  - apply Forall_forall. intros r Hr.
    destruct (In_nth _ _ [] Hr) as [d [Hd <-]].
    rewrite length_zip_with, Ht, Hl, Nat.min_id in Hd.
    rewrite (nth_zip_with _ t xb d 0 [] []) by lia.
    rewrite length_map. apply (Forall_at _ xb d [] Hf). lia.
Qed.

Lemma get_translate1 (xb : matrix) (d m : nat) :
  shape xb feats num_pts -> (d < feats)%nat -> (m < num_pts)%nat ->
  get (translate1 t xb) d m = nth d t 0 + get xb d m.
Proof.
  intros [Hl Hf] Hd Hm. unfold get, translate1.
  rewrite (nth_zip_with _ t xb d 0 [] []) by lia.
  rewrite (nth_map_in _ _ m 0); [reflexivity|].
  rewrite (Forall_at _ xb d [] Hf) by lia. exact Hm.
Qed.

Lemma shape3_translate (x : tensor3) (bsize : nat) :
  shape3 x bsize feats num_pts -> shape3 (translate t x) bsize feats num_pts.
Proof.
  intros [Hl Hf]. split; [unfold translate; now rewrite length_map|].
  unfold translate. apply Forall_forall. intros r Hr.
  apply in_map_iff in Hr. destruct Hr as [xb [<- Hxb]].
  apply shape_translate1. rewrite Forall_forall in Hf. now apply Hf.
Qed.

Lemma sqdist_translate1 (xb : matrix) (i j : nat) :
  shape xb feats num_pts -> (i < num_pts)%nat -> (j < num_pts)%nat ->
  sqdist (translate1 t xb) i j = sqdist xb i j.
Proof.
  intros Hs Hi Hj. unfold sqdist.
  pose proof (shape_translate1 xb Hs) as [Hl' _]. pose proof Hs as [Hl _].
  unfold nrows. rewrite Hl', Hl.
  apply rsum_ext. intros d Hd.
  rewrite !get_translate1 by assumption. ring.
Qed.

Lemma pairwise_distance1_translate1 (xb : matrix) :
  shape xb feats num_pts ->
  pairwise_distance1 (translate1 t xb) = pairwise_distance1 xb.
Proof.
  intros Hs.
  rewrite (pairwise_distance1_eq _ feats num_pts (shape_translate1 xb Hs) Hfe).
  rewrite (pairwise_distance1_eq _ feats num_pts Hs Hfe).
  apply tabulate_ext_in. intros i j Hi Hj.
  now rewrite sqdist_translate1.
Qed.

Lemma knn_translate (topk : nat -> list R -> option (list nat))
    (x : tensor3) (bsize k : nat) :
  shape3 x bsize feats num_pts ->
  knn topk (translate t x) k = knn topk x k.
Proof.
  intros [_ Hf]. rewrite !knn_per_cloud. unfold translate. rewrite mapM_map.
  apply mapM_ext_in. intros xb Hxb. rewrite Forall_forall in Hf.
  now rewrite pairwise_distance1_translate1 by (now apply Hf).
Qed.

Lemma length_point (xb : matrix) (m : nat) :
  shape xb feats num_pts -> (m < num_pts)%nat -> length (point xb m) = feats.
Proof.
  intros Hs Hm. unfold point, transpose.
  rewrite (cloud_ncols xb feats num_pts Hs Hfe), (cloud_nrows xb feats num_pts Hs).
  now apply row_length_tabulate.
Qed.

Lemma nth_point (xb : matrix) (m d : nat) :
  shape xb feats num_pts -> (m < num_pts)%nat -> (d < feats)%nat ->
  nth d (point xb m) 0 = get xb d m.
Proof.
  intros Hs Hm Hd. unfold point, transpose.
  rewrite (cloud_ncols xb feats num_pts Hs Hfe), (cloud_nrows xb feats num_pts Hs).
  exact (get_tabulate num_pts feats (fun i j => get xb j i) m d Hm Hd).
Qed.

(** The relative coordinates [spirals - spirals[:, 0:1, :]] of a block
    do not change when every row moves by the same vector. *)
Lemma x_relative_shift (S S' : matrix) :
  nrows S' = nrows S -> ncols S' = ncols S ->
  (forall a l, (a < nrows S)%nat -> (l < ncols S)%nat ->
     get S' a l = nth l t 0 + get S a l) ->
  broadcast Rminus S' (firstn 1 S') = broadcast Rminus S (firstn 1 S).
Proof.
  intros Hr Hc Hg.
  destruct S as [|r0 S0], S' as [|r0' S0']; try discriminate; [reflexivity|].
  cbn [firstn]. unfold broadcast.
  change (nrows [r0']) with 1%nat. change (nrows [r0]) with 1%nat.
  change (ncols [r0']) with (ncols (r0' :: S0')).
  change (ncols [r0]) with (ncols (r0 :: S0)).
  rewrite Hr, Hc, !bdim_one, !bdim_same.
  apply tabulate_ext_in. intros i j Hi Hj.
  unfold bget.
  change (nrows [r0']) with 1%nat. change (nrows [r0]) with 1%nat.
  change (ncols [r0']) with (ncols (r0' :: S0')).
  change (ncols [r0]) with (ncols (r0 :: S0)).
  rewrite Hr, Hc.
  assert (Hq : (bidx (ncols (r0 :: S0)) j < ncols (r0 :: S0))%nat)
    by (now rewrite bidx_lt).
  assert (Hp : (bidx (nrows (r0 :: S0)) i < nrows (r0 :: S0))%nat)
    by (now rewrite bidx_lt).
  rewrite (Hg _ _ Hp Hq).
  change (bidx 1 i) with 0%nat.
  change (get [r0'] 0 (bidx (ncols (r0 :: S0)) j))
    with (get (r0' :: S0') 0 (bidx (ncols (r0 :: S0)) j)).
  change (get [r0] 0 (bidx (ncols (r0 :: S0)) j))
    with (get (r0 :: S0) 0 (bidx (ncols (r0 :: S0)) j)).
  rewrite (Hg 0%nat _ (Nat.lt_0_succ _) Hq). ring.
Qed.

Lemma block_translate1 (xb : matrix) (nb : list nat) :
  shape xb feats num_pts ->
  Forall (fun j => (j < num_pts)%nat) nb ->
  broadcast Rminus (map (point (translate1 t xb)) nb)
                   (firstn 1 (map (point (translate1 t xb)) nb))
  = broadcast Rminus (map (point xb) nb) (firstn 1 (map (point xb) nb)).
Proof.
  intros Hs Hnb. pose proof (shape_translate1 xb Hs) as Hs'.
  assert (Hc : forall yb, shape yb feats num_pts ->
             (nb <> [] -> ncols (map (point yb) nb) = feats)).
  { intros yb Hy Hne. destruct nb as [|m nb']; [congruence|]. cbn [map ncols].
    apply length_point; [exact Hy|]. now inversion Hnb. }
  destruct nb as [|m0 nb0] eqn:Enb; [reflexivity|]. rewrite <- Enb in *.
  assert (Hne : nb <> []) by (rewrite Enb; discriminate).
  apply x_relative_shift.
  - unfold nrows. now rewrite !length_map.
  - now rewrite (Hc _ Hs' Hne), (Hc _ Hs Hne).
  - intros a l Ha Hl. unfold nrows in Ha. rewrite length_map in Ha.
    rewrite (Hc _ Hs Hne) in Hl. unfold get.
    rewrite !(nth_map_in _ _ a 0%nat) by exact Ha.
    pose proof (Forall_at _ nb a 0%nat Hnb Ha) as Hm. cbn beta in Hm.
    rewrite !nth_point by assumption.
    now apply get_translate1.
Qed.

Lemma assign_neighbourhoods_translate (self : PaiIndexMatrix) (x : tensor3)
    (idx : index_tensor) (bsize k : nat) :
  shape3 x bsize feats num_pts ->
  index_shape idx bsize num_pts k ->
  (forall b i, (b < bsize)%nat -> (i < num_pts)%nat ->
     Forall (fun j => (j < num_pts)%nat) (nth i (nth b idx []) [])) ->
  map (assign self) (neighbourhoods (translate t x) idx)
  = map (assign self) (neighbourhoods x idx).
Proof.
  intros Hx Hs Hlt. pose proof (shape3_translate x bsize Hx) as Hx'.
  destruct (length_neighbourhoods x idx bsize feats num_pts k Hx Hs) as [Hnf Hnl].
  destruct (length_neighbourhoods _ idx bsize feats num_pts k Hx' Hs) as [Hnf' Hnl'].
  pose proof Hx as [Hl _]. pose proof Hx' as [Hl' _]. pose proof Hs as [Hil _].
  apply (blocks_ext _ _ [] bsize num_pts).
  - unfold neighbourhoods.
    now rewrite length_map, (concat_length_uniform _ num_pts Hnf'), Hnl'.
  - unfold neighbourhoods.
    now rewrite length_map, (concat_length_uniform _ num_pts Hnf), Hnl.
  - intros b i Hb Hi.
    assert (Hp : (b * num_pts + i < bsize * num_pts)%nat).
    { assert (S b * num_pts <= bsize * num_pts)%nat
        by (apply Nat.mul_le_mono_r; lia). lia. }
    rewrite !(nth_map_in _ _ _ [])
      by (unfold neighbourhoods;
          rewrite (concat_length_uniform _ num_pts) by assumption; lia).
    unfold neighbourhoods.
    rewrite (concat_nth_uniform _ num_pts b i [] Hnf') by lia.
    rewrite (concat_nth_uniform _ num_pts b i [] Hnf) by lia.
    rewrite !(nth_zip_with _ _ idx b [] [] []) by lia.
    destruct (index_shape_nth idx bsize num_pts k b i Hs Hb Hi) as [Hrn Hnb].
    rewrite !(nth_map_in _ _ i []) by lia.
    unfold translate. rewrite (nth_map_in _ x b []) by lia.
    unfold assign, affinity.
    rewrite (block_translate1 (nth b x []) (nth i (nth b idx []) []));
      [reflexivity| |now apply Hlt].
    now apply (shape3_nth x bsize feats num_pts).
Qed.

End Translation.

(** X6.  In exact arithmetic [PaiIndexMatrix.forward] does not see a
    translation of the input: moving every point of every cloud by the
    same vector leaves the flat neighbour indices and the assignment
    matrices unchanged, and [knn] returns the same neighbours. *)
Theorem forward_translation_invariant
    (topk : nat -> list R -> option (list nat)) (self : PaiIndexMatrix)
    (t : vec) (x : tensor3) (bsize feats num_pts : nat) :
  topk_contract topk ->
  shape3 x bsize feats num_pts -> (1 <= feats)%nat ->
  (pim_k self <= num_pts)%nat -> length t = feats ->
  knn topk (translate t x) (pim_k self) = knn topk x (pim_k self) /\
  PaiIndexMatrix_forward topk self (translate t x)
  = PaiIndexMatrix_forward topk self x.
Proof.
  intros Htopk Hx Hfe Hk Ht.
  pose proof (knn_translate t feats num_pts Ht Hfe topk x bsize (pim_k self) Hx) as Hknn.
  split; [exact Hknn|].
  pose proof (shape3_translate t feats num_pts Ht Hfe x bsize Hx) as Hx'.
  destruct (forward_neighbourhoods topk self x bsize feats num_pts Htopk Hx Hfe Hk)
    as (idx & Hidx & Hs & Hlt & Hfw).
  destruct (forward_neighbourhoods topk self _ bsize feats num_pts Htopk Hx' Hfe Hk)
    as (idx' & Hidx' & _ & _ & Hfw').
  assert (idx' = idx) by congruence. subst idx'.
  rewrite Hfw, Hfw'.
  now rewrite (assign_neighbourhoods_translate t feats num_pts Ht Hfe self x idx
                 bsize (pim_k self) Hx Hs Hlt).
Qed.

Lemma forward_translation_invariant_witness :
  knn topk_sorted (translate [1; 2; 3] two_points) (pim_k (sample_index 2 1))
  = knn topk_sorted two_points (pim_k (sample_index 2 1)) /\
  PaiIndexMatrix_forward topk_sorted (sample_index 2 1) (translate [1; 2; 3] two_points)
  = PaiIndexMatrix_forward topk_sorted (sample_index 2 1) two_points.
Proof.
  apply (forward_translation_invariant topk_sorted (sample_index 2 1) [1; 2; 3]
           two_points 1 3 2);
    [apply topk_sorted_contract|repeat constructor|lia|cbn; lia|reflexivity].
Defined.

(** ** [PaiNet.forward] and the size of the batch *)

Section BatchSize.

Variable topk : nat -> list R -> option (list nat).

Lemma BatchNorm1d_forward3_length (training : bool) (bn bn' : BatchNorm1d)
    (x y : tensor3) :
  BatchNorm1d_forward3 training bn x = Some (y, bn') -> length y = length x.
Proof.
  unfold BatchNorm1d_forward3. destruct training.
  - destruct (Nat.leb _ 1); [discriminate|]. intros [= <- _]. apply length_map.
  - intros [= <- _]. apply length_map.
Qed.

Lemma PaiConv_forward_length (training : bool) (c c' : PaiConv)
    (feature out : tensor3) (spirals_index : list nat) (permatrix : tensor3) :
  PaiConv_forward training c feature spirals_index permatrix = Some (out, c') ->
  length out = length feature.
Proof.
  unfold PaiConv_forward.
  destruct (index_rows _ _) as [rows|]; [|discriminate]. cbn [obind].
  destruct (BatchNorm1d_forward3 training _ _) as [[y bn]|] eqn:E; [|discriminate].
  cbn [obind]. intros [= <- _].
  apply BatchNorm1d_forward3_length in E. rewrite E.
  unfold transpose21. now rewrite length_map, length_view_blocks.
Qed.

Lemma length_gelu3 (x : tensor3) : length (gelu3 x) = length x.
Proof. unfold gelu3. apply length_map. Qed.

Lemma length_cat1_le {A : Type} (x y : list (list A)) :
  (length (cat1 x y) <= length x)%nat.
Proof. unfold cat1. rewrite length_zip_with. lia. Qed.

Lemma BatchNorm1d_forward2_single (bn : BatchNorm1d) (X : matrix) :
  (nrows X <= 1)%nat -> BatchNorm1d_forward2 true bn X = None.
Proof.
  intros H. unfold BatchNorm1d_forward2.
  destruct (Nat.leb_spec (nrows X) 1); [reflexivity|lia].
Qed.

Lemma PaiNet_forward_single (keep1 keep2 : nat -> nat -> bool)
    (self : PaiNet) (x : tensor3) (log : list call) :
  (length x <= 1)%nat ->
  PaiNet_forward topk true keep1 keep2 self x log = None.
Proof.
  intros Hx.
  unfold PaiNet_forward, call_paiIdxMatrix, call_conv, rbind, record, lift, ret,
    clone.
  destruct (PaiIndexMatrix_forward topk (paiIdxMatrix self) x)
    as [[spirals_index permatrix]|]; [|reflexivity].
  destruct (PaiConv_forward true (conv1 self) x spirals_index permatrix)
    as [[o1 c1]|] eqn:E1; [|reflexivity].
  apply PaiConv_forward_length in E1.
  destruct (PaiConv_forward true (conv2 self) _ spirals_index permatrix)
    as [[o2 c2]|]; [|reflexivity].
  destruct (PaiConv_forward true (conv3 self) _ spirals_index permatrix)
    as [[o3 c3]|]; [|reflexivity].
  destruct (PaiConv_forward true (conv4 self) _ spirals_index permatrix)
    as [[o4 c4]|]; [|reflexivity].
  destruct (BatchNorm1d_forward3 true (bn5 self) _) as [[y5 b5]|] eqn:E5;
    [|reflexivity].
  apply BatchNorm1d_forward3_length in E5.
  rewrite BatchNorm1d_forward2_single; [reflexivity|].
  unfold Linear_forward. rewrite nrows_tabulate. unfold nrows.
  etransitivity; [apply length_cat1_le|].
  unfold adaptive_max_pool1d. rewrite length_map, length_gelu3, E5.
  unfold Conv1d_forward. rewrite length_map.
  etransitivity; [apply length_cat1_le|].
  now rewrite length_gelu3, E1.
Qed.

Hypothesis Htopk : topk_contract topk.


Lemma PaiNet_sized_ok (self : PaiNet) (output_channels : nat) :
  PaiNet_sized self output_channels ->
  (1 <= args_emb_dims (net_args self))%nat -> PaiNet_ok self.
Proof.
  unfold PaiNet_sized. cbv zeta.
  intros (_ & _ & _ & H1 & H2 & H3 & H4 & H5 & _) Hemb.
  unfold PaiNet_ok, nrows.
  destruct H1 as (_ & _ & _ & _ & [[-> _] _] & _).
  destruct H2 as (_ & _ & _ & _ & [[-> _] _] & _).
  destruct H3 as (_ & _ & _ & _ & [[-> _] _] & _).
  destruct H4 as (_ & _ & _ & _ & [[-> _] _] & _).
  destruct H5 as [-> _]. lia.
Qed.

End BatchSize.

(** X7.  In training mode [PaiNet.forward] raises on a batch of a single
    cloud, whatever the network and the cloud: [bn6] is given one value
    per channel. *)
Theorem PaiNet_forward_training_single_cloud
    (topk : nat -> list R -> option (list nat))
    (keep1 keep2 : nat -> nat -> bool)
    (self : PaiNet) (x : tensor3) (log : list call) :
  length x = 1%nat ->
  PaiNet_forward topk true keep1 keep2 self x log = None.
Proof.
  intros Hx. apply PaiNet_forward_single. lia.
Qed.

Lemma PaiNet_forward_training_single_cloud_witness :
  PaiNet_forward topk_sorted true keep_all keep_all
    (sample_net (sample_index 1 16)) origin_cloud [] = None.
Proof.
  apply (PaiNet_forward_training_single_cloud topk_sorted keep_all keep_all
           (sample_net (sample_index 1 16)) origin_cloud []).
  reflexivity.
Defined.


Lemma sample_net_sized :
  PaiNet_sized (sample_net (sample_index 1 16)) 40.
Proof.
  unfold PaiNet_sized, sample_net, sample_index, zero_conv, fresh_bn, zeros,
    PaiConv_sized, PaiIndexMatrix_sized, Linear_sized, BatchNorm1d_sized.
  cbv zeta.
  cbn [net_args args_k args_emb_dims args_dropout net_k paiIdxMatrix bn5
       conv1 conv2 conv3 conv4 conv5 linear1 bn6 dp1 linear2 bn7 dp2 linear3
       pc_k pc_kernel_size pc_in_c pc_out_c pc_conv pc_bn lin_weight lin_bias
       conv_weight conv_bias bn_weight bn_bias bn_running_mean bn_running_var
       pim_k pim_kernel_size pim_kernels pim_one_padding].
  repeat split; try apply repeat_length; try apply shape_tabulate.
Qed.


(** ** [PaiConv.forward] *)

Lemma mapM_None {A B : Type} (f : A -> option B) (l : list A) :
  Exists (fun a => f a = None) l -> mapM f l = None.
Proof.
  induction 1 as [a l Ha|a l _ IH]; cbn [mapM].
  - now rewrite Ha.
  - rewrite IH. now destruct (f a).
Qed.

Lemma index_rows_raises (spirals : matrix) (l : list nat) :
  ~ Forall (fun m => (m < length spirals)%nat) l -> index_rows spirals l = None.
Proof.
  intros H. apply neg_Forall_Exists_neg in H.
  - apply mapM_None. apply Exists_exists in H. destruct H as [m [Hm Hge]].
    apply Exists_exists. exists m. split; [exact Hm|].
    apply nth_error_None. lia.
  - intros m. apply lt_dec.
Qed.

(** X9.  [PaiConv.forward] on a [B] x [C] x [N] feature tensor, with
    a layer of [__init__]'s sizes and an index of [B * N * k] entries:
    when every index is below [B * N] it returns a [B] x [out_c] x [N]
    tensor and keeps the weights of its linear map, and in evaluation
    mode the whole layer; when some index is not, it raises. *)
Theorem PaiConv_forward_shape (training : bool) (self : PaiConv)
    (feature : tensor3) (spirals_index : list nat) (permatrix : tensor3)
    (B C N out_c k kernel_size : nat) :
  PaiConv_sized self C out_c k kernel_size ->
  shape3 feature B C N -> (1 <= B)%nat -> (1 <= C)%nat -> (1 <= N)%nat ->
  (1 <= out_c)%nat ->
  length spirals_index = (B * N * k)%nat ->
  shape3 permatrix (B * N) k kernel_size ->
  (training = true -> 2 <= B * N)%nat ->
  (Forall (fun m => (m < B * N)%nat) spirals_index ->
   exists out self',
     PaiConv_forward training self feature spirals_index permatrix
     = Some (out, self') /\
     shape3 out B out_c N /\
     pc_conv self' = pc_conv self /\
     (training = false -> self' = self)) /\
  (~ Forall (fun m => (m < B * N)%nat) spirals_index ->
   PaiConv_forward training self feature spirals_index permatrix = None).
Proof.
  intros Hsz Hf HB HC HN Hout Hlen Hpm Hcount.
  assert (HW : nrows (lin_weight (pc_conv self)) = out_c).
  { destruct Hsz as (_ & _ & _ & _ & [[Hl _] _] & _). exact Hl. }
  split.
  - intros Hidx.
    destruct (PaiConv_forward_returns training self feature spirals_index
                permatrix B C N Hf HB HC HN Hidx)
      as (out & self' & E & Hs & Hw); [apply Hpm|lia|exact Hcount|].
    exists out, self'. rewrite HW in Hs.
    split; [exact E|]. split; [exact Hs|]. split; [exact Hw|].
    intros ->. exact (PaiConv_forward_eval self self' feature out _ _ E).
  - intros Hidx. unfold PaiConv_forward.
    rewrite index_rows_raises; [reflexivity|].
    now rewrite (length_spirals feature B C N Hf HC).
Qed.

Lemma PaiConv_forward_shape_witness :
  (Forall (fun m => (m < 1 * 2)%nat) [0; 1]%nat ->
   exists out self',
     PaiConv_forward false (zero_conv 3 64 1 16) two_points [0; 1]%nat
       [zeros 1 16; zeros 1 16]
     = Some (out, self') /\
     shape3 out 1 64 2 /\
     pc_conv self' = pc_conv (zero_conv 3 64 1 16) /\
     (false = false -> self' = zero_conv 3 64 1 16)) /\
  (~ Forall (fun m => (m < 1 * 2)%nat) [0; 1]%nat ->
   PaiConv_forward false (zero_conv 3 64 1 16) two_points [0; 1]%nat
     [zeros 1 16; zeros 1 16] = None).
Proof.
  apply (PaiConv_forward_shape false (zero_conv 3 64 1 16) two_points [0; 1]%nat
           [zeros 1 16; zeros 1 16] 1 3 2 64 1 16).
  - unfold PaiConv_sized, Linear_sized, BatchNorm1d_sized, zero_conv, fresh_bn, zeros.
    cbn [pc_k pc_kernel_size pc_in_c pc_out_c pc_conv pc_bn lin_weight lin_bias
         bn_weight bn_bias bn_running_mean bn_running_var].
    repeat split; try apply repeat_length; try apply shape_tabulate.
  - repeat constructor.
  - lia.
  - lia.
  - lia.
  - lia.
  - reflexivity.
  - split; [reflexivity|]. repeat constructor; apply shape_tabulate.
  - discriminate.
Defined.

(** ** The range of [TemperatureNet.forward] *)




(** ** [mish] *)




(** ** The rotation matrices of [Transform_Net] *)

Section Rotation.

Lemma eps12_pos : 0 < 1 / 10 ^ 12.
Proof. apply Rdiv_lt_0_compat; [lra|]. apply pow_lt. lra. Qed.

Lemma normalize1_unit (a b c : R) :
  1 / 10 ^ 12 <= norm2 [a; b; c] ->
  exists n, 0 < n /\ n * n = a * a + b * b + c * c /\
            normalize1 [a; b; c] = [a / n; b / n; c / n].
Proof.
  intros H. pose proof eps12_pos as He.
  exists (norm2 [a; b; c]). split; [lra|]. split.
  - unfold norm2. cbn [length rsum nth]. rewrite sqrt_sqrt; [ring|].
    nra.
  - unfold normalize1. rewrite Rmax_left by exact H. reflexivity.
Qed.

Lemma rotation_of_pose_orthonormal (p : vec) :
  length p = 6%nat -> nondegenerate p ->
  matmul (transpose (rotation_of_pose p)) (rotation_of_pose p) = identity3 /\
  det3 (rotation_of_pose p) = 1.
Proof.
  intros Hl [Hx Hz].
  destruct p as [|p0 [|p1 [|p2 [|p3 [|p4 [|p5 [|]]]]]]]; try discriminate.
  clear Hl. cbn [firstn skipn] in *. cbv zeta in Hz.
  destruct (normalize1_unit p0 p1 p2 Hx) as (n & Hn & Hnn & En).
  unfold rotation_of_pose. cbn [firstn skipn]. cbv zeta.
  rewrite En in *. clear En Hx.
  set (x0 := p0 / n) in *. set (x1 := p1 / n) in *. set (x2 := p2 / n) in *.
  assert (Hxx : x0 * x0 + x1 * x1 + x2 * x2 = 1).
  { subst x0 x1 x2.
    replace (p0 / n * (p0 / n) + p1 / n * (p1 / n) + p2 / n * (p2 / n))
      with ((p0 * p0 + p1 * p1 + p2 * p2) / (n * n)) by (field; lra).
    rewrite <- Hnn. field. lra. }
  clearbody x0 x1 x2. clear Hnn Hn n p0 p1 p2.
  change (cross3 [x0; x1; x2] [p3; p4; p5])
    with [x1 * p5 - x2 * p4; x2 * p3 - x0 * p5; x0 * p4 - x1 * p3] in *.
  set (c0 := x1 * p5 - x2 * p4) in *.
  set (c1 := x2 * p3 - x0 * p5) in *.
  set (c2 := x0 * p4 - x1 * p3) in *.
  assert (Hcx : c0 * x0 + c1 * x1 + c2 * x2 = 0) by (subst c0 c1 c2; ring).
  clearbody c0 c1 c2.
  destruct (normalize1_unit c0 c1 c2 Hz) as (m & Hm & Hmm & Em).
  rewrite Em. clear Em Hz.
  set (z0 := c0 / m) in *. set (z1 := c1 / m) in *. set (z2 := c2 / m) in *.
  assert (Hzz : z0 * z0 + z1 * z1 + z2 * z2 = 1).
  { subst z0 z1 z2.
    replace (c0 / m * (c0 / m) + c1 / m * (c1 / m) + c2 / m * (c2 / m))
      with ((c0 * c0 + c1 * c1 + c2 * c2) / (m * m)) by (field; lra).
    rewrite <- Hmm. field. lra. }
  assert (Hzx : z0 * x0 + z1 * x1 + z2 * x2 = 0).
  { subst z0 z1 z2. unfold Rdiv.
    replace (c0 * / m * x0 + c1 * / m * x1 + c2 * / m * x2)
      with ((c0 * x0 + c1 * x1 + c2 * x2) * / m) by ring.
    rewrite Hcx. ring. }
  clearbody z0 z1 z2. clear Hmm Hm m Hcx c0 c1 c2 p3 p4 p5.
  unfold cross3. cbn [nth].
  set (ZZ := z0 * z0 + z1 * z1 + z2 * z2) in *.
  set (XX := x0 * x0 + x1 * x1 + x2 * x2) in *.
  set (ZX := z0 * x0 + z1 * x1 + z2 * x2) in *.
  split.
  - unfold matmul, transpose, get, tabulate, identity3.
    cbn [map seq nth nrows ncols length rsum].
    repeat f_equal.
    all: try (transitivity XX; [subst XX; ring|exact Hxx]).
    all: try (transitivity ZZ; [subst ZZ; ring|exact Hzz]).
    all: try (transitivity ZX; [subst ZX; ring|exact Hzx]).
    all: try (transitivity (ZZ * XX - ZX * ZX);
              [subst ZZ XX ZX; ring|rewrite Hzz, Hxx, Hzx; ring]).
    all: try ring.
  - unfold det3, get, tabulate. cbn [map seq nth].
    transitivity (ZZ * XX - ZX * ZX);
      [subst ZZ XX ZX; ring|rewrite Hzz, Hxx, Hzx; ring].
Qed.

Lemma rotation_per_pose (poses : matrix) (b : nat) :
  length poses <> 3%nat -> (b < length poses)%nat ->
  nth b (compute_rotation_matrix_from_ortho6d poses) []
  = rotation_of_pose (nth b poses []).
Proof.
  intros H3 Hb. unfold compute_rotation_matrix_from_ortho6d. cbv zeta.
  set (x := F_normalize (map (firstn 3) poses)).
  set (y_raw := map (fun p => firstn 3 (skipn 3 p)) poses).
  assert (Hx : length x = length poses)
    by (unfold x, F_normalize; now rewrite !length_map).
  assert (Hy : length y_raw = length poses)
    by (unfold y_raw; now rewrite length_map).
  assert (Ec : torch_cross x y_raw = zip_with cross3 x y_raw).
  { unfold torch_cross, nrows. rewrite Hx.
    destruct (Nat.eqb_spec (length poses) 3); [contradiction|reflexivity]. }
  rewrite Ec.
  set (z := F_normalize (zip_with cross3 x y_raw)).
  assert (Hz : length z = length poses).
  { unfold z, F_normalize. rewrite length_map, length_zip_with. lia. }
  assert (Ec' : torch_cross z x = zip_with cross3 z x).
  { unfold torch_cross, nrows. rewrite Hz.
    destruct (Nat.eqb_spec (length poses) 3); [contradiction|reflexivity]. }
  rewrite Ec'.
  assert (Exb : nth b x [] = normalize1 (firstn 3 (nth b poses []))).
  { unfold x, F_normalize.
    rewrite (nth_map_in _ _ b []) by (now rewrite length_map).
    now rewrite (nth_map_in _ _ b []). }
  assert (Eyb : nth b y_raw [] = firstn 3 (skipn 3 (nth b poses []))).
  { unfold y_raw. now rewrite (nth_map_in _ _ b []). }
  assert (Ezb : nth b z []
                = normalize1 (cross3 (nth b x []) (nth b y_raw []))).
  { unfold z, F_normalize.
    rewrite (nth_map_in _ _ b []) by (rewrite length_zip_with; lia).
    now rewrite (nth_zip_with _ x y_raw b [] [] []) by lia. }
  unfold stack2, nrows. rewrite Hx.
  rewrite (nth_map_seq
             (fun b => tabulate 3 3 (fun i j =>
                get (nth j [x; zip_with cross3 z x; z] []) b i))) by exact Hb.
  unfold rotation_of_pose. cbv zeta.
  apply tabulate_ext_in. intros i j _ Hj. unfold get.
  destruct j as [|[|[|j]]]; [| | |lia]; cbn [nth].
  - now rewrite Exb.
  - rewrite (nth_zip_with _ z x b [] [] []) by lia.
    now rewrite Ezb, Exb, Eyb.
  - now rewrite Ezb, Exb, Eyb.
Qed.

Lemma rotation_three_same (p0 p1 p2 p3 p4 p5 : R) (b i : nat) :
  (b < 3)%nat -> (i < 3)%nat ->
  get (nth b (compute_rotation_matrix_from_ortho6d
                (repeat [p0; p1; p2; p3; p4; p5] 3)) []) i 1 = 0 /\
  get (nth b (compute_rotation_matrix_from_ortho6d
                (repeat [p0; p1; p2; p3; p4; p5] 3)) []) i 2 = 0.
Proof.
  intros Hb Hi.
  unfold compute_rotation_matrix_from_ortho6d, stack2, torch_cross, F_normalize,
    normalize1.
  cbn [repeat map firstn skipn nrows length Nat.eqb seq].
  set (n := Rmax _ _).
  unfold transpose, tabulate, get.
  cbn [map firstn skipn nrows ncols length Nat.eqb seq nth zip_with cross3].
  destruct b as [|[|[|b]]]; [| | |lia];
    (destruct i as [|[|[|i]]]; [| | |lia]);
    cbn [nth]; split; unfold Rdiv; ring.
Qed.

End Rotation.

(** X12.  When the batch does not hold exactly three poses,
    [compute_rotation_matrix_from_ortho6d] turns every non-degenerate
    pose into a rotation matrix: its columns are orthonormal and its
    determinant is 1. *)
Theorem rotation_matrix_orthonormal (poses : matrix) (b : nat) :
  length poses <> 3%nat -> (b < length poses)%nat ->
  length (nth b poses []) = 6%nat -> nondegenerate (nth b poses []) ->
  let M := nth b (compute_rotation_matrix_from_ortho6d poses) [] in
  matmul (transpose M) M = identity3 /\ det3 M = 1.
Proof.
  intros H3 Hb Hl Hn. cbv zeta. rewrite (rotation_per_pose poses b H3 Hb).
  now apply rotation_of_pose_orthonormal.
Qed.

Lemma rotation_matrix_orthonormal_witness :
  let M := nth 0 (compute_rotation_matrix_from_ortho6d [[1; 0; 0; 0; 1; 0]]) [] in
  matmul (transpose M) M = identity3 /\ det3 M = 1.
Proof.
  assert (H1 : norm2 [1; 0; 0] = 1).
  { unfold norm2. cbn [length rsum nth].
    replace (0 + 1 ^ 2 + 0 ^ 2 + 0 ^ 2) with 1 by ring. apply sqrt_1. }
  assert (E : normalize1 [1; 0; 0] = [1; 0; 0]).
  { unfold normalize1. rewrite H1, Rmax_left by (pose proof eps12_pos; lra).
    cbn [map]. repeat f_equal; field. }
  assert (H2 : norm2 [0; 0; 1] = 1).
  { unfold norm2. cbn [length rsum nth].
    replace (0 + 0 ^ 2 + 0 ^ 2 + 1 ^ 2) with 1 by ring. apply sqrt_1. }
  apply (rotation_matrix_orthonormal [[1; 0; 0; 0; 1; 0]] 0);
    [discriminate|cbn; lia|reflexivity|].
  unfold nondegenerate. cbn [nth firstn skipn]. cbv zeta. rewrite E.
  replace (cross3 [1; 0; 0] [0; 1; 0]) with [0; 0; 1]
    by (unfold cross3; cbn [nth]; repeat f_equal; ring).
  rewrite H1, H2. pose proof eps12_pos. lra.
Defined.

(** X13.  On a batch of exactly three poses the cross products run along
    the batch dimension: for three equal poses, whatever they are, the
    second and third column of every matrix returned are 0, so that none
    is a rotation. *)
Theorem rotation_matrix_batch_of_three (p0 p1 p2 p3 p4 p5 : R) (b : nat) :
  (b < 3)%nat ->
  let M := nth b (compute_rotation_matrix_from_ortho6d
                    (repeat [p0; p1; p2; p3; p4; p5] 3)) [] in
  (forall i, (i < 3)%nat -> get M i 1 = 0 /\ get M i 2 = 0) /\
  det3 M = 0.
Proof.
  intros Hb M.
  assert (H : forall i, (i < 3)%nat -> get M i 1 = 0 /\ get M i 2 = 0).
  { intros i Hi. now apply rotation_three_same. }
  split; [exact H|]. unfold det3.
  destruct (H 0%nat) as [-> ->]; [lia|].
  destruct (H 1%nat) as [-> ->]; [lia|].
  destruct (H 2%nat) as [-> ->]; [lia|]. ring.
Qed.

Lemma rotation_matrix_batch_of_three_witness :
  let M := nth 0 (compute_rotation_matrix_from_ortho6d
                    (repeat [1; 0; 0; 0; 1; 0] 3)) [] in
  (forall i, (i < 3)%nat -> get M i 1 = 0 /\ get M i 2 = 0) /\
  det3 M = 0.
Proof. apply (rotation_matrix_batch_of_three 1 0 0 0 1 0 0). lia. Defined.

(** ** [PointNet.forward] and its [squeeze] *)

Section PointNetFacts.

Lemma length_relu3 (x : tensor3) : length (relu3 x) = length x.
Proof. unfold relu3. apply length_map. Qed.

Lemma shape3_map_entries (f : R -> R) (x : tensor3) (B C N : nat) :
  shape3 x B C N -> shape3 (map (map_entries f) x) B C N.
Proof.
  intros [Hl Hf]. split; [now rewrite length_map|].
  apply Forall_forall. intros M HM. apply in_map_iff in HM.
  destruct HM as [xb [<- Hxb]]. rewrite Forall_forall in Hf.
  destruct (Hf xb Hxb) as [Hr Hc].
  split; [unfold map_entries; now rewrite length_map|].
  apply Forall_forall. intros row Hrow. apply in_map_iff in Hrow.
  destruct Hrow as [r [<- Hr']]. rewrite length_map.
  rewrite Forall_forall in Hc. now apply Hc.
Qed.

Lemma squeeze_single (M : matrix) :
  nrows M = 1%nat -> forall s, cat_dim1 (squeeze M) s = None.
Proof.
  intros H s. unfold squeeze. rewrite H. cbn [Nat.eqb].
  now destruct (Nat.eqb (ncols M) 1).
Qed.

Lemma squeeze_rank2 (M : matrix) :
  nrows M <> 1%nat -> ncols M <> 1%nat -> squeeze M = Rank2 M.
Proof.
  intros Hr Hc. unfold squeeze.
  destruct (Nat.eqb_spec (nrows M) 1); [contradiction|].
  destruct (Nat.eqb_spec (ncols M) 1); [contradiction|reflexivity].
Qed.


Lemma conv_bn_relu (training : bool) (c : Conv1d) (bn : BatchNorm1d)
    (x : tensor3) (B C N out_c : nat) :
  shape3 x B C N -> (1 <= B)%nat -> (1 <= C)%nat -> (1 <= out_c)%nat ->
  nrows (conv_weight c) = out_c ->
  (training = true -> 2 <= B * N)%nat ->
  exists y bn',
    BatchNorm1d_forward3 training bn (Conv1d_forward c x) = Some (y, bn') /\
    shape3 (relu3 y) B out_c N.
Proof.
  intros Hx HB HC Ho Hw Hcount.
  pose proof (shape3_Conv1d c x B C N Hx HC) as Hs. rewrite Hw in Hs.
  destruct (BatchNorm1d_forward3_returns training bn _ B out_c N Hs HB Ho Hcount)
    as (y & bn' & E & Hy & _).
  exists y, bn'. split; [exact E|]. now apply shape3_map_entries.
Qed.

Lemma pooled_shape (f : vec -> R) (x : tensor3) (B C N : nat) :
  shape3 x B C N -> (1 <= B)%nat ->
  nrows (map (map f) x) = B /\ ncols (map (map f) x) = C.
Proof.
  intros [Hl Hf] HB. split; [unfold nrows; now rewrite length_map|].
  destruct x as [|xb x]; cbn in Hl; [lia|]. cbn [map ncols].
  rewrite length_map. inversion Hf as [|? ? [Hr _] _]. exact Hr.
Qed.


Lemma sample_pointnet_sized : PointNet_sized sample_pointnet 1024 40.
Proof.
  unfold PointNet_sized, sample_pointnet, fresh_bn, zeros, Conv1d_sized,
    Linear_sized, BatchNorm1d_sized.
  cbv zeta.
  cbn [pn_conv1 pn_conv2 pn_conv3 pn_conv4 pn_conv5 pn_bn1 pn_bn2 pn_bn3
       pn_bn4 pn_bn5 pn_linear1 pn_bn6 pn_linear2 pn_bn7 pn_linear3
       lin_weight lin_bias conv_weight conv_bias bn_weight bn_bias
       bn_running_mean bn_running_var].
  repeat split; try apply repeat_length; try apply shape_tabulate.
Qed.

End PointNetFacts.

(** X14.  [PointNet.forward] raises on a batch of a single cloud, in
    training and in evaluation mode alike and whatever the network:
    [squeeze()] drops the batch dimension of the pooled features, and
    [torch.cat(..., 1)] finds no dimension 1. *)
Theorem PointNet_forward_single_cloud (training : bool)
    (keep1 keep2 : nat -> nat -> bool) (self : PointNet) (x : tensor3) :
  length x = 1%nat -> PointNet_forward training keep1 keep2 self x = None.
Proof.
  intros Hx. unfold PointNet_forward.
  destruct (BatchNorm1d_forward3 training (pn_bn1 self) _) as [[y1 b1]|] eqn:E1;
    [|reflexivity].
  apply BatchNorm1d_forward3_length in E1. cbn [obind].
  destruct (BatchNorm1d_forward3 training (pn_bn2 self) _) as [[y2 b2]|] eqn:E2;
    [|reflexivity].
  apply BatchNorm1d_forward3_length in E2. cbn [obind].
  destruct (BatchNorm1d_forward3 training (pn_bn3 self) _) as [[y3 b3]|] eqn:E3;
    [|reflexivity].
  apply BatchNorm1d_forward3_length in E3. cbn [obind].
  destruct (BatchNorm1d_forward3 training (pn_bn4 self) _) as [[y4 b4]|] eqn:E4;
    [|reflexivity].
  apply BatchNorm1d_forward3_length in E4. cbn [obind].
  destruct (BatchNorm1d_forward3 training (pn_bn5 self) _) as [[y5 b5]|] eqn:E5;
    [|reflexivity].
  apply BatchNorm1d_forward3_length in E5. cbn [obind].
  rewrite squeeze_single; [reflexivity|].
  unfold Conv1d_forward in E1, E2, E3, E4, E5.
  rewrite length_map in E1, E2, E3, E4, E5. rewrite length_relu3 in E2, E3, E4, E5.
  unfold nrows, adaptive_max_pool1d. rewrite length_map, length_relu3. congruence.
Qed.

Lemma PointNet_forward_single_cloud_witness :
  PointNet_forward false keep_all keep_all sample_pointnet origin_cloud = None.
Proof.
  apply (PointNet_forward_single_cloud false keep_all keep_all sample_pointnet
           origin_cloud).
  reflexivity.
Defined.

(** X15.  A [PointNet] with the layer sizes of [__init__] and at least
    two embedding dimensions, on a batch of [B >= 2] clouds of 3
    coordinate rows and [N >= 1] points, returns [B] rows of
    [output_channels] logits, in either mode. *)
Theorem PointNet_forward_logits (training : bool)
    (keep1 keep2 : nat -> nat -> bool) (self : PointNet)
    (emb_dims output_channels : nat) (x : tensor3) (B N : nat) :
  PointNet_sized self emb_dims output_channels ->
  shape3 x B 3 N -> (2 <= B)%nat -> (1 <= N)%nat -> (2 <= emb_dims)%nat ->
  exists logits self',
    PointNet_forward training keep1 keep2 self x = Some (logits, self') /\
    shape logits B output_channels.
Proof.
  intros (H1 & H2 & H3 & H4 & H5 & _ & _ & _ & _ & _ & _ & _ & _ & _ & _ & H8)
         Hx HB HN Hemb.
  assert (Hcount : training = true -> (2 <= B * N)%nat) by (intros _; nia).
  destruct H1 as [[W1 _] _], H2 as [[W2 _] _], H3 as [[W3 _] _],
           H4 as [[W4 _] _], H5 as [[W5 _] _], H8 as [[W8 _] _].
  destruct (conv_bn_relu training (pn_conv1 self) (pn_bn1 self) x B 3 N 64 Hx)
    as (y1 & b1 & E1 & S1); try assumption; try lia.
  destruct (conv_bn_relu training (pn_conv2 self) (pn_bn2 self) _ B 64 N 64 S1)
    as (y2 & b2 & E2 & S2); try assumption; try lia.
  destruct (conv_bn_relu training (pn_conv3 self) (pn_bn3 self) _ B 64 N 64 S2)
    as (y3 & b3 & E3 & S3); try assumption; try lia.
  destruct (conv_bn_relu training (pn_conv4 self) (pn_bn4 self) _ B 64 N 128 S3)
    as (y4 & b4 & E4 & S4); try assumption; try lia.
  destruct (conv_bn_relu training (pn_conv5 self) (pn_bn5 self) _ B 128 N emb_dims S4)
    as (y5 & b5 & E5 & S5); try assumption; try lia.
  destruct (pooled_shape list_max _ B emb_dims N S5) as [Rm Cm]; [lia|].
  destruct (pooled_shape list_mean _ B emb_dims N S5) as [Ra Ca]; [lia|].
  set (X6 := cat1 (adaptive_max_pool1d (relu3 y5)) (adaptive_avg_pool1d (relu3 y5))).
  assert (HX6 : nrows X6 = B).
  { unfold X6, cat1, nrows. rewrite length_zip_with.
    unfold nrows, adaptive_max_pool1d, adaptive_avg_pool1d in *. lia. }
  destruct (BatchNorm1d_forward2_returns training (pn_bn6 self)
              (Linear_forward (pn_linear1 self) X6) B)
    as (m6 & v6 & b6 & E6 & _).
  { unfold Linear_forward. now rewrite nrows_tabulate. }
  { intros _. lia. }
  set (Y6 := tabulate _ _ _) in E6.
  set (x7 := Dropout_forward (pn_dp1 self) training keep1
               (map_entries (leaky_relu (2 / 10)) Y6)).
  assert (Hx7 : nrows x7 = B).
  { unfold x7. rewrite nrows_Dropout, nrows_map_entries. unfold Y6.
    rewrite nrows_tabulate. unfold Linear_forward. now rewrite nrows_tabulate. }
  destruct (BatchNorm1d_forward2_returns training (pn_bn7 self)
              (Linear_forward (pn_linear2 self) x7) B)
    as (m7 & v7 & b7 & E7 & _).
  { unfold Linear_forward. now rewrite nrows_tabulate. }
  { intros _. lia. }
  set (Y7 := tabulate _ _ _) in E7.
  eexists _, _. split.
  - unfold PointNet_forward. rewrite E1. cbn [obind]. rewrite E2. cbn [obind].
    rewrite E3. cbn [obind]. rewrite E4. cbn [obind]. rewrite E5. cbn [obind].
    rewrite !squeeze_rank2
      by (unfold adaptive_max_pool1d, adaptive_avg_pool1d; lia).
    cbn [cat_dim1 obind]. fold X6. rewrite E6. cbn [obind]. fold x7.
    rewrite E7. cbn [obind]. reflexivity.
  - unfold Linear_forward.
    rewrite nrows_Dropout, nrows_map_entries. unfold Y7.
    rewrite nrows_tabulate. unfold Linear_forward at 1.
    rewrite nrows_tabulate, Hx7.
    change (nrows (lin_weight (pn_linear3 self)))
      with (length (lin_weight (pn_linear3 self))).
    rewrite W8. apply shape_tabulate.
Qed.

Lemma PointNet_forward_logits_witness :
  exists logits self',
    PointNet_forward true keep_all keep_all sample_pointnet sample_input
    = Some (logits, self') /\
    shape logits 2 40.
Proof.
  apply (PointNet_forward_logits true keep_all keep_all sample_pointnet 1024 40
           sample_input 2 1);
    [apply sample_pointnet_sized|apply sample_input_shape|lia|lia|lia].
Defined.

(** ** The edge features of [get_graph_feature] *)

Section GraphFeature.

Lemma view_blocks_concat {A : Type} (L : list (list A)) (n k : nat) :
  length L = n -> Forall (fun r => length r = k) L ->
  view_blocks n k (concat L) = L.
Proof.
  intros Hl Hf. apply (nth_ext _ _ [] []).
  - now rewrite length_view_blocks.
  - intros p Hp. rewrite length_view_blocks in Hp.
    rewrite nth_view_blocks by exact Hp.
    assert (Hpk : length (nth p L []) = k) by (apply (Forall_at _ L p [] Hf); lia).
    destruct (nth p L []) as [|a0 r0] eqn:E.
    + cbn in Hpk. subst k. now rewrite firstn_O.
    + apply (nth_ext _ _ a0 a0).
      * rewrite length_firstn, length_skipn, (concat_length_uniform L k Hf), Hl.
        rewrite Hpk. nia.
      * intros a Ha.
        rewrite length_firstn, length_skipn, (concat_length_uniform L k Hf), Hl in Ha.
        assert (Hak : (a < k)%nat) by lia.
        rewrite nth_firstn. destruct (Nat.ltb_spec a k) as [_|]; [|lia].
        rewrite nth_skipn.
        rewrite (concat_nth_uniform L k p a a0 Hf) by lia.
        now rewrite E.
Qed.

End GraphFeature.



(** ** [knn] with as many neighbours as points *)



(** ** In evaluation mode every cloud is classified on its own *)

Section PerCloud.

Lemma map_seq_nth {A B : Type} (f : A -> B) (l : list A) (d : A) :
  map (fun i => f (nth i l d)) (seq 0 (length l)) = map f l.
Proof.
  induction l as [|a l IH]; [reflexivity|].
  cbn [length seq map nth]. f_equal.
  rewrite <- seq_shift, map_map. exact IH.
Qed.

Lemma Linear_forward_rows (self : Linear) (X : matrix) :
  Linear_forward self X = map (linear_row self) X.
Proof.
  unfold Linear_forward, tabulate, nrows at 1.
  exact (map_seq_nth (linear_row self) X []).
Qed.

Lemma BatchNorm1d_forward2_rows (bn : BatchNorm1d) (X : matrix) :
  BatchNorm1d_forward2 false bn X
  = Some (map (bn_eval_row bn (ncols X)) X, bn).
Proof.
  unfold BatchNorm1d_forward2, tabulate, nrows. do 2 f_equal.
  exact (map_seq_nth (bn_eval_row bn (ncols X)) X []).
Qed.

Lemma map_zip_with {A B C D : Type} (f : C -> D) (g : A -> B -> C)
    (l1 : list A) (l2 : list B) :
  map f (zip_with g l1 l2) = zip_with (fun a b => f (g a b)) l1 l2.
Proof.
  revert l2. induction l1 as [|a l1 IH]; intros [|b l2]; cbn; try reflexivity.
  now rewrite IH.
Qed.

Lemma zip_with_ext {A B C : Type} (f g : A -> B -> C)
    (l1 : list A) (l2 : list B) :
  (forall a b, f a b = g a b) -> zip_with f l1 l2 = zip_with g l1 l2.
Proof.
  intros H. revert l2.
  induction l1 as [|a l1 IH]; intros [|b l2]; cbn; try reflexivity.
  now rewrite H, IH.
Qed.

Lemma shape_linear_rows (self : Linear) (X : matrix) (n : nat) :
  length X = n -> shape (map (linear_row self) X) n (nrows (lin_weight self)).
Proof.
  intros Hl. split; [now rewrite length_map|].
  apply Forall_forall. intros r Hr. apply in_map_iff in Hr.
  destruct Hr as [row [<- _]]. unfold linear_row.
  now rewrite length_map, length_seq.
Qed.

Lemma PaiConv_forward_cloud (c : PaiConv) (feature : tensor3)
    (idx : index_tensor) (Pc : list (list matrix)) (B C N k : nat) :
  shape3 feature B C N -> (1 <= B)%nat -> (1 <= C)%nat -> (1 <= N)%nat ->
  pc_k c = k -> index_shape idx B N k ->
  (forall b i, (b < B)%nat -> (i < N)%nat ->
     Forall (fun j => (j < N)%nat) (nth i (nth b idx []) [])) ->
  length Pc = B -> Forall (fun r => length r = N) Pc ->
  (1 <= nrows (lin_weight (pc_conv c)))%nat ->
  exists out,
    PaiConv_forward false c feature (flatten3 (add_idx_base N idx)) (concat Pc)
    = Some (out, c) /\
    shape3 out B (nrows (lin_weight (pc_conv c))) N /\
    forall b, (b < B)%nat ->
      nth b out [] = cloud_conv c N (nth b feature []) (nth b idx []) (nth b Pc []).
Proof.
  intros Hx HB HC HN Hk Hs Hlt HPl HPf HW.
  destruct (size_shape3 feature B C N Hx HB HC) as (E0 & E1 & E2).
  assert (Hbound : Forall (fun m => (m < length (concat (transpose21 feature)))%nat)
                          (flatten3 (add_idx_base N idx))).
  { rewrite (length_spirals feature B C N) by assumption.
    apply (flat_index_bound idx B N k Hs). exact Hlt. }
  destruct (index_rows_returns _ _ Hbound) as [rows [Hrows _]].
  destruct (length_neighbourhoods feature idx B C N k Hx Hs) as [Hnf Hnl].
  pose proof Hx as [Hl Hf]. pose proof Hs as [Hil Hif].
  set (out_c := nrows (lin_weight (pc_conv c))) in *.
  set (Lc := map (fun b =>
                map (linear_row (pc_conv c))
                  (map (@concat R)
                     (zip_with matmul
                        (map transpose
                           (map (map (point (nth b feature []))) (nth b idx [])))
                        (nth b Pc []))))
             (seq 0 B)).
  assert (HLc : length Lc = B) by (unfold Lc; now rewrite length_map, length_seq).
  assert (HLb : forall b, (b < B)%nat ->
            shape (nth b Lc []) N out_c).
  { intros b Hb. unfold Lc.
    rewrite (nth_map_seq (fun b => map (linear_row (pc_conv c)) _)) by exact Hb.
    apply shape_linear_rows.
    rewrite length_map, length_zip_with, !length_map.
    destruct (index_shape_nth idx B N k b 0 Hs Hb) as [Hrn _]; [lia|].
    rewrite Hrn. rewrite (Forall_at _ Pc b [] HPf) by lia. lia. }
  assert (HLf : Forall (fun r => length r = N) Lc).
  { apply Forall_forall. intros r Hr.
    destruct (In_nth _ _ [] Hr) as [b [Hb <-]]. rewrite HLc in Hb.
    apply (HLb b Hb). }
  assert (EL : Linear_forward (pc_conv c)
                 (map (@concat R)
                    (bmm (transpose21 (neighbourhoods feature idx)) (concat Pc)))
               = concat Lc).
  { rewrite Linear_forward_rows.
    apply (blocks_ext _ _ [] B N).
    - unfold bmm, transpose21. rewrite !length_map, length_zip_with, length_map.
      unfold neighbourhoods.
      rewrite (concat_length_uniform _ N Hnf), Hnl.
      rewrite (concat_length_uniform _ N HPf), HPl. lia.
    - now rewrite (concat_length_uniform _ N HLf), HLc.
    - intros b i Hb Hi.
      assert (Hp : (b * N + i < B * N)%nat).
      { assert (S b * N <= B * N)%nat by (apply Nat.mul_le_mono_r; lia). lia. }
      assert (Hlen1 : length (neighbourhoods feature idx) = (B * N)%nat).
      { unfold neighbourhoods. now rewrite (concat_length_uniform _ N Hnf), Hnl. }
      assert (Hlen2 : length (concat Pc) = (B * N)%nat).
      { now rewrite (concat_length_uniform _ N HPf), HPl. }
      rewrite (concat_nth_uniform _ N b i [] HLf) by lia.
      unfold Lc.
      rewrite (nth_map_seq (fun b => map (linear_row (pc_conv c)) _)) by exact Hb.
      destruct (index_shape_nth idx B N k b i Hs Hb Hi) as [Hrn Hnb].
      assert (HPb : length (nth b Pc []) = N) by (apply (Forall_at _ Pc b [] HPf); lia).
      rewrite !(nth_map_in _ _ _ [])
        by (unfold bmm, transpose21;
            rewrite ?length_map, ?length_zip_with, ?length_map; lia).
      do 2 f_equal. unfold bmm, transpose21.
      rewrite (nth_zip_with _ _ _ (b * N + i) [] [] [])
        by (rewrite ?length_map; lia).
      rewrite (nth_zip_with _ _ _ i [] [] []) by (rewrite ?length_map; lia).
      rewrite (concat_nth_uniform _ N b i [] HPf) by lia.
      f_equal.
      rewrite !(nth_map_in _ _ _ []) by (rewrite ?length_map; lia).
      f_equal. unfold neighbourhoods.
      rewrite (concat_nth_uniform _ N b i [] Hnf) by lia.
      rewrite (nth_zip_with _ feature idx b [] [] []) by lia.
      now rewrite (nth_map_in _ _ i []) by lia. }
  assert (Hy : shape3 (transpose21 Lc) B out_c N).
  { split; [unfold transpose21; now rewrite length_map|].
    apply Forall_forall. intros M HM. unfold transpose21 in HM.
    apply in_map_iff in HM. destruct HM as [blk [<- Hblk]].
    destruct (In_nth _ _ [] Hblk) as [b [Hb <-]]. rewrite HLc in Hb.
    apply shape_transpose; [now apply HLb|exact HN]. }
  destruct (size_shape3 _ B out_c N Hy HB HW) as (Y0 & Y1 & Y2).
  eexists. split; [|split].
  - unfold PaiConv_forward. rewrite E0, E2, Hrows. cbn [obind].
    rewrite Hk.
    rewrite (view_blocks_gather feature idx rows B C N k Hx HC Hs Hlt Hrows).
    rewrite EL, (view_blocks_concat Lc B N HLc HLf).
    unfold BatchNorm1d_forward3. rewrite Y1, Y2. cbn [obind].
    unfold PaiConv_with_bn. destruct c; reflexivity.
  - apply shape3_map_tabulate. unfold transpose21. now rewrite length_map.
  - intros b Hb. unfold transpose21.
    rewrite (nth_map_in _ _ b []) by (rewrite length_map; lia).
    rewrite (nth_map_in _ _ b []) by lia.
    unfold cloud_conv, bn_eval_cloud. cbv zeta. fold out_c.
    unfold Lc.
    now rewrite (nth_map_seq (fun b => map (linear_row (pc_conv c)) _)) by exact Hb.
Qed.

End PerCloud.

Section PerCloudNet.

Variable topk : nat -> list R -> option (list nat).
Hypothesis Htopk : topk_contract topk.

Lemma ncols_linear_rows (self : Linear) (X : matrix) :
  X <> [] -> ncols (map (linear_row self) X) = nrows (lin_weight self).
Proof.
  destruct X as [|row X]; [congruence|]. intros _. cbn [map ncols].
  unfold linear_row. now rewrite length_map, length_seq.
Qed.

Lemma nth_cat1 (x y : tensor3) (b : nat) :
  (b < length x)%nat -> (b < length y)%nat ->
  nth b (cat1 x y) [] = nth b x [] ++ nth b y [].
Proof. intros Hx Hy. unfold cat1. now apply nth_zip_with. Qed.

Lemma nth_gelu3 (x : tensor3) (b : nat) :
  (b < length x)%nat -> nth b (gelu3 x) [] = map_entries gelu (nth b x []).
Proof. intros Hb. unfold gelu3. now apply nth_map_in. Qed.

Lemma knn_single (x : tensor3) (idx : index_tensor) (k b : nat) :
  knn topk x k = Some idx -> (b < length x)%nat ->
  knn topk [nth b x []] k = Some [nth b idx []].
Proof.
  intros H Hb. rewrite knn_per_cloud in *.
  pose proof (mapM_nth _ [] [] _ _ b H Hb) as E. cbn beta in E.
  cbn [mapM]. now rewrite E.
Qed.

Lemma PaiNet_forward_clouds (keep1 keep2 : nat -> nat -> bool) (self : PaiNet)
    (output_channels : nat) (x : tensor3) (B N : nat) (log : list call) :
  PaiNet_sized self output_channels ->
  (1 <= args_emb_dims (net_args self))%nat ->
  shape3 x B 3 N -> (1 <= B)%nat -> (1 <= N)%nat ->
  (args_k (net_args self) <= N)%nat ->
  exists idx logits log1,
    knn topk x (args_k (net_args self)) = Some idx /\
    PaiNet_forward topk false keep1 keep2 self x log = Some (logits, self, log1) /\
    length logits = B /\
    forall b, (b < B)%nat ->
      nth b logits [] = cloud_logits self N (nth b x []) (nth b idx []).
Proof.
  intros Hsz Hemb Hx HB HN Hk.
  pose proof (PaiNet_sized_ok self output_channels Hsz Hemb)
    as (Hc1 & Hc2 & Hc3 & Hc4 & Hc5).
  unfold PaiNet_sized in Hsz. cbv zeta in Hsz.
  destruct Hsz as (_ & (Hpk & _) & _ & (K1 & _) & (K2 & _) & (K3 & _) & (K4 & _) & _).
  set (k := args_k (net_args self)) in *.
  set (m := paiIdxMatrix self) in *.
  assert (Hk' : (pim_k m <= N)%nat) by (rewrite Hpk; exact Hk).
  destruct (forward_neighbourhoods topk m x B 3 N Htopk Hx) as
    (idx & Hidx & Hs & Hlt & Hfw); [lia|exact Hk'|].
  rewrite Hpk in Hidx, Hs.
  pose proof Hx as [Hl Hf]. pose proof Hs as [Hil Hif].
  set (Pc := zip_with
               (fun xb rows => map (fun nb => assign m (map (point xb) nb)) rows)
               x idx).
  assert (EP : map (assign m) (neighbourhoods x idx) = concat Pc).
  { unfold neighbourhoods, Pc. rewrite concat_map, map_zip_with.
    f_equal. apply zip_with_ext. intros xb rows. apply map_map. }
  assert (HPl : length Pc = B) by (unfold Pc; rewrite length_zip_with; lia).
  assert (HPb : forall b, (b < B)%nat ->
            nth b Pc [] = map (fun nb => assign m (map (point (nth b x [])) nb))
                              (nth b idx [])).
  { intros b Hb. unfold Pc. now rewrite (nth_zip_with _ x idx b [] [] []) by lia. }
  assert (HPf : Forall (fun r => length r = N) Pc).
  { apply Forall_forall. intros r Hr.
    destruct (In_nth _ _ [] Hr) as [b [Hb <-]]. rewrite HPl in Hb.
    rewrite HPb, length_map by exact Hb.
    destruct (index_shape_nth idx B N k b 0 Hs Hb) as [Hrn _]; [lia|exact Hrn]. }
  rewrite EP in Hfw.
  destruct (PaiConv_forward_cloud (conv1 self) x idx Pc B 3 N k Hx)
    as (o1 & E1 & S1 & N1); try assumption; try lia.
  pose proof (shape3_gelu3 _ _ _ _ S1) as G1.
  destruct (PaiConv_forward_cloud (conv2 self) (gelu3 o1) idx Pc B _ N k G1)
    as (o2 & E2 & S2 & N2); try assumption; try lia.
  pose proof (shape3_gelu3 _ _ _ _ S2) as G2.
  destruct (PaiConv_forward_cloud (conv3 self) (gelu3 o2) idx Pc B _ N k G2)
    as (o3 & E3 & S3 & N3); try assumption; try lia.
  pose proof (shape3_gelu3 _ _ _ _ S3) as G3.
  destruct (PaiConv_forward_cloud (conv4 self) (gelu3 o3) idx Pc B _ N k G3)
    as (o4 & E4 & S4 & N4); try assumption; try lia.
  pose proof (shape3_gelu3 _ _ _ _ S4) as G4.
  set (xcat := cat1 (gelu3 o1) (cat1 (gelu3 o2) (cat1 (gelu3 o3) (gelu3 o4)))).
  pose proof (shape3_cat1 _ _ _ _ _ _ G1
                (shape3_cat1 _ _ _ _ _ _ G2 (shape3_cat1 _ _ _ _ _ _ G3 G4))) as Scat.
  fold xcat in Scat.
  assert (S5 : shape3 (Conv1d_forward (conv5 self) xcat) B
                      (nrows (conv_weight (conv5 self))) N).
  { apply (shape3_Conv1d (conv5 self) xcat _ _ _ Scat). lia. }
  destruct (size_shape3 _ _ _ _ S5 HB Hc5) as (Z0 & Z1 & Z2).
  set (y5 := map (bn_eval_cloud (bn5 self) (nrows (conv_weight (conv5 self))) N)
                 (Conv1d_forward (conv5 self) xcat)).
  assert (E5 : BatchNorm1d_forward3 false (bn5 self) (Conv1d_forward (conv5 self) xcat)
               = Some (y5, bn5 self)).
  { unfold BatchNorm1d_forward3. now rewrite Z1, Z2. }
  set (X6 := cat1 (adaptive_max_pool1d (gelu3 y5)) (adaptive_avg_pool1d (gelu3 y5))).
  assert (Ly5 : length y5 = B).
  { unfold y5, Conv1d_forward. rewrite !length_map. apply Scat. }
  assert (HX6 : length X6 = B).
  { unfold X6, cat1, adaptive_max_pool1d, adaptive_avg_pool1d, gelu3.
    rewrite length_zip_with, !length_map. lia. }
  assert (HX6n : X6 <> []) by (intros E; rewrite E in HX6; cbn in HX6; lia).
  set (A6 := map (linear_row (linear1 self)) X6).
  set (B6 := map (bn_eval_row (bn6 self) (nrows (lin_weight (linear1 self)))) A6).
  set (x7 := map_entries gelu B6).
  set (A7 := map (linear_row (linear2 self)) x7).
  set (B7 := map (bn_eval_row (bn7 self) (nrows (lin_weight (linear2 self)))) A7).
  set (x8 := map_entries gelu B7).
  assert (Lx7 : length x7 = B)
    by (unfold x7, map_entries, B6, A6; now rewrite !length_map).
  assert (Hx7n : x7 <> []) by (intros E; rewrite E in Lx7; cbn in Lx7; lia).
  exists idx, (map (linear_row (linear3 self)) x8). eexists.
  split; [exact Hidx|]. split; [|split].
  - unfold PaiNet_forward, call_paiIdxMatrix, call_conv, rbind, record, lift,
      ret, clone.
    fold m. rewrite Hfw, E1, E2, E3, E4. fold xcat. rewrite E5. fold X6.
    rewrite Linear_forward_rows. fold A6.
    rewrite BatchNorm1d_forward2_rows.
    unfold A6 at 1. rewrite (ncols_linear_rows _ X6 HX6n). fold A6. fold B6.
    unfold Dropout_forward. fold x7.
    rewrite Linear_forward_rows. fold A7.
    rewrite BatchNorm1d_forward2_rows.
    unfold A7 at 1. rewrite (ncols_linear_rows _ x7 Hx7n). fold A7. fold B7.
    fold x8. rewrite Linear_forward_rows.
    destruct self; reflexivity.
  - unfold x8, map_entries, B7, A7. now rewrite !length_map.
  - intros b Hb.
    assert (Lo : forall o C, shape3 o B C N -> length o = B) by (intros o C [H _]; exact H).
    assert (Eb1 : nth b (gelu3 o1) []
                  = map_entries gelu
                      (cloud_conv (conv1 self) N (nth b x []) (nth b idx [])
                                  (nth b Pc []))).
    { rewrite nth_gelu3 by (rewrite (Lo _ _ S1); exact Hb). now rewrite N1. }
    assert (Eb2 : nth b (gelu3 o2) []
                  = map_entries gelu
                      (cloud_conv (conv2 self) N (nth b (gelu3 o1) []) (nth b idx [])
                                  (nth b Pc []))).
    { rewrite nth_gelu3 by (rewrite (Lo _ _ S2); exact Hb). now rewrite N2. }
    assert (Eb3 : nth b (gelu3 o3) []
                  = map_entries gelu
                      (cloud_conv (conv3 self) N (nth b (gelu3 o2) []) (nth b idx [])
                                  (nth b Pc []))).
    { rewrite nth_gelu3 by (rewrite (Lo _ _ S3); exact Hb). now rewrite N3. }
    assert (Eb4 : nth b (gelu3 o4) []
                  = map_entries gelu
                      (cloud_conv (conv4 self) N (nth b (gelu3 o3) []) (nth b idx [])
                                  (nth b Pc []))).
    { rewrite nth_gelu3 by (rewrite (Lo _ _ S4); exact Hb). now rewrite N4. }
    assert (Ecat : nth b xcat []
                   = nth b (gelu3 o1) [] ++ nth b (gelu3 o2) []
                     ++ nth b (gelu3 o3) [] ++ nth b (gelu3 o4) []).
    { unfold xcat.
      pose proof (Lo _ _ G1). pose proof (Lo _ _ G2).
      pose proof (Lo _ _ G3). pose proof (Lo _ _ G4).
      rewrite nth_cat1
        by (unfold cat1; rewrite ?length_zip_with; lia).
      rewrite nth_cat1
        by (unfold cat1; rewrite ?length_zip_with; lia).
      rewrite nth_cat1 by lia. reflexivity. }
    assert (Ey5 : nth b (gelu3 y5) []
                  = map_entries gelu
                      (bn_eval_cloud (bn5 self) (nrows (conv_weight (conv5 self))) N
                         (nth 0 (Conv1d_forward (conv5 self) [nth b xcat []]) []))).
    { rewrite nth_gelu3 by lia. unfold y5.
      rewrite (nth_map_in _ _ b [])
        by (unfold Conv1d_forward; rewrite length_map; apply Scat || (destruct Scat as [-> _]; exact Hb)).
      unfold Conv1d_forward.
      rewrite (nth_map_in _ _ b []) by (destruct Scat as [-> _]; exact Hb).
      reflexivity. }
    assert (EX6 : nth b X6 []
                  = map list_max (nth b (gelu3 y5) [])
                    ++ map list_mean (nth b (gelu3 y5) [])).
    { unfold X6, cat1, adaptive_max_pool1d, adaptive_avg_pool1d.
      rewrite (nth_zip_with _ _ _ b [] [] [])
        by (rewrite length_map, length_gelu3; lia).
      now rewrite !(nth_map_in _ _ b []) by (rewrite length_gelu3; lia). }
    unfold x8, B7, A7, x7, B6, A6, map_entries.
    rewrite !(nth_map_in _ _ b []) by (rewrite ?length_map; lia).
    rewrite EX6, Ey5, Ecat, Eb4, Eb3, Eb2, Eb1.
    rewrite (HPb b Hb). reflexivity.
Qed.

End PerCloudNet.

(** X18.  In evaluation mode [PaiNet.forward] classifies every cloud on
    its own: the logits it returns for cloud [b] of a batch are the
    logits it returns when that cloud is passed alone, whatever the other
    clouds of the batch are. *)
Theorem PaiNet_forward_eval_per_cloud
    (topk : nat -> list R -> option (list nat))
    (keep1 keep2 keep1' keep2' : nat -> nat -> bool) (self : PaiNet)
    (output_channels : nat) (x : tensor3) (B N b : nat) (log log' : list call) :
  topk_contract topk ->
  PaiNet_sized self output_channels ->
  (1 <= args_emb_dims (net_args self))%nat ->
  shape3 x B 3 N -> (1 <= N)%nat ->
  (args_k (net_args self) <= N)%nat -> (b < B)%nat ->
  exists logits log1 alone log1',
    PaiNet_forward topk false keep1 keep2 self x log
    = Some (logits, self, log1) /\
    PaiNet_forward topk false keep1' keep2' self [nth b x []] log'
    = Some (alone, self, log1') /\
    length logits = B /\ length alone = 1%nat /\
    nth b logits [] = nth 0 alone [].
Proof.
  intros Htopk Hsz Hemb Hx HN Hk Hb.
  destruct (PaiNet_forward_clouds topk Htopk keep1 keep2 self output_channels
              x B N log Hsz Hemb Hx) as (idx & logits & log1 & Hidx & E & Hl & Hn);
    [lia|exact HN|exact Hk|].
  assert (Hx1 : shape3 [nth b x []] 1 3 N).
  { split; [reflexivity|]. constructor; [|constructor].
    now apply (shape3_nth x B 3 N). }
  destruct (PaiNet_forward_clouds topk Htopk keep1' keep2' self output_channels
              [nth b x []] 1 N log' Hsz Hemb Hx1)
    as (idx1 & alone & log1' & Hidx1 & E1 & Hl1 & Hn1); [lia|exact HN|exact Hk|].
  exists logits, log1, alone, log1'.
  split; [exact E|]. split; [exact E1|]. split; [exact Hl|]. split; [exact Hl1|].
  rewrite (Hn b Hb), (Hn1 0%nat) by lia.
  assert (Ei : idx1 = [nth b idx []]).
  { destruct Hx as [Hlx _].
    pose proof (knn_single topk x idx _ b Hidx) as Hs.
    rewrite Hs in Hidx1 by lia. congruence. }
  rewrite Ei. reflexivity.
Qed.

Lemma PaiNet_forward_eval_per_cloud_witness :
  exists logits log1 alone log1',
    PaiNet_forward topk_sorted false keep_all keep_all
      (sample_net (sample_index 1 16)) sample_input []
    = Some (logits, sample_net (sample_index 1 16), log1) /\
    PaiNet_forward topk_sorted false drop_all drop_all
      (sample_net (sample_index 1 16)) [nth 1 sample_input []] []
    = Some (alone, sample_net (sample_index 1 16), log1') /\
    length logits = 2%nat /\ length alone = 1%nat /\
    nth 1 logits [] = nth 0 alone [].
Proof.
  apply (PaiNet_forward_eval_per_cloud topk_sorted keep_all keep_all
           drop_all drop_all (sample_net (sample_index 1 16)) 40
           sample_input 2 1 1 [] []);
    [apply topk_sorted_contract|apply sample_net_sized
    |cbn [sample_net net_args args_emb_dims]; lia
    |apply sample_input_shape|lia
    |cbn [sample_net net_args args_k]; lia|lia].
Defined.

(** ** [PaiConvDG.forward] and the size of the kernel *)

Section PaiConvDGFacts.

Lemma index_rows_in (spirals : matrix) (l : list nat) (rows : list vec) :
  index_rows spirals l = Some rows -> Forall (fun r => In r spirals) rows.
Proof.
  intros H. pose proof (mapM_length _ _ _ H) as Hl.
  apply Forall_forall. intros r Hr.
  destruct (In_nth _ _ [] Hr) as [i [Hi <-]]. rewrite Hl in Hi.
  pose proof (mapM_nth _ 0%nat [] _ _ i H Hi) as E.
  now apply nth_error_In in E.
Qed.

Lemma spirals_rows (feature : tensor3) (B C N : nat) :
  shape3 feature B C N -> (1 <= C)%nat ->
  Forall (fun r => length r = C) (concat (transpose21 feature)).
Proof.
  intros [Hl Hf] HC. apply Forall_forall. intros r Hr.
  apply in_concat in Hr. destruct Hr as [M [HM Hr]].
  unfold transpose21 in HM. apply in_map_iff in HM.
  destruct HM as [xb [<- Hxb]]. rewrite Forall_forall in Hf.
  specialize (Hf xb Hxb).
  destruct (In_nth _ _ [] Hr) as [i [Hi <-]].
  rewrite length_transpose in Hi. unfold transpose.
  rewrite row_length_tabulate by exact Hi. apply Hf.
Qed.

Lemma length_concat_shape (M : matrix) (r c : nat) :
  shape M r c -> length (concat M) = (r * c)%nat.
Proof. intros [Hl Hf]. now rewrite (concat_length_uniform M c Hf), Hl. Qed.

(** The buffer [torch.matmul(spirals, permatrix)] leaves. *)
Lemma length_dg_buffer (rows : list vec) (permatrix : tensor3)
    (n C k kernel_size : nat) :
  length rows = (n * k)%nat -> Forall (fun r => length r = C) rows ->
  (1 <= k)%nat -> (1 <= C)%nat ->
  shape3 permatrix n k kernel_size ->
  length (concat (map (@concat R)
            (bmm (transpose21 (view_blocks n k rows)) permatrix)))
  = (n * (C * kernel_size))%nat.
Proof.
  intros Hl Hf Hk HC [HPl HPf].
  rewrite (concat_length_uniform _ (C * kernel_size)).
  - unfold bmm, transpose21.
    rewrite length_map, length_zip_with, length_map, length_view_blocks. lia.
  - apply Forall_forall. intros v Hv. apply in_map_iff in Hv.
    destruct Hv as [M [<- HM]].
    destruct (In_nth _ _ [] HM) as [p [Hp <-]].
    unfold bmm, transpose21 in Hp |- *.
    rewrite length_zip_with, length_map, length_view_blocks in Hp.
    rewrite (nth_zip_with _ _ _ p [] [] [])
      by (rewrite ?length_map, ?length_view_blocks; lia).
    rewrite (nth_map_in _ _ p []) by (rewrite length_view_blocks; lia).
    rewrite nth_view_blocks by lia.
    assert (Hblk : shape (firstn k (skipn (p * k) rows)) k C).
    { apply (shape_view_block rows n k C p); [now split|lia]. }
    pose proof (shape_transpose _ _ _ Hblk Hk) as Ht.
    pose proof (Forall_at _ permatrix p [] HPf ltac:(lia)) as HP.
    cbn beta in HP.
    apply length_concat_shape. unfold matmul.
    destruct Ht as [Htl _]. unfold nrows at 1. rewrite Htl.
    rewrite (shape_ncols _ k kernel_size HP) by lia.
    apply shape_tabulate.
Qed.

Lemma length_permute0312 (num_pts k : nat) (t : list (list (list vec))) :
  length (permute0312 num_pts k t) = length t.
Proof. unfold permute0312. apply length_map. Qed.

Lemma channels_permute0312 (num_pts k : nat) (t : list (list (list vec)))
    (xb : tensor3) :
  In xb (permute0312 num_pts k t) ->
  length xb = length (hd [] (hd [] (hd [] t))).
Proof.
  unfold permute0312. intros H. apply in_map_iff in H.
  destruct H as [tb [<- _]]. now rewrite length_map, length_seq.
Qed.

End PaiConvDGFacts.

(** X19.  [PaiConvDG.forward], on a layer of [__init__]'s sizes and
    well-shaped arguments, works only when the kernel has twice as many
    points as there are neighbours: the view of the aggregated features
    as [k] rows gives [in_c * kernel_size / k] channels, and the
    convolution takes [2 * in_c].  For any other kernel size it raises;
    for that one it returns a [B] x [out_c] x [N] tensor. *)
Theorem PaiConvDG_forward_kernel_size (self : PaiConvDG)
    (feature : tensor3) (spirals_index : list nat) (permatrix : tensor3)
    (B N in_c out_c k kernel_size : nat) :
  PaiConvDG_sized self in_c out_c k kernel_size ->
  shape3 feature B in_c N ->
  (1 <= B)%nat -> (1 <= N)%nat -> (1 <= in_c)%nat -> (1 <= out_c)%nat ->
  (1 <= k)%nat ->
  length spirals_index = (B * N * k)%nat ->
  Forall (fun m => (m < B * N)%nat) spirals_index ->
  shape3 permatrix (B * N) k kernel_size ->
  (kernel_size <> (2 * k)%nat ->
   forall training,
     PaiConvDG_forward training self feature spirals_index permatrix = None) /\
  (kernel_size = (2 * k)%nat ->
   exists out,
     PaiConvDG_forward false self feature spirals_index permatrix
     = Some (out, self) /\
     shape3 out B out_c N).
Proof.
  intros (Hk & _ & _ & _ & Hin & [HWl _] & _ & _) Hx HB HN HC Ho Hk1 Hil Hib HP.
  destruct (size_shape3 feature B in_c N Hx HB HC) as (E0 & E1 & E2).
  destruct (index_rows_returns (concat (transpose21 feature)) spirals_index)
    as [rows [Hrows Hrl]].
  { now rewrite (length_spirals feature B in_c N Hx HC). }
  rewrite Hil in Hrl.
  pose proof (index_rows_in _ _ _ Hrows) as Hin_rows.
  assert (Hrf : Forall (fun r => length r = in_c) rows).
  { pose proof (spirals_rows feature B in_c N Hx HC) as Hsp.
    rewrite Forall_forall in Hsp, Hin_rows |- *.
    intros r Hr. apply Hsp, Hin_rows, Hr. }
  pose proof (length_dg_buffer rows permatrix (B * N) in_c k kernel_size
                Hrl Hrf Hk1 HC HP) as Hbuf.
  set (flat := concat (map (@concat R)
                 (bmm (transpose21 (view_blocks (B * N) k rows)) permatrix))) in *.
  assert (Hn0 : (B * N * k <> 0)%nat) by nia.
  split.
  - intros Hks training. unfold PaiConvDG_forward.
    rewrite E0, E2, Hrows, Hk. cbn [obind]. fold flat.
    unfold view4. rewrite Hbuf.
    destruct (Nat.eqb_spec (B * N * k) 0) as [|_]; [contradiction|].
    cbn [orb].
    destruct (Nat.eqb_spec ((B * N * (in_c * kernel_size)) mod (B * N * k)) 0)
      as [Hmod|_]; [|reflexivity].
    cbn [negb obind].
    set (c := ((B * N * (in_c * kernel_size)) / (B * N * k))%nat).
    assert (Hc : (B * N * (in_c * kernel_size) = B * N * k * c)%nat).
    { apply Nat.Div0.div_exact. exact Hmod. }
    assert (Hcn : c <> (in_c * 2)%nat) by (intros ->; apply Hks; nia).
    set (t := view_blocks B N (view_blocks (B * N) k (view_blocks (B * N * k) c flat))).
    assert (Hhd : length (hd [] (hd [] (hd [] t))) = c).
    { unfold t.
      destruct B as [|B']; [lia|]. destruct N as [|N']; [lia|].
      destruct k as [|k']; [lia|].
      unfold view_blocks at 1. cbn [seq map hd Nat.mul].
      rewrite skipn_O.
      unfold view_blocks at 1. cbn [seq map firstn hd Nat.add Nat.mul].
      rewrite skipn_O.
      unfold view_blocks at 1. cbn [seq map firstn hd Nat.add Nat.mul].
      rewrite skipn_O, length_firstn, Hbuf. nia. }
    unfold Conv2d_forward.
    assert (Hfb : forallb (fun xb => Nat.eqb (length xb)
                                      (c2_in_channels (pdg_conv self)))
                          (permute0312 N k t) = false).
    { destruct (forallb _ _) eqn:Efb; [|reflexivity]. exfalso.
      rewrite forallb_forall in Efb.
      assert (Hne : (0 < length (permute0312 N k t))%nat).
      { rewrite length_permute0312. unfold t. rewrite length_view_blocks. lia. }
      destruct (permute0312 N k t) as [|xb rest] eqn:Ep; [cbn in Hne; lia|].
      assert (Hxb : In xb (permute0312 N k t)) by (rewrite Ep; now left).
      pose proof (channels_permute0312 N k t xb Hxb) as Hch.
      specialize (Efb xb (or_introl eq_refl)).
      apply Nat.eqb_eq in Efb. rewrite Hin, Hch, Hhd in Efb. contradiction. }
    now rewrite Hfb.
  - intros Hks. subst kernel_size.
    assert (Hbuf' : length flat = (in_c * 2 * (B * N * k))%nat) by (rewrite Hbuf; nia).
    set (t := view_blocks B N (view_blocks (B * N) k
                 (view_blocks (B * N * k) (in_c * 2) flat))).
    assert (Hhd : length (hd [] (hd [] (hd [] t))) = (in_c * 2)%nat).
    { unfold t.
      destruct B as [|B']; [lia|]. destruct N as [|N']; [lia|].
      destruct k as [|k']; [lia|].
      unfold view_blocks at 1. cbn [seq map hd Nat.mul].
      rewrite skipn_O.
      unfold view_blocks at 1. cbn [seq map firstn hd Nat.add Nat.mul].
      rewrite skipn_O.
      unfold view_blocks at 1. cbn [seq map firstn hd Nat.add Nat.mul].
      rewrite skipn_O, length_firstn, Hbuf'. nia. }
    assert (Hfb : forallb (fun xb => Nat.eqb (length xb)
                                      (c2_in_channels (pdg_conv self)))
                          (permute0312 N k t) = true).
    { apply forallb_forall. intros xb Hxb. apply Nat.eqb_eq.
      now rewrite (channels_permute0312 N k t xb Hxb), Hhd, Hin. }
    set (y := map (map (map list_max))
                (map (fun xb =>
                   map (fun o =>
                      tabulate (nrows (hd [] xb)) (ncols (hd [] xb))
                        (fun h w =>
                           let y := rsum (c2_in_channels (pdg_conv self))
                                      (fun c => get (c2_weight (pdg_conv self)) o c
                                                * get (nth c xb []) h w) in
                           match c2_bias (pdg_conv self) with
                           | Some b => y + nth o b 0
                           | None => y
                           end))
                     (seq 0 (nrows (c2_weight (pdg_conv self)))))
                   (permute0312 N k t))).
    assert (Hy : shape3 y B out_c N).
    { split.
      - unfold y. rewrite !length_map, length_permute0312. unfold t.
        apply length_view_blocks.
      - apply Forall_forall. intros M HM. unfold y in HM.
        rewrite map_map in HM. apply in_map_iff in HM.
        destruct HM as [xb [<- Hxb]].
        assert (Hch : length xb = (in_c * 2)%nat)
          by (now rewrite (channels_permute0312 N k t xb Hxb), Hhd).
        unfold permute0312 in Hxb. apply in_map_iff in Hxb.
        destruct Hxb as [tb [<- _]]. rewrite Hhd.
        assert (H2 : (in_c * 2 = S (in_c * 2 - 1))%nat) by lia.
        rewrite H2. cbn [seq map hd].
        rewrite nrows_tabulate, ncols_tabulate by lia.
        split.
        + rewrite !length_map, length_seq. exact HWl.
        + apply Forall_forall. intros row Hrow.
          rewrite map_map in Hrow. apply in_map_iff in Hrow.
          destruct Hrow as [o [<- _]].
          rewrite length_map. exact (nrows_tabulate N k _). }
    destruct (BatchNorm1d_forward3_returns false (pdg_bn self) y B out_c N Hy HB Ho)
      as (out & bn' & Ebn & Hout & _); [discriminate|].
    pose proof (BatchNorm1d_forward3_eval _ _ _ _ Ebn) as ->.
    exists out. split; [|exact Hout].
    unfold PaiConvDG_forward.
    rewrite E0, E2, Hrows, Hk. cbn [obind]. fold flat.
    unfold view4. rewrite Hbuf'.
    destruct (Nat.eqb_spec (B * N * k) 0) as [|_]; [contradiction|].
    cbn [orb]. rewrite Nat.Div0.mod_mul. cbn [Nat.eqb negb obind].
    rewrite Nat.div_mul by exact Hn0. fold t.
    unfold Conv2d_forward. rewrite Hfb. cbn [obind]. fold y.
    rewrite Ebn. cbn [obind]. do 2 f_equal.
    clear -Hk. destruct self. cbn [pdg_k] in Hk. now subst k.
Qed.

Lemma PaiConvDG_forward_kernel_size_witness :
  ((16 <> 2 * 1)%nat ->
   forall training,
     PaiConvDG_forward training (sample_dg 1 16) two_points [0; 1]%nat
       [zeros 1 16; zeros 1 16] = None) /\
  ((16 = 2 * 1)%nat ->
   exists out,
     PaiConvDG_forward false (sample_dg 1 16) two_points [0; 1]%nat
       [zeros 1 16; zeros 1 16]
     = Some (out, sample_dg 1 16) /\
     shape3 out 1 64 2).
Proof.
  apply (PaiConvDG_forward_kernel_size (sample_dg 1 16) two_points [0; 1]%nat
           [zeros 1 16; zeros 1 16] 1 2 3 64 1 16).
  - unfold PaiConvDG_sized, BatchNorm1d_sized, sample_dg, fresh_bn, zeros.
    cbn [pdg_k pdg_kernel_size pdg_in_c pdg_out_c pdg_conv pdg_bn
         c2_in_channels c2_weight c2_bias
         bn_weight bn_bias bn_running_mean bn_running_var].
    repeat split; try apply repeat_length; try apply shape_tabulate.
  - repeat constructor.
  - lia.
  - lia.
  - lia.
  - lia.
  - lia.
  - reflexivity.
  - repeat constructor.
  - split; [reflexivity|]. repeat constructor; apply shape_tabulate.
Defined.

(** ** A freshly initialised [PaiIndexMatrixLSA] *)

Section LSAFacts.




End LSAFacts.

Section LSAForward.




End LSAForward.



(** ** A freshly initialised [Transform_Net] *)

Section TransformNetFacts.









End TransformNetFacts.



(** ** [DGCNN.forward] *)

Section DGCNNFacts.

Variable topk : nat -> list R -> option (list nat).

Lemma get_graph_feature_shape (x : tensor3) (k : nat) (f : list tensor3) :
  get_graph_feature topk x k None = Some f ->
  shape4 f (length x) (2 * size1 x) (size2 x) k.
Proof.
  unfold get_graph_feature.
  destruct (knn topk x k) as [idx|]; [|discriminate]. cbn [obind].
  destruct (index_rows _ _) as [rows|]; [|discriminate]. cbn [obind].
  destruct (negb _); [discriminate|]. intros [= <-]. split.
  - rewrite length_map, length_zip_with, length_view_blocks, !length_map.
    unfold transpose21, size0. rewrite length_map. apply Nat.min_id.
  - apply Forall_forall. intros fb Hfb. apply in_map_iff in Hfb.
    destruct Hfb as [g [<- _]]. split; [now rewrite length_map, length_seq|].
    apply Forall_forall. intros M HM. apply in_map_iff in HM.
    destruct HM as [d [<- _]]. apply shape_tabulate.
Qed.







Lemma get_graph_feature_length (x : tensor3) (k : nat) (f : list tensor3) :
  get_graph_feature topk x k None = Some f -> length f = length x.
Proof. intros E. apply (get_graph_feature_shape x k f E). Qed.

Lemma Conv2d_forward_length (c : Conv2d) (x y : list tensor3) :
  Conv2d_forward c x = Some y -> length y = length x.
Proof.
  unfold Conv2d_forward. destruct (forallb _ _); [|discriminate].
  intros [= <-]. apply length_map.
Qed.

Lemma BatchNorm2d_forward_length (training : bool) (bn bn' : BatchNorm1d)
    (x y : list tensor3) :
  BatchNorm2d_forward training bn x = Some (y, bn') -> length y = length x.
Proof.
  unfold BatchNorm2d_forward. destruct training.
  - destruct (Nat.leb _ 1); [discriminate|]. intros [= <- _]. apply length_map.
  - intros [= <- _]. apply length_map.
Qed.

Lemma edge_conv_length (training : bool) (k : nat) (conv : Conv2d)
    (bn bn' : BatchNorm1d) (x y : tensor3) :
  edge_conv topk training k conv bn x = Some (y, bn') -> length y = length x.
Proof.
  unfold edge_conv.
  destruct (get_graph_feature topk x k None) as [f|] eqn:Ef; [|discriminate].
  cbn [obind].
  destruct (Conv2d_forward conv f) as [g|] eqn:Eg; [|discriminate].
  cbn [obind].
  destruct (BatchNorm2d_forward training bn g) as [[h bn1]|] eqn:Eh;
    [|discriminate].
  cbn [obind]. unfold max_last.
  destruct (forallb _ (leaky_relu4 h)); [|discriminate].
  cbn [obind]. intros [= <- _].
  unfold leaky_relu4. rewrite !length_map.
  rewrite (BatchNorm2d_forward_length _ _ _ _ _ Eh),
          (Conv2d_forward_length _ _ _ Eg).
  exact (get_graph_feature_length _ _ _ Ef).
Qed.

Lemma edge_conv_too_many (training : bool) (k : nat) (conv : Conv2d)
    (bn : BatchNorm1d) (x : tensor3) (B C N : nat) :
  topk_contract topk ->
  shape3 x B C N -> (1 <= B)%nat -> (1 <= C)%nat -> (1 <= N)%nat ->
  (N < k)%nat ->
  edge_conv topk training k conv bn x = None.
Proof.
  intros Ht Hx HB HC HN Hk. unfold edge_conv, get_graph_feature.
  now rewrite (knn_too_many topk Ht x B C N k Hx HB HC HN Hk).
Qed.

End DGCNNFacts.


(** X22.  [DGCNN.forward] raises, whatever the network, when [k]
    exceeds the number of points of the clouds, in training and in
    evaluation mode, and when a batch of a single cloud is given in
    training mode. *)
Theorem DGCNN_forward_raises
    (topk : nat -> list R -> option (list nat)) (training : bool)
    (keep1 keep2 : nat -> nat -> bool) (self : DGCNN) (x : tensor3)
    (B C N : nat) :
  topk_contract topk ->
  shape3 x B C N -> (1 <= B)%nat -> (1 <= C)%nat -> (1 <= N)%nat ->
  (N < dg_k self)%nat \/ (training = true /\ B = 1%nat) ->
  DGCNN_forward topk training keep1 keep2 self x = None.
Proof.
  intros Ht Hx HB HC HN [Hk|[-> ->]].
  - unfold DGCNN_forward.
    now rewrite (edge_conv_too_many topk training (dg_k self) _ _ x B C N Ht Hx).
  - destruct Hx as [Hl _]. unfold DGCNN_forward.
    destruct (edge_conv topk true (dg_k self) (dg_conv1 self) _ x)
      as [[x1 b1]|] eqn:E1; [|reflexivity].
    apply edge_conv_length in E1. cbn [obind].
    destruct (edge_conv topk true (dg_k self) (dg_conv2 self) _ x1)
      as [[x2 b2]|]; [|reflexivity]. cbn [obind].
    destruct (edge_conv topk true (dg_k self) (dg_conv3 self) _ x2)
      as [[x3 b3]|]; [|reflexivity]. cbn [obind].
    destruct (edge_conv topk true (dg_k self) (dg_conv4 self) _ x3)
      as [[x4 b4]|]; [|reflexivity]. cbn [obind].
    destruct (BatchNorm1d_forward3 true (dg_bn5 self) _) as [[y5 b5]|] eqn:E5;
      [|reflexivity].
    apply BatchNorm1d_forward3_length in E5. cbn [obind].
    rewrite BatchNorm1d_forward2_single; [reflexivity|].
    unfold Linear_forward. rewrite nrows_tabulate. unfold nrows.
    etransitivity; [apply length_cat1_le|].
    unfold adaptive_max_pool1d. rewrite !length_map, E5.
    unfold Conv1d_forward. rewrite length_map.
    etransitivity; [apply length_cat1_le|]. lia.
Qed.

Lemma DGCNN_forward_raises_witness :
  DGCNN_forward topk_sorted false keep_all keep_all (sample_dgcnn 3) two_points
  = None.
Proof.
  apply (DGCNN_forward_raises topk_sorted false keep_all keep_all
           (sample_dgcnn 3) two_points 1 3 2);
    [apply topk_sorted_contract|repeat constructor|lia|lia|lia|].
  left. cbn [sample_dgcnn dg_k]. lia.
Defined.


